(** * Router worker of KeriWasm: a shallow embedding and its properties

    The development follows the router skeleton of
    [workers/liboqs_worker.js]: the [state] object with its route list and
    its four maps, the helpers ([escapeHtml], [normalizeRoutes],
    [applyInit], [matchRoute], [ensureWorker], [clearPending], ...), the two
    protocol adapters and the entry points of the event loop (a message from
    the page, a message or an error from a backend worker, a timer that
    fires).

    Conventions.
    - A JavaScript string is a [string]; one character stands for one code
      unit.  The router only compares, measures and concatenates strings.
    - A finite JavaScript number is the rational it denotes; NaN and the two
      infinities are separate constructors.
    - A message is a [value]: a primitive, an array or a plain object, a
      plain object being a finite map from property names to values.  The
      other objects that structured clone can deliver ([Date], [Map], typed
      arrays, ...) are not represented.
    - [Map] objects that are only read by key are [gmap]s.  [state.pending]
      is iterated in insertion order by [failPendingForWorker], so it is an
      insertion-ordered association list.
    - Every handler returns the new state together with the list of effects
      it performed, oldest first; a handler that ends with an exception
      nothing catches has [Uncaught] as its last effect.  The [ts] field of
      outgoing messages (wall-clock time) is left out. *)

From Stdlib Require Import Ascii String QArith Qround Sorted.
From stdpp Require Import gmap strings list fin_maps pretty.

(** ** JavaScript values *)

Inductive jsnum :=
| JNaN
| JInf (negative : bool)
| JFin (q : Q).

#[warnings="-register-all"]
Inductive value :=
| VUndef
| VNull
| VBool (b : bool)
| VNum (n : jsnum)
| VStr (s : string)
| VArr (items : list value)
| VObj (props : gmap string value).

(** [isObject(v)]: not null, [typeof v === "object"], not an array. *)
Definition isObject (v : value) : bool :=
  match v with VObj _ => true | _ => false end.

(** ToBoolean. *)
Definition truthy (v : value) : bool :=
  match v with
  | VUndef | VNull => false
  | VBool b => b
  | VNum JNaN => false
  | VNum (JInf _) => true
  | VNum (JFin q) => negb (Qeq_bool q 0)
  | VStr s => negb (String.eqb s "")
  | VArr _ | VObj _ => true
  end.

(** [a || b]. *)
Definition jsor (a b : value) : value := if truthy a then a else b.

(** [o.k] on a plain object: [undefined] when the property is absent. *)
Definition prop (o : gmap string value) (k : string) : value :=
  default VUndef (o !! k).

(** [v === "lit"]. *)
Definition is_str (v : value) (lit : string) : bool :=
  match v with VStr s => String.eqb s lit | _ => false end.

(** ** The runtime

    What the router asks of the JavaScript host and is not part of the
    repository: whether [new Worker(url, {type, ...})] throws (and then the
    text that [err?.message || String(err)] yields for the thrown value),
    the decimal rendering of a number, and [String.prototype.toUpperCase]. *)

Record runtime := {
  newWorkerThrows : string -> string -> option string;
  numberToString : jsnum -> string;
  toUpperCase : string -> string;
}.

(** ** Strings and HTML escaping *)

(** The double quote character, as a one-character string. *)
Definition dq : string := String "034"%char EmptyString.

(** [s.replace(/c/g, by)] for a single-character pattern. *)
Fixpoint replaceAll (c : ascii) (by_ : string) (s : string) : string :=
  match s with
  | EmptyString => EmptyString
  | String a rest =>
      if Ascii.eqb a c then by_ +:+ replaceAll c by_ rest
      else String a (replaceAll c by_ rest)
  end.

(** [escapeHtml(raw)] for a string [raw] (every call site passes a string,
    on which [String(raw)] is the identity): five global replacements, in
    the order of the source. *)
Definition escapeHtml (raw : string) : string :=
  replaceAll "'"%char "&#39;"
    (replaceAll "034"%char "&quot;"
      (replaceAll ">"%char "&gt;"
        (replaceAll "<"%char "&lt;"
          (replaceAll "&"%char "&amp;" raw)))).

(** The entity that stands for one character, following the wording of the
    specification ("the characters &, <, >, double quote and ' are
    HTML-escaped"): used to compare with [escapeHtml]. *)
Definition escapeChar (a : ascii) : string :=
  if Ascii.eqb a "&"%char then "&amp;"
  else if Ascii.eqb a "<"%char then "&lt;"
  else if Ascii.eqb a ">"%char then "&gt;"
  else if Ascii.eqb a "034"%char then "&quot;"
  else if Ascii.eqb a "'"%char then "&#39;"
  else String a EmptyString.

Fixpoint escapeEach (s : string) : string :=
  match s with
  | EmptyString => EmptyString
  | String a rest => escapeChar a +:+ escapeEach rest
  end.

(** [<div class="cls">body</div>], the shape of every HTML body the router
    writes. *)
Definition div (cls body : string) : string :=
  "<div class=" +:+ dq +:+ cls +:+ dq +:+ ">" +:+ body +:+ "</div>".

(** [{ "Content-Type": "text/html; charset=utf-8" }]. *)
Definition htmlHeaders : value :=
  VObj {[ "Content-Type" := VStr "text/html; charset=utf-8" ]}.

(** ** Routes *)

Record route := { prefix : string; worker : string }.

(** The predicate of the [filter] in [normalizeRoutes]. *)
Definition isRouteEntry (r : value) : bool :=
  match r with
  | VObj o =>
      match prop o "prefix", prop o "worker" with
      | VStr _, VStr _ => true
      | _, _ => false
      end
  | _ => false
  end.

(** The function of the [map] in [normalizeRoutes]; it is only applied to
    values that passed [isRouteEntry]. *)
Definition toRoute (r : value) : route :=
  match r with
  | VObj o =>
      match prop o "prefix", prop o "worker" with
      | VStr p, VStr w => {| prefix := p; worker := w |}
      | _, _ => {| prefix := ""; worker := "" |}
      end
  | _ => {| prefix := ""; worker := "" |}
  end.

(** The bindings of a raw route array that survive the filter, in declaration
    order ([clean] before it is sorted). *)
Definition cleanRoutes (raw : list value) : list route :=
  map toRoute (List.filter isRouteEntry raw).

(** [clean.sort((a, b) => b.prefix.length - a.prefix.length)].
    [Array.prototype.sort] is stable, and the comparator is a total preorder,
    so the result is the one stable arrangement by descending prefix length;
    it is computed here by insertion: a binding goes before the first binding
    that is not strictly longer. *)
Fixpoint insertRoute (r : route) (l : list route) : list route :=
  match l with
  | [] => [r]
  | x :: rest =>
      if Nat.ltb (String.length (prefix r)) (String.length (prefix x))
      then x :: insertRoute r rest
      else r :: x :: rest
  end.

Definition sortRoutes (l : list route) : list route := foldr insertRoute [] l.

Definition normalizeRoutes (routes : value) : list route :=
  match routes with
  | VArr raw => sortRoutes (cleanRoutes raw)
  | _ => []
  end.

(** [path.startsWith(route.prefix)]. *)
Definition startsWith (path pre : string) : bool := String.prefix pre path.

(** ** [String(v)] *)

(** ToString of a value; [None] when it throws a [TypeError].  The rendering
    of numbers is the runtime's.  An array is joined with commas, [undefined]
    and [null] elements giving the empty string.  A plain object that came
    through structured clone holds no function, so an own [toString]
    property is not callable: the conversion then falls back on the
    inherited [valueOf], which returns the object itself, and throws.
    Without an own [toString] the inherited one gives [[object Object]]. *)
Fixpoint toString (rt : runtime) (v : value) : option string :=
  match v with
  | VUndef => Some "undefined"
  | VNull => Some "null"
  | VBool true => Some "true"
  | VBool false => Some "false"
  | VNum n => Some (numberToString rt n)
  | VStr s => Some s
  | VArr items =>
      (fix join (l : list value) : option string :=
         match l with
         | [] => Some ""
         | x :: rest =>
             match
               match x with
               | VUndef | VNull => Some ""
               | _ => toString rt x
               end
             with
             | None => None
             | Some item =>
                 match rest with
                 | [] => Some item
                 | _ :: _ =>
                     match join rest with
                     | None => None
                     | Some tail => Some (item +:+ "," +:+ tail)
                     end
                 end
             end
         end) items
  | VObj o =>
      match o !! "toString" with
      | Some _ => None
      | None => Some "[object Object]"
      end
  end.

(** ** An insertion-ordered [Map] with string keys

    [set] on a present key keeps its position, [set] on an absent key
    appends, iteration follows the list. *)

Section JsMap.
Context {V : Type}.

Fixpoint mapGet (k : string) (m : list (string * V)) : option V :=
  match m with
  | [] => None
  | (k', v) :: rest => if String.eqb k' k then Some v else mapGet k rest
  end.

Definition mapHas (k : string) (m : list (string * V)) : bool :=
  match mapGet k m with Some _ => true | None => false end.

Fixpoint mapSet (k : string) (v : V) (m : list (string * V))
  : list (string * V) :=
  match m with
  | [] => [(k, v)]
  | (k', v') :: rest =>
      if String.eqb k' k then (k', v) :: rest
      else (k', v') :: mapSet k v rest
  end.

Definition mapDelete (k : string) (m : list (string * V))
  : list (string * V) :=
  List.filter (fun kv => negb (String.eqb (fst kv) k)) m.
End JsMap.

(** ** The router state *)

Record workerDef := {
  url : string;
  mode : string;
  type : string;
  config : value;
}.

(** A worker session.  The [Worker] handle of a session is identified with
    the session's name (one session per name, never replaced); [startedAt]
    is never read and is left out. *)
Record workerInfo := {
  info_name : string;
  info_mode : string;
  info_ready : bool;
}.

Record pendingEntry := {
  workerName : string;
  timeoutId : nat;
}.

(** The [state] object, together with the host's table of live timers: a
    timer set by [dispatchProtocolRequest] is a closure over the request id,
    so a live timer is recorded as that id. *)
Record state := {
  requestTimeoutMs : Z;
  routes : list route;
  workerDefs : gmap string workerDef;
  workers : gmap string workerInfo;
  pending : list (string * pendingEntry);
  activeLegacyByWorker : gmap string string;
  timers : gmap nat string;
  nextTimerId : nat;
}.

Definition DEFAULT_TIMEOUT_MS : Z := 30000.

Definition initialState : state := {|
  requestTimeoutMs := DEFAULT_TIMEOUT_MS;
  routes := [];
  workerDefs := ∅;
  workers := ∅;
  pending := [];
  activeLegacyByWorker := ∅;
  timers := ∅;
  nextTimerId := 1;
|}.

Definition with_requestTimeoutMs (st : state) (ms : Z) : state :=
  {| requestTimeoutMs := ms; routes := routes st;
     workerDefs := workerDefs st; workers := workers st;
     pending := pending st;
     activeLegacyByWorker := activeLegacyByWorker st;
     timers := timers st; nextTimerId := nextTimerId st |}.

Definition with_routes (st : state) (rs : list route) : state :=
  {| requestTimeoutMs := requestTimeoutMs st; routes := rs;
     workerDefs := workerDefs st; workers := workers st;
     pending := pending st;
     activeLegacyByWorker := activeLegacyByWorker st;
     timers := timers st; nextTimerId := nextTimerId st |}.

Definition with_workerDefs (st : state) (ds : gmap string workerDef) : state :=
  {| requestTimeoutMs := requestTimeoutMs st; routes := routes st;
     workerDefs := ds; workers := workers st;
     pending := pending st;
     activeLegacyByWorker := activeLegacyByWorker st;
     timers := timers st; nextTimerId := nextTimerId st |}.

Definition with_workers (st : state) (ws : gmap string workerInfo) : state :=
  {| requestTimeoutMs := requestTimeoutMs st; routes := routes st;
     workerDefs := workerDefs st; workers := ws;
     pending := pending st;
     activeLegacyByWorker := activeLegacyByWorker st;
     timers := timers st; nextTimerId := nextTimerId st |}.

Definition with_pending (st : state) (p : list (string * pendingEntry)) : state :=
  {| requestTimeoutMs := requestTimeoutMs st; routes := routes st;
     workerDefs := workerDefs st; workers := workers st;
     pending := p;
     activeLegacyByWorker := activeLegacyByWorker st;
     timers := timers st; nextTimerId := nextTimerId st |}.

Definition with_activeLegacyByWorker (st : state) (a : gmap string string) : state :=
  {| requestTimeoutMs := requestTimeoutMs st; routes := routes st;
     workerDefs := workerDefs st; workers := workers st;
     pending := pending st;
     activeLegacyByWorker := a;
     timers := timers st; nextTimerId := nextTimerId st |}.

Definition with_timers (st : state) (t : gmap nat string) (next : nat) : state :=
  {| requestTimeoutMs := requestTimeoutMs st; routes := routes st;
     workerDefs := workerDefs st; workers := workers st;
     pending := pending st;
     activeLegacyByWorker := activeLegacyByWorker st;
     timers := t; nextTimerId := next |}.

(** ** Messages and effects *)

(** What the router posts to the page ([send]). *)
Inductive routerMsg :=
| MError (id : value) (code message : string)
| MHxResponse (id : string) (status : Q) (headers : value) (body : string)
| MEvent (id : value) (event : value) (data : value)
| MControlReady (id : value) (rs : list route) (workerCount : nat) (ms : Z)
| MControlPong (id : value).

(** What the router posts to a backend worker. *)
Inductive workerMsg :=
| WInit (name : string) (cfg : value)
| WRequest (id : string) (method path headers query form : value) (body : string)
| WRun.

(** What a handler does that others can see.  [Uncaught]: the handler ends
    with an exception that nothing catches (the host reports it as an error
    of the router); what the handler did before stays done. *)
Inductive effect :=
| Send (m : routerMsg)
| NewWorker (workerUrl workerType name : string)
| PostToWorker (name : string) (m : workerMsg)
| Uncaught.

(** What the event loop delivers to the router. *)
Inductive event :=
| EvMessage (data : value)
| EvWorkerMessage (name : string) (data : value)
| EvWorkerError (name : string) (message : value)
| EvTimeout (id : nat).

Definition sendProtocolError (code message : string) (id : value) : effect :=
  Send (MError id code message).

Definition sendHxResponse (id : string) (status : Q) (body : string)
  (headers : value) : effect :=
  Send (MHxResponse id status headers body).

Definition sendEvent (id event data : value) : effect :=
  Send (MEvent id event data).

(** The [hx.response] messages among the effects: request id and status. *)
Definition responses (out : list effect) : list (string * Q) :=
  omap (fun e =>
          match e with
          | Send (MHxResponse id status _ _) => Some (id, status)
          | _ => None
          end) out.

(** ** The router *)

Section Router.
Context (rt : runtime).

(** The definition stored by [applyInit] for one entry of [msg.workers];
    [None] when the entry is skipped ([continue]). *)
Definition parseWorkerDef (def : value) : option workerDef :=
  match def with
  | VObj d =>
      match prop d "url" with
      | VStr u =>
          Some {| url := u;
                  mode := match prop d "mode" with
                          | VStr m => m
                          | _ => "protocol"
                          end;
                  type := match prop d "type" with
                          | VStr t => t
                          | _ => "classic"
                          end;
                  config := match prop d "config" with
                            | VObj c => VObj c
                            | _ => VObj ∅
                            end |}
      | _ => None
      end
  | _ => None
  end.

(** The loop over [Object.entries(msg.workers)]: property names are
    distinct, so the order of the [set]s does not affect the result. *)
Definition setWorkerDefs (ws : gmap string value)
  (defs : gmap string workerDef) : gmap string workerDef :=
  map_fold (fun name def acc =>
              match parseWorkerDef def with
              | Some d => <[name := d]> acc
              | None => acc
              end) defs ws.

Definition applyInit (st : state) (msg : gmap string value) : state :=
  let st1 :=
    match prop msg "routes" with
    | VArr raw => with_routes st (normalizeRoutes (VArr raw))
    | _ => st
    end in
  let st2 :=
    match prop msg "workers" with
    | VObj ws => with_workerDefs st1 (setWorkerDefs ws (workerDefs st1))
    | _ => st1
    end in
  match prop msg "requestTimeoutMs" with
  | VNum (JFin q) =>
      if negb (Qle_bool q 0) then with_requestTimeoutMs st2 (Qfloor q)
      else st2
  | _ => st2
  end.

Definition matchRoute (st : state) (path : string) : option route :=
  List.find (fun r => startsWith path (prefix r)) (routes st).

(** [ensureWorker(workerName)]: [inl text] when it throws, [text] being
    what the [catch] of [handleHxRequest] reads off the exception. *)
Definition ensureWorker (st : state) (name : string)
  : string + (workerInfo * state * list effect) :=
  match workers st !! name with
  | Some info => inr (info, st, [])
  | None =>
      match workerDefs st !! name with
      | None => inl ("No worker definition for '" +:+ name +:+ "'")
      | Some def =>
          match newWorkerThrows rt (url def) (type def) with
          | Some err => inl err
          | None =>
              let info :=
                {| info_name := name;
                   info_mode := mode def;
                   info_ready := String.eqb (mode def) "legacy-liboqs" |} in
              inr (info,
                   with_workers st (<[name := info]> (workers st)),
                   NewWorker (url def) (type def) ("router:" +:+ name)
                   :: (if String.eqb (info_mode info) "protocol"
                       then [PostToWorker name (WInit name (config def))]
                       else []))
          end
      end
  end.

Definition clearPending (st : state) (requestId : string) : state :=
  match mapGet requestId (pending st) with
  | None => st
  | Some p =>
      with_pending
        (with_timers st (delete (timeoutId p) (timers st)) (nextTimerId st))
        (mapDelete requestId (pending st))
  end.

(** The loop runs over the entries that [state.pending] holds when it
    starts: the body only deletes the entry it is visiting, so the live
    iteration of the source visits the same entries in the same order. *)
Definition failPendingForWorker (st : state) (name reason : string)
  : state * list effect :=
  foldl (fun acc entry =>
           if String.eqb (workerName (snd entry)) name
           then (clearPending (fst acc) (fst entry),
                 snd acc ++
                 [sendHxResponse (fst entry) 502
                    (div "fail" ("Backend worker failed: " +:+ escapeHtml reason))
                    htmlHeaders])
           else acc)
        (st, []) (pending st).

(** [state.pending.has(requestId)] for an arbitrary value: the keys are
    strings. *)
Definition pendingHas (st : state) (requestId : value) : bool :=
  match requestId with
  | VStr s => mapHas s (pending st)
  | _ => false
  end.

Definition handleProtocolWorkerMessage (st : state) (info : workerInfo)
  (msg : value) : state * list effect :=
  match msg with
  | VObj m =>
      if is_str (prop m "kind") "worker.ready" then
        (with_workers st
           (<[info_name info :=
                {| info_name := info_name info;
                   info_mode := info_mode info;
                   info_ready := true |}]> (workers st)),
         [sendEvent VNull (VStr "worker.ready")
            (VObj {[ "worker" := VStr (info_name info) ]})])
      else if is_str (prop m "kind") "worker.event" then
        (st, [sendEvent (jsor (prop m "id") VNull)
                (jsor (prop m "event") (VStr "worker.event"))
                (jsor (prop m "data") (VObj ∅))])
      else if is_str (prop m "kind") "worker.response" then
        let requestId := prop m "id" in
        if negb (truthy requestId) || negb (pendingHas st requestId) then
          (st, [sendProtocolError "ORPHAN_RESPONSE"
                  "Received worker.response for unknown request id"
                  (jsor requestId VNull)])
        else
          match requestId with
          | VStr rid =>
              let response :=
                match prop m "response" with
                | VObj r => r
                | _ => ∅
                end in
              (clearPending st rid,
               [sendHxResponse rid
                  (match prop response "status" with
                   | VNum (JFin q) => q
                   | _ => 500
                   end)
                  (match prop response "body" with
                   | VStr b => b
                   | _ => ""
                   end)
                  (match prop response "headers" with
                   | VObj h => VObj h
                   | _ => VObj ∅
                   end)])
          | _ => (st, [])
          end
      else (st, [])
  | _ => (st, [])
  end.

(** [state.activeLegacyByWorker.get(info.name) || null]. *)
Definition activeRequestId (st : state) (name : string) : value :=
  match activeLegacyByWorker st !! name with
  | Some rid => jsor (VStr rid) VNull
  | None => VNull
  end.

Definition handleLegacyLiboqsMessage (st : state) (info : workerInfo)
  (msg : value) : state * list effect :=
  match msg with
  | VObj m =>
      if is_str (prop m "type") "log-batch" then
        (st, [sendEvent (activeRequestId st (info_name info))
                (VStr "legacy.log_batch")
                (VObj (<[ "worker" := VStr (info_name info) ]>
                       {[ "entries" := jsor (prop m "entries") (VArr []) ]}))])
      else if is_str (prop m "type") "status" then
        let payload : gmap string value :=
          <[ "worker" := VStr (info_name info) ]>
            {[ "state" := jsor (prop m "state") (VStr "unknown") ]} in
        let payload :=
          if truthy (prop m "error")
          then <[ "error" := prop m "error" ]> payload
          else payload in
        (if is_str (prop m "state") "done" || is_str (prop m "state") "error"
         then with_activeLegacyByWorker st
                (delete (info_name info) (activeLegacyByWorker st))
         else st,
         [sendEvent (activeRequestId st (info_name info))
            (VStr "legacy.status") (VObj payload)])
      else (st, [])
  | _ => (st, [])
  end.

Definition handleWorkerMessage (st : state) (info : workerInfo)
  (msg : value) : state * list effect :=
  if String.eqb (info_mode info) "legacy-liboqs"
  then handleLegacyLiboqsMessage st info msg
  else handleProtocolWorkerMessage st info msg.

(** The callback given to [setTimeout] by [dispatchProtocolRequest]; it
    reads [state.requestTimeoutMs] when it runs. *)
Definition timeoutCallback (st : state) (requestId : string)
  : state * list effect :=
  (clearPending st requestId,
   [sendHxResponse requestId 504
      (div "fail"
         ("Request timed out in router after "
          +:+ numberToString rt (JFin (inject_Z (requestTimeoutMs st)))
          +:+ "ms."))
      htmlHeaders]).

(** [dispatchProtocolRequest(requestId, route, reqMsg)]; [inl] when
    [ensureWorker] throws. *)
Definition dispatchProtocolRequest (st : state) (requestId : string)
  (r : route) (reqMsg : gmap string value)
  : string + (state * list effect) :=
  match ensureWorker st (worker r) with
  | inl err => inl err
  | inr (info, st1, out1) =>
      if negb (info_ready info) then
        inr (st1,
             out1 ++
             [sendHxResponse requestId 503
                (div "info"
                   ("Worker '" +:+ escapeHtml (worker r)
                    +:+ "' is still warming up."))
                htmlHeaders])
      else
        let timeoutId := nextTimerId st1 in
        let st2 :=
          with_timers st1 (<[timeoutId := requestId]> (timers st1))
            (S timeoutId) in
        let st3 :=
          with_pending st2
            (mapSet requestId
               {| workerName := worker r; timeoutId := timeoutId |}
               (pending st2)) in
        inr (st3,
             out1 ++
             [PostToWorker (info_name info)
                (WRequest requestId
                   (prop reqMsg "method")
                   (prop reqMsg "path")
                   (match prop reqMsg "headers" with
                    | VObj h => VObj h | _ => VObj ∅ end)
                   (match prop reqMsg "query" with
                    | VObj q => VObj q | _ => VObj ∅ end)
                   (match prop reqMsg "form" with
                    | VObj f => VObj f | _ => VObj ∅ end)
                   (match prop reqMsg "body" with
                    | VStr b => b | _ => "" end))])
  end.

Definition LEGACY_RUN_PATH : string := "/hx/tests/liboqs/run".

(** [dispatchLegacyLiboqsRequest(requestId, route, reqMsg)]. *)
Definition dispatchLegacyLiboqsRequest (st : state) (requestId : string)
  (r : route) (reqMsg : gmap string value)
  : string + (state * list effect) :=
  match ensureWorker st (worker r) with
  | inl err => inl err
  | inr (info, st1, out1) =>
      let notBusy :=
        if negb (is_str (prop reqMsg "path") LEGACY_RUN_PATH) then
          inr (st1,
               out1 ++
               [sendHxResponse requestId 404
                  (div "fail"
                     "Legacy liboqs adapter only supports /hx/tests/liboqs/run.")
                  htmlHeaders])
        else
          inr (with_activeLegacyByWorker st1
                 (<[worker r := requestId]> (activeLegacyByWorker st1)),
               out1 ++
               [PostToWorker (info_name info) WRun;
                sendHxResponse requestId 202
                  (div "info"
                     ("liboqs run started in warm worker '"
                      +:+ escapeHtml (worker r) +:+ "'."))
                  htmlHeaders]) in
      match activeLegacyByWorker st1 !! worker r with
      | Some current =>
          if truthy (VStr current) then
            inr (st1,
                 out1 ++
                 [sendHxResponse requestId 409
                    (div "info"
                       ("liboqs worker is busy with request '"
                        +:+ escapeHtml current +:+ "'."))
                    htmlHeaders])
          else notBusy
      | None => notBusy
      end
  end.

(** [typeof v === "string" && v.length > 0 ? v : null]. *)
Definition nonEmptyString (v : value) : option string :=
  match v with
  | VStr s => if Nat.ltb 0 (String.length s) then Some s else None
  | _ => None
  end.

Definition handleHxRequest (st : state) (msg : gmap string value)
  : state * list effect :=
  match nonEmptyString (prop msg "id") with
  | None =>
      (st, [sendProtocolError "INVALID_REQUEST"
              "hx.request requires non-empty string id" VNull])
  | Some requestId =>
      match nonEmptyString (prop msg "path") with
      | None =>
          (st, [sendHxResponse requestId 400
                  (div "fail" "Missing request path.") htmlHeaders])
      | Some path =>
          match matchRoute st path with
          | None =>
              (st, [sendHxResponse requestId 404
                      (div "fail"
                         ("No worker route for path '"
                          +:+ escapeHtml path +:+ "'."))
                      htmlHeaders])
          | Some r =>
              match workerDefs st !! worker r with
              | None =>
                  (st, [sendHxResponse requestId 500
                          (div "fail"
                             ("Route targets undefined worker '"
                              +:+ escapeHtml (worker r) +:+ "'."))
                          htmlHeaders])
              | Some def =>
                  let method :=
                    match prop msg "method" with
                    | VStr m => toUpperCase rt m
                    | _ => "GET"
                    end in
                  let msg' := <[ "method" := VStr method ]> msg in
                  match
                    if String.eqb (mode def) "legacy-liboqs"
                    then dispatchLegacyLiboqsRequest st requestId r msg'
                    else dispatchProtocolRequest st requestId r msg'
                  with
                  | inr res => res
                  | inl err =>
                      (st, [sendHxResponse requestId 500
                              (div "fail"
                                 ("Router dispatch error: "
                                  +:+ escapeHtml err))
                              htmlHeaders])
                  end
              end
          end
      end
  end.

(** [self.onmessage], applied to [event.data]. *)
Definition onmessage (st : state) (data : value) : state * list effect :=
  match jsor data (VObj ∅) with
  | VObj msg =>
      if is_str (prop msg "kind") "control.init" then
        let st' := applyInit st msg in
        (st', [Send (MControlReady (jsor (prop msg "id") VNull)
                       (routes st') (size (workerDefs st'))
                       (requestTimeoutMs st'))])
      else if is_str (prop msg "kind") "control.ping" then
        (st, [Send (MControlPong (jsor (prop msg "id") VNull))])
      else if is_str (prop msg "kind") "hx.request" then
        handleHxRequest st msg
      else
        match toString rt (prop msg "kind") with
        | Some kind =>
            (st, [sendProtocolError "UNKNOWN_KIND"
                    ("Unsupported router message kind '" +:+ kind +:+ "'")
                    (jsor (prop msg "id") VNull)])
        | None => (st, [Uncaught])
        end
  | _ => (st, [])
  end.

(** [worker.onmessage] of the session [info], applied to [event.data]. *)
Definition workerOnmessage (st : state) (info : workerInfo) (data : value)
  : state * list effect :=
  handleWorkerMessage st info (jsor data (VObj ∅)).

(** [worker.onerror] of the session called [name]; [message] is
    [event?.message].  [String(...)] is the first thing the handler does. *)
Definition workerOnerror (st : state) (name : string) (message : value)
  : state * list effect :=
  match toString rt (jsor message (VStr "worker error")) with
  | Some text =>
      let res :=
        failPendingForWorker st name
          ("Worker '" +:+ name +:+ "' error: " +:+ text) in
      (fst res, snd res ++ [sendProtocolError "WORKER_ERROR" text VNull])
  | None => (st, [Uncaught])
  end.

(** One turn of the event loop.  An event is possible ([Some]) when its
    source exists: a session for a worker event, a live timer for a
    timeout.  A timer that fires leaves the host's table before its
    callback runs. *)
Definition step (st : state) (ev : event) : option (state * list effect) :=
  match ev with
  | EvMessage data => Some (onmessage st data)
  | EvWorkerMessage name data =>
      match workers st !! name with
      | Some info => Some (workerOnmessage st info data)
      | None => None
      end
  | EvWorkerError name message =>
      match workers st !! name with
      | Some _ => Some (workerOnerror st name message)
      | None => None
      end
  | EvTimeout id =>
      match timers st !! id with
      | Some requestId =>
          Some (timeoutCallback
                  (with_timers st (delete id (timers st)) (nextTimerId st))
                  requestId)
      | None => None
      end
  end.

(** The states the router can be in: the initial one and those a possible
    event leads to. *)
Inductive reachable : state -> Prop :=
| reachable_init : reachable initialState
| reachable_step st ev st' out :
    reachable st -> step st ev = Some (st', out) -> reachable st'.
End Router.

(** The characters that [escapeHtml] rewrites. *)
Definition needsEscape (a : ascii) : bool :=
  Ascii.eqb a "&"%char || Ascii.eqb a "<"%char || Ascii.eqb a ">"%char
  || Ascii.eqb a "034"%char || Ascii.eqb a "'"%char.

Fixpoint plainString (s : string) : bool :=
  match s with
  | EmptyString => true
  | String a rest => negb (needsEscape a) && plainString rest
  end.

(** ** What the specification asks of [matchRoute]

    Following the specification's words: the result is no-match when no
    declared binding has a prefix that is a literal prefix of the path;
    otherwise it is a declared binding whose prefix is a prefix of the path,
    no matching binding is longer, and among the matching bindings of the
    same length it is the earliest declared.  [decl] lists the bindings in
    declaration order. *)
Definition isLongestPrefixMatch (decl : list route) (path : string)
  (res : option route) : Prop :=
  match res with
  | None => ∀ r, r ∈ decl → startsWith path (prefix r) = false
  | Some r =>
      ∃ i, decl !! i = Some r ∧ startsWith path (prefix r) = true ∧
        ∀ j r', decl !! j = Some r' → startsWith path (prefix r') = true →
          String.length (prefix r') ≤ String.length (prefix r) ∧
          (String.length (prefix r') = String.length (prefix r) → i ≤ j)
  end.

(** Descending prefix length, every element against every later one. *)
Definition byLengthDesc (l : list route) : Prop :=
  StronglySorted
    (fun a b => String.length (prefix b) ≤ String.length (prefix a)) l.

(** ** A runtime to run the model on

    Used by the examples below: the constructor never throws, integers are
    printed in decimal, ASCII letters are upper-cased. *)
Definition sampleNumberToString (n : jsnum) : string :=
  match n with
  | JNaN => "NaN"
  | JInf true => "-Infinity"
  | JInf false => "Infinity"
  | JFin q => pretty (Qfloor q)
  end.

Definition upperAscii (a : ascii) : ascii :=
  let n := nat_of_ascii a in
  if Nat.leb 97 n && Nat.leb n 122 then ascii_of_nat (n - 32) else a.

Fixpoint sampleToUpperCase (s : string) : string :=
  match s with
  | EmptyString => EmptyString
  | String a rest => String (upperAscii a) (sampleToUpperCase rest)
  end.

Definition sampleRuntime : runtime := {|
  newWorkerThrows := fun _ _ => None;
  numberToString := sampleNumberToString;
  toUpperCase := sampleToUpperCase;
|}.

(** ** Running the router on a list of events

    Events that are not possible in the current state are skipped. *)
Fixpoint runFrom (rt : runtime) (st : state) (evs : list event) : state :=
  match evs with
  | [] => st
  | ev :: rest =>
      match step rt st ev with
      | Some (st', _) => runFrom rt st' rest
      | None => runFrom rt st rest
      end
  end.

(** ** The bookkeeping invariant

    - a bound legacy slot holds a non-empty request id and belongs to a
      worker that has a session;
    - the timer of a pending entry is live and is the timer of that
      request id, which is not empty;
    - a session is stored under its own name;
    - timer ids are handed out in increasing order. *)
Record invariant (st : state) : Prop := {
  inv_active : ∀ w cur,
    activeLegacyByWorker st !! w = Some cur →
    cur ≠ "" ∧ is_Some (workers st !! w);
  inv_pending : ∀ rid p,
    mapGet rid (pending st) = Some p →
    timers st !! timeoutId p = Some rid ∧ rid ≠ "";
  inv_workers : ∀ w info,
    workers st !! w = Some info → info_name info = w;
  inv_timers : ∀ t rid,
    timers st !! t = Some rid → t < nextTimerId st;
}.

(** No bound legacy slot of [st] is free in [st']. *)
Definition slotsKept (st st' : state) : Prop :=
  ∀ w cur, activeLegacyByWorker st !! w = Some cur →
           is_Some (activeLegacyByWorker st' !! w).

(** The worker message that frees a legacy slot: a status report whose
    state is [done] or [error]. *)
Definition isTerminalStatus (data : value) : Prop :=
  ∃ m, jsor data (VObj ∅) = VObj m ∧
       prop m "type" = VStr "status" ∧
       (prop m "state" = VStr "done" ∨ prop m "state" = VStr "error").

(** ** Example messages

    The scenario of the specification: a native worker [agent] behind
    [/hx/agent] and the legacy worker [liboqs] behind [/hx/tests/liboqs]. *)
Definition obj (fields : list (string * value)) : gmap string value :=
  list_to_map fields.

Definition exInit : gmap string value :=
  obj [("kind", VStr "control.init");
       ("routes",
        VArr [VObj (obj [("prefix", VStr "/hx/agent"); ("worker", VStr "agent")]);
              VObj (obj [("prefix", VStr "/hx/tests/liboqs");
                         ("worker", VStr "liboqs")]);
              VObj (obj [("prefix", VStr "/hx/tests/liboqs");
                         ("worker", VStr "agent")]);
              VObj (obj [("prefix", VNum (JFin 7)); ("worker", VStr "agent")])]);
       ("workers",
        VObj (obj [("agent", VObj (obj [("url", VStr "/workers/agent.js")]));
                   ("liboqs",
                    VObj (obj [("url", VStr "/workers/liboqs_worker.js");
                               ("mode", VStr "legacy-liboqs")]))]))].

(** A second [control.init] that only declares the native worker. *)
Definition exReinit : gmap string value :=
  obj [("kind", VStr "control.init");
       ("routes",
        VArr [VObj (obj [("prefix", VStr "/hx/agent"); ("worker", VStr "agent")])]);
       ("workers",
        VObj (obj [("agent", VObj (obj [("url", VStr "/workers/agent.js")]))]))].

Definition exRequest (id path : string) : gmap string value :=
  obj [("kind", VStr "hx.request"); ("id", VStr id); ("path", VStr path)].

Definition exReady : gmap string value := obj [("kind", VStr "worker.ready")].

Definition exResponse (id : string) (response : value) : gmap string value :=
  obj [("kind", VStr "worker.response"); ("id", VStr id);
       ("response", response)].

Definition exStatus (st : string) : gmap string value :=
  obj [("type", VStr "status"); ("state", VStr st)].

(** After initialization. *)
Definition exReadyState : state :=
  runFrom sampleRuntime initialState [EvMessage (VObj exInit)].

(** The native worker has a session and has reported ready. *)
Definition exWarmState : state :=
  runFrom sampleRuntime exReadyState
    [EvMessage (VObj (exRequest "r0" "/hx/agent/ping"));
     EvWorkerMessage "agent" (VObj exReady)].

(** Request [r1] is pending on the native worker. *)
Definition exPendingState : state :=
  runFrom sampleRuntime exWarmState
    [EvMessage (VObj (exRequest "r1" "/hx/agent/sign"))].

(** Request [r4] holds the slot of the legacy worker. *)
Definition exBusyState : state :=
  runFrom sampleRuntime exReadyState
    [EvMessage (VObj (exRequest "r4" "/hx/tests/liboqs/run"))].

(** ** Re-initialization as the specification words it

    Following the specification's words: after [control.init] the route list
    and the worker-definition map are those of the message, nothing of the
    prior ones is left. *)
Definition initReplacesState (st : state) (msg : gmap string value) : Prop :=
  routes (applyInit st msg) = normalizeRoutes (prop msg "routes") ∧
  ∀ name,
    workerDefs (applyInit st msg) !! name =
    match prop msg "workers" with
    | VObj ws => ws !! name ≫= parseWorkerDef
    | _ => None
    end.

(** ** The conflict response as the specification words it

    Following the specification's words: the request is answered by a
    response of status 409 whose body contains the request id that holds
    the slot. *)
Fixpoint contains (sub s : string) : bool :=
  String.prefix sub s
  || match s with
     | EmptyString => false
     | String _ rest => contains sub rest
     end.

Definition conflictQuotesBoundId (rt : runtime) (st : state)
  (msg : gmap string value) (cur : string) : Prop :=
  ∃ rid headers body,
    step rt st (EvMessage (VObj msg))
    = Some (st, [Send (MHxResponse rid 409 headers body)]) ∧
    contains cur body = true.

(** The request [a<b] holds the slot of the legacy worker. *)
Definition exMarkupBusyState : state :=
  runFrom sampleRuntime exReadyState
    [EvMessage (VObj (exRequest "a<b" "/hx/tests/liboqs/run"))].

(** The names given to the [Worker]s constructed by a list of effects. *)
Definition spawned (out : list effect) : list string :=
  omap (fun e => match e with NewWorker _ _ n => Some n | _ => None end) out.

(** Two states have the same configuration: route list, worker definitions
    and request timeout. *)
Definition sameConfig (st st' : state) : Prop :=
  routes st' = routes st ∧
  workerDefs st' = workerDefs st ∧
  requestTimeoutMs st' = requestTimeoutMs st.

Definition isControlInit (ev : event) : bool :=
  match ev with
  | EvMessage data =>
      match jsor data (VObj ∅) with
      | VObj m => is_str (prop m "kind") "control.init"
      | _ => false
      end
  | _ => false
  end.

(** The final state and all effects of a list of events, oldest first;
    events that are not possible are skipped. *)
Fixpoint runTrace (rt : runtime) (st : state) (evs : list event)
  : state * list effect :=
  match evs with
  | [] => (st, [])
  | ev :: rest =>
      match step rt st ev with
      | Some (st', out) =>
          let res := runTrace rt st' rest in (fst res, out ++ snd res)
      | None => runTrace rt st rest
      end
  end.

(** A session after a step, compared with the session before it. *)
Definition sessionKept (i i' : workerInfo) : Prop :=
  info_name i' = info_name i ∧
  info_mode i' = info_mode i ∧
  (info_ready i = true → info_ready i' = true).

(** The shape of the pending table: request ids are distinct and not empty,
    the timer of an entry is live and set for the entry's id, and two
    entries never share a timer. *)
Record pendingWellFormed (st : state) : Prop := {
  pwf_keys : NoDup (map fst (pending st));
  pwf_entries : ∀ rid p,
    (rid, p) ∈ pending st → rid ≠ "" ∧ timers st !! timeoutId p = Some rid;
  pwf_timers : NoDup (map (fun e => timeoutId (snd e)) (pending st));
}.

(** The entries of the pending table that [failPendingForWorker] fails. *)
Definition ownedBy (name : string) (l : list (string * pendingEntry))
  : list (string * pendingEntry) :=
  List.filter (fun e => String.eqb (workerName (snd e)) name) l.

Definition notOwnedBy (name : string) (l : list (string * pendingEntry))
  : list (string * pendingEntry) :=
  List.filter (fun e => negb (String.eqb (workerName (snd e)) name)) l.

(** The entries of [m] whose key is not in [ks]. *)
Definition withoutKeys (ks : list string) (m : list (string * pendingEntry))
  : list (string * pendingEntry) :=
  List.filter (fun e => negb (bool_decide (fst e ∈ ks))) m.

(** A runtime whose [Worker] constructor always throws. *)
Definition throwingRuntime : runtime := {|
  newWorkerThrows := fun _ _ => Some "Failed to construct 'Worker': <blocked>";
  numberToString := sampleNumberToString;
  toUpperCase := sampleToUpperCase;
|}.

(** A configuration whose only route names a worker that is not defined. *)
Definition exDanglingInit : gmap string value :=
  obj [("kind", VStr "control.init");
       ("routes",
        VArr [VObj (obj [("prefix", VStr "/hx/ghost"); ("worker", VStr "ghost")])])].

Definition exDanglingState : state :=
  runFrom sampleRuntime initialState [EvMessage (VObj exDanglingInit)].

(** * The legacy liboqs worker

    The first program of [workers/liboqs_worker.js]: the worker that the
    router's legacy adapter starts with [{type: "run"}].  Its [onmessage] is
    an [async] function with two [await]s; it is modelled by the point at
    which the handler is suspended ([handler]).  What Pyodide does is not
    modelled: the initialization promise [pyodideReady] and the promise of
    [runPythonAsync] settle when the event loop says so, with the text that
    [err && err.message ? err.message : String(err)] gives for a rejection.
    A promise that is already settled resumes the handler before any other
    event, so such an [await] does not end the turn.  Python reaches
    [enqueueLog] and [flushLogs] through [self.enqueueLiboqsLog] and
    [self.flushLiboqsLogs] ([self.enqueueLiboqsLogJson] also ends in one call
    of [enqueueLog]). *)
Module LiboqsWorker.

Definition LOG_BATCH_MAX : nat := 40.

(** [pyodideReady]: [null], or a promise and its state. *)
Inductive initStatus :=
| NotStarted
| Pending
| Fulfilled
| Rejected (err : string).

(** Where the handler of a [run] message is suspended. *)
Inductive phase :=
| Idle
| AwaitInit
| AwaitRun.

Record state := {
  pyodideReady : initStatus;
  running : bool;
  handler : phase;
  logBuffer : list value;
}.

Definition initialState : state :=
  {| pyodideReady := NotStarted; running := false; handler := Idle;
     logBuffer := [] |}.

(** What the worker does that others can see: the messages it posts, the
    start of the initialization (the body of [initPyodide]) and the start of
    the test run ([runPythonAsync]). *)
Inductive effect :=
| PostLogBatch (entries : list value)
| PostStatus (st : string) (error : option string)
| StartInit
| StartRun.

Inductive event :=
| Message (data : value)
| Log (entry : value)
| Flush
| Tick
| InitSettled (err : option string)
| RunSettled (err : option string).

Definition with_logBuffer (st : state) (b : list value) : state :=
  {| pyodideReady := pyodideReady st; running := running st;
     handler := handler st; logBuffer := b |}.

Definition with_handler (st : state) (r : bool) (h : phase) : state :=
  {| pyodideReady := pyodideReady st; running := r;
     handler := h; logBuffer := logBuffer st |}.

Definition with_pyodideReady (st : state) (i : initStatus) : state :=
  {| pyodideReady := i; running := running st;
     handler := handler st; logBuffer := logBuffer st |}.

(** [resolveUrl]; [origin] stands for [self.location.origin]. *)
Definition resolveUrl (origin path : string) : string :=
  if startsWith path "http" then path else origin +:+ path.

Definition flushLogs (st : state) : state * list effect :=
  match logBuffer st with
  | [] => (st, [])
  | batch => (with_logBuffer st [], [PostLogBatch batch])
  end.

Definition enqueueLog (st : state) (entry : value) : state * list effect :=
  let st1 := with_logBuffer st (logBuffer st ++ [entry]) in
  if Nat.leb LOG_BATCH_MAX (length (logBuffer st1)) then flushLogs st1
  else (st1, []).

(** The callback of [setInterval]. *)
Definition intervalCallback (st : state) : state * list effect :=
  if Nat.ltb 0 (length (logBuffer st)) then flushLogs st else (st, []).

(** The end of the handler: [flushLogs()], the terminal status, and the
    [finally] block. *)
Definition finish (st : state) (err : option string) : state * list effect :=
  let res := flushLogs st in
  (with_handler (fst res) false Idle,
   snd res ++ [PostStatus (match err with None => "done" | Some _ => "error" end)
                 err]).

(** The handler after [await initPyodide()]. *)
Definition afterInit (st : state) (err : option string) : state * list effect :=
  match err with
  | None =>
      (with_handler st (running st) AwaitRun,
       [PostStatus "running" None; StartRun])
  | Some _ => finish st err
  end.

(** [self.onmessage], up to the first [await] that has to wait. *)
Definition onmessage (st : state) (data : value) : state * list effect :=
  let type :=
    match jsor data (VObj ∅) with
    | VObj m => prop m "type"
    | _ => VUndef
    end in
  if negb (is_str type "run") then (st, [])
  else if running st then (st, [PostStatus "busy" None])
  else
    let st1 := with_handler st true (handler st) in
    match pyodideReady st1 with
    | NotStarted =>
        (with_handler (with_pyodideReady st1 Pending) true AwaitInit,
         [PostStatus "starting" None; StartInit])
    | Pending =>
        (with_handler st1 true AwaitInit, [PostStatus "starting" None])
    | Fulfilled =>
        let res := afterInit st1 None in
        (fst res, PostStatus "starting" None :: snd res)
    | Rejected err =>
        let res := afterInit st1 (Some err) in
        (fst res, PostStatus "starting" None :: snd res)
    end.

Definition settled (err : option string) : initStatus :=
  match err with None => Fulfilled | Some e => Rejected e end.

(** One turn of the worker's event loop. *)
Definition step (st : state) (ev : event) : option (state * list effect) :=
  match ev with
  | Message data => Some (onmessage st data)
  | Log entry => Some (enqueueLog st entry)
  | Flush => Some (flushLogs st)
  | Tick => Some (intervalCallback st)
  | InitSettled err =>
      match pyodideReady st with
      | Pending =>
          let st1 := with_pyodideReady st (settled err) in
          match handler st with
          | AwaitInit => Some (afterInit st1 err)
          | _ => Some (st1, [])
          end
      | _ => None
      end
  | RunSettled err =>
      match handler st with
      | AwaitRun => Some (finish st err)
      | _ => None
      end
  end.

(** A run: the final state and the effects, oldest first; events that are
    not possible are skipped. *)
Fixpoint run (st : state) (evs : list event) : state * list effect :=
  match evs with
  | [] => (st, [])
  | ev :: rest =>
      match step st ev with
      | Some (st', out) =>
          let res := run st' rest in (fst res, out ++ snd res)
      | None => run st rest
      end
  end.

(** The log entries handed to [enqueueLog] by a list of events. *)
Definition logged (evs : list event) : list value :=
  omap (fun ev => match ev with Log entry => Some entry | _ => None end) evs.

(** The batches posted by a list of effects, and their entries. *)
Definition batches (out : list effect) : list (list value) :=
  omap (fun e => match e with PostLogBatch b => Some b | _ => None end) out.

Definition posted (out : list effect) : list value := concat (batches out).

(** The states reported by a list of effects. *)
Definition statuses (out : list effect) : list string :=
  omap (fun e => match e with PostStatus s _ => Some s | _ => None end) out.

(** How many times a list of effects starts the initialization. *)
Definition isStartInit (e : effect) : bool :=
  match e with StartInit => true | _ => false end.

Definition initStarts (out : list effect) : nat :=
  length (List.filter isStartInit out).

(** Whether [pyodideReady] holds a promise. *)
Definition initStarted (st : state) : nat :=
  match pyodideReady st with NotStarted => 0 | _ => 1 end.

(** The status protocol: which report is possible at which point of the
    handler, and where it leads. *)
Definition protocolStep (h : phase) (s : string) : option phase :=
  match h with
  | Idle => if String.eqb s "starting" then Some AwaitInit else None
  | AwaitInit =>
      if String.eqb s "busy" then Some AwaitInit
      else if String.eqb s "running" then Some AwaitRun
      else if String.eqb s "error" then Some Idle
      else None
  | AwaitRun =>
      if String.eqb s "busy" then Some AwaitRun
      else if String.eqb s "done" then Some Idle
      else if String.eqb s "error" then Some Idle
      else None
  end.

Fixpoint protocolRun (h : phase) (l : list string) : option phase :=
  match l with
  | [] => Some h
  | s :: rest =>
      match protocolStep h s with
      | Some h' => protocolRun h' rest
      | None => None
      end
  end.

(** What holds between the variables of the worker in every state it
    reaches. *)
Record consistent (st : state) : Prop := {
  cons_running : running st = true ↔ handler st ≠ Idle;
  cons_pending : pyodideReady st = Pending → handler st = AwaitInit;
  cons_awaitInit : handler st = AwaitInit → pyodideReady st = Pending;
  cons_awaitRun : handler st = AwaitRun → pyodideReady st = Fulfilled;
  cons_buffer : length (logBuffer st) < LOG_BATCH_MAX;
}.

End LiboqsWorker.

(** * Properties *)

(** ** Strings *)

Lemma nonEmptyString_Some v s :
  nonEmptyString v = Some s ↔ v = VStr s ∧ s ≠ "".
Proof.
  destruct v as [| | | |t| |]; simpl; try (split; [discriminate | intros [? _]; discriminate]).
  destruct t as [|a t]; simpl.
  - split; [discriminate | intros [[= <-] Hne]; by destruct Hne].
  - split; [intros [= <-]; by split | intros [[= <-] _]; done].
Qed.

Lemma nonEmptyString_None v :
  nonEmptyString v = None ↔ ∀ s, v = VStr s → s = "".
Proof.
  split.
  - intros Hn s ->. destruct s; [done | discriminate Hn].
  - intros Hs. destruct (nonEmptyString v) as [s|] eqn:E; [| done].
    apply nonEmptyString_Some in E as [-> Hne]. by destruct Hne; apply Hs.
Qed.

Lemma string_app_nil (s : string) : "" +:+ s = s.
Proof. reflexivity. Qed.

Lemma string_app_cons a (s t : string) : String a s +:+ t = String a (s +:+ t).
Proof. reflexivity. Qed.

Lemma string_app_assoc (a b c : string) : (a +:+ b) +:+ c = a +:+ (b +:+ c).
Proof.
  induction a as [|x a IH]; [done |].
  by rewrite !string_app_cons, IH.
Qed.

Lemma replaceAll_app c by_ s1 s2 :
  replaceAll c by_ (s1 +:+ s2) = replaceAll c by_ s1 +:+ replaceAll c by_ s2.
Proof.
  induction s1 as [|a s1 IH]; [done |].
  rewrite string_app_cons. cbn [replaceAll].
  destruct (Ascii.eqb a c); rewrite IH; [by rewrite string_app_assoc | done].
Qed.

Lemma escapeHtml_cons a rest :
  escapeHtml (String a rest) = escapeChar a +:+ escapeHtml rest.
Proof.
  unfold escapeHtml, escapeChar. cbn [replaceAll].
  destruct (Ascii.eqb_spec a "&"%char) as [-> | _]; [done |].
  cbn [replaceAll].
  destruct (Ascii.eqb_spec a "<"%char) as [-> | _]; [done |].
  cbn [replaceAll].
  destruct (Ascii.eqb_spec a ">"%char) as [-> | _]; [done |].
  cbn [replaceAll].
  destruct (Ascii.eqb_spec a "034"%char) as [-> | _]; [done |].
  cbn [replaceAll].
  destruct (Ascii.eqb_spec a "'"%char) as [-> | _]; done.
Qed.

(** The five replacements in sequence escape each character on its own: no
    replacement text contains a character that a later replacement matches. *)
Lemma escapeHtml_escapeEach s : escapeHtml s = escapeEach s.
Proof.
  induction s as [|a s IH]; [done |].
  rewrite escapeHtml_cons. simpl. by rewrite IH.
Qed.

(** A string without any of the five characters is left as it is. *)
Lemma escapeHtml_plain s : plainString s = true → escapeHtml s = s.
Proof.
  rewrite escapeHtml_escapeEach.
  induction s as [|a s IH]; simpl; [done |].
  intros [Ha Hs]%andb_prop. rewrite (IH Hs).
  unfold needsEscape in Ha. unfold escapeChar.
  apply negb_true_iff in Ha.
  repeat (apply orb_false_elim in Ha as [Ha ?]).
  by repeat match goal with H : Ascii.eqb _ _ = false |- _ => rewrite H; clear H end.
Qed.

Example escapeHtml_example :
  escapeHtml ("<a href=" +:+ dq +:+ "x" +:+ dq +:+ ">Tom & 'Jerry'</a>")
  = "&lt;a href=&quot;x&quot;&gt;Tom &amp; &#39;Jerry&#39;&lt;/a&gt;".
Proof. reflexivity. Qed.

(** ** Routing *)

Lemma insertRoute_elem_of r x l : x ∈ insertRoute r l ↔ x = r ∨ x ∈ l.
Proof.
  induction l as [|y l IH]; simpl.
  - by rewrite elem_of_cons.
  - destruct (Nat.ltb _ _); rewrite !elem_of_cons; [rewrite IH |]; tauto.
Qed.

Lemma insertRoute_sorted r l : byLengthDesc l → byLengthDesc (insertRoute r l).
Proof.
  unfold byLengthDesc. induction 1 as [|y l Hl IH Hy]; simpl.
  - repeat constructor.
  - destruct (Nat.ltb_spec (String.length (prefix r)) (String.length (prefix y))).
    + constructor; [done |].
      apply Forall_forall. intros x [-> | Hx]%insertRoute_elem_of; [lia |].
      by eapply Forall_forall in Hy.
    + constructor; [by constructor |].
      constructor; [done |].
      eapply Forall_impl; [exact Hy |]. simpl. intros. lia.
Qed.

Lemma sortRoutes_sorted l : byLengthDesc (sortRoutes l).
Proof.
  induction l as [|r l IH]; simpl; [constructor | by apply insertRoute_sorted].
Qed.

Lemma insertRoute_Permutation r l : Permutation (r :: l) (insertRoute r l).
Proof.
  induction l as [|y l IH]; simpl; [done |].
  destruct (Nat.ltb _ _); [| done].
  rewrite <- IH. apply perm_swap.
Qed.

(** Sorting keeps the bindings: nothing is lost, nothing is added. *)
Lemma sortRoutes_Permutation l : Permutation l (sortRoutes l).
Proof.
  induction l as [|r l IH]; simpl; [done |].
  rewrite <- insertRoute_Permutation. by constructor.
Qed.

Lemma insertRoute_filter_length n r l :
  List.filter (fun x => Nat.eqb (String.length (prefix x)) n) (insertRoute r l)
  = List.filter (fun x => Nat.eqb (String.length (prefix x)) n) (r :: l).
Proof.
  induction l as [|x l IH]; [done |].
  cbn [insertRoute].
  destruct (Nat.ltb_spec (String.length (prefix r)) (String.length (prefix x)))
    as [Hlt | Hge]; [| done].
  cbn [List.filter] in *. rewrite IH.
  destruct (Nat.eqb_spec (String.length (prefix r)) n) as [Hr | Hr]; [| done].
  destruct (Nat.eqb_spec (String.length (prefix x)) n) as [Hx | Hx]; [lia | done].
Qed.

(** Sorting is stable: the bindings of any one prefix length keep their
    declaration order. *)
Lemma sortRoutes_stable n l :
  List.filter (fun x => Nat.eqb (String.length (prefix x)) n) (sortRoutes l)
  = List.filter (fun x => Nat.eqb (String.length (prefix x)) n) l.
Proof.
  induction l as [|r l IH]; [done |].
  cbn [sortRoutes foldr]. fold (sortRoutes l).
  rewrite insertRoute_filter_length. cbn [List.filter]. by rewrite IH.
Qed.

Example normalizeRoutes_example :
  normalizeRoutes
    (VArr [VObj (obj [("prefix", VStr "/a"); ("worker", VStr "w1")]);
           VObj (obj [("prefix", VStr "/a/b"); ("worker", VStr "w2")]);
           VStr "junk";
           VObj (obj [("prefix", VStr "/a"); ("worker", VStr "w3")]);
           VObj (obj [("prefix", VStr "/a/c"); ("worker", VStr "w4")]);
           VObj (obj [("prefix", VStr "/x")])])
  = [{| prefix := "/a/b"; worker := "w2" |};
     {| prefix := "/a/c"; worker := "w4" |};
     {| prefix := "/a"; worker := "w1" |};
     {| prefix := "/a"; worker := "w3" |}].
Proof. reflexivity. Qed.

(** The first match after one insertion into a sorted list. *)
Lemma find_insertRoute (p : route → bool) r l :
  byLengthDesc l →
  List.find p (insertRoute r l) =
  if p r then
    match List.find p l with
    | Some x =>
        if Nat.ltb (String.length (prefix r)) (String.length (prefix x))
        then Some x else Some r
    | None => Some r
    end
  else List.find p l.
Proof.
  unfold byLengthDesc. induction 1 as [|y l Hl IH Hy]; simpl; [done |].
  destruct (Nat.ltb_spec (String.length (prefix r)) (String.length (prefix y)))
    as [Hlt | Hge]; simpl.
  - destruct (p y) eqn:Hpy.
    + destruct (p r); [| done].
      by apply Nat.ltb_lt in Hlt as ->.
    + apply IH.
  - destruct (p r) eqn:Hpr; [| done].
    destruct (p y) eqn:Hpy.
    + by apply Nat.ltb_ge in Hge as ->.
    + destruct (List.find p l) as [x|] eqn:Hf; [| done].
      apply find_some in Hf as [Hx%list_elem_of_In _].
      eapply Forall_forall in Hy; [| exact Hx].
      assert (String.length (prefix x) ≤ String.length (prefix r)) as Hle by lia.
      by apply Nat.ltb_ge in Hle as ->.
Qed.

(** [find] on the sorted list meets the specification for the declared
    list. *)
Lemma find_sortRoutes_longest decl path :
  isLongestPrefixMatch decl path
    (List.find (fun r => startsWith path (prefix r)) (sortRoutes decl)).
Proof.
  induction decl as [|a decl IH]; simpl.
  - intros r Hr. by apply elem_of_nil in Hr.
  - rewrite find_insertRoute by apply sortRoutes_sorted.
    destruct (startsWith path (prefix a)) eqn:Ha.
    + destruct (List.find _ (sortRoutes decl)) as [x|]; simpl in IH.
      * destruct IH as (i & Hi & Hx & Hbest).
        destruct (Nat.ltb_spec (String.length (prefix a)) (String.length (prefix x))).
        -- exists (S i). split; [done |]. split; [done |].
           intros [|j] r' Hj Hr'; simpl in Hj.
           ++ injection Hj as <-. lia.
           ++ destruct (Hbest j r' Hj Hr'). lia.
        -- exists 0. split; [done |]. split; [done |].
           intros [|j] r' Hj Hr'; simpl in Hj.
           ++ injection Hj as <-. lia.
           ++ destruct (Hbest j r' Hj Hr'). lia.
      * exists 0. split; [done |]. split; [done |].
        intros [|j] r' Hj Hr'; simpl in Hj.
        -- injection Hj as <-. lia.
        -- apply list_elem_of_lookup_2 in Hj. apply IH in Hj. congruence.
    + destruct (List.find _ (sortRoutes decl)) as [x|]; simpl in IH |- *.
      * destruct IH as (i & Hi & Hx & Hbest).
        exists (S i). split; [done |]. split; [done |].
        intros [|j] r' Hj Hr'; simpl in Hj.
        -- injection Hj as <-. congruence.
        -- destruct (Hbest j r' Hj Hr'). lia.
      * intros r [-> | Hr]%elem_of_cons; [done | by apply IH].
Qed.

Lemma applyInit_routes st msg raw :
  prop msg "routes" = VArr raw →
  routes (applyInit st msg) = sortRoutes (cleanRoutes raw).
Proof.
  intros Hr. unfold applyInit. rewrite Hr.
  destruct (prop msg "workers") as [| | | | | |ws];
    destruct (prop msg "requestTimeoutMs") as [| | |[| |q]| | |];
    try destruct (negb (Qle_bool q 0)); reflexivity.
Qed.

(** C1.  For every route array accepted by [applyInit] and every path,
    [matchRoute] returns no-match when no declared binding has a prefix that
    is a literal prefix of the path, and otherwise the declared binding with
    the longest such prefix, the earliest declared among those of equal
    length. *)
Theorem matchRoute_longest_prefix st msg raw path :
  prop msg "routes" = VArr raw →
  isLongestPrefixMatch (cleanRoutes raw) path
    (matchRoute (applyInit st msg) path).
Proof.
  intros Hr. unfold matchRoute. rewrite (applyInit_routes _ _ _ Hr).
  apply find_sortRoutes_longest.
Qed.

(** ** The insertion-ordered map *)

Section JsMapFacts.
Context {V : Type}.
Implicit Types (m : list (string * V)) (k : string) (v : V).

Lemma mapGet_mapSet_eq k v m : mapGet k (mapSet k v m) = Some v.
Proof.
  induction m as [|[k' v'] m IH]; simpl.
  - by rewrite String.eqb_refl.
  - destruct (String.eqb k' k) eqn:E; simpl; rewrite E; done.
Qed.

Lemma mapGet_mapSet_ne k k' v m :
  k ≠ k' → mapGet k' (mapSet k v m) = mapGet k' m.
Proof.
  intros Hne. induction m as [|[k0 v0] m IH]; simpl.
  - by apply String.eqb_neq in Hne as ->.
  - destruct (String.eqb_spec k0 k) as [-> | Hk]; simpl.
    + by apply String.eqb_neq in Hne as ->.
    + by rewrite IH.
Qed.

Lemma mapGet_mapDelete_eq k m : mapGet k (mapDelete k m) = None.
Proof.
  induction m as [|[k' v'] m IH]; simpl; [done |].
  destruct (String.eqb k' k) eqn:E; simpl; [done |]. by rewrite E.
Qed.

Lemma mapGet_mapDelete_ne k k' m :
  k ≠ k' → mapGet k' (mapDelete k m) = mapGet k' m.
Proof.
  intros Hne. induction m as [|[k0 v0] m IH]; simpl; [done |].
  destruct (String.eqb_spec k0 k) as [-> | Hk]; simpl.
  - by apply String.eqb_neq in Hne as ->.
  - by rewrite IH.
Qed.

Lemma mapGet_mapDelete_Some k k' v m :
  mapGet k' (mapDelete k m) = Some v → k ≠ k' ∧ mapGet k' m = Some v.
Proof.
  intros H. destruct (decide (k = k')) as [-> | Hne].
  - by rewrite mapGet_mapDelete_eq in H.
  - by rewrite mapGet_mapDelete_ne in H.
Qed.

Lemma mapHas_true k m : mapHas k m = true ↔ is_Some (mapGet k m).
Proof.
  unfold mapHas. destruct (mapGet k m); split; done.
Qed.
End JsMapFacts.

Lemma mapDelete_absent {V} k (m : list (string * V)) :
  mapGet k m = None → mapDelete k m = m.
Proof.
  induction m as [|[k' v'] m IH]; simpl; [done |].
  destruct (String.eqb k' k); simpl; [done |]. intros H. by rewrite IH.
Qed.

(** ** Bookkeeping: what each helper touches *)

Lemma clearPending_pending st rid :
  pending (clearPending st rid) = mapDelete rid (pending st).
Proof.
  unfold clearPending. destruct (mapGet rid (pending st)) eqn:E; simpl; [done |].
  by rewrite mapDelete_absent.
Qed.

Lemma clearPending_timers st rid :
  timers (clearPending st rid) =
  match mapGet rid (pending st) with
  | Some p => delete (timeoutId p) (timers st)
  | None => timers st
  end.
Proof. unfold clearPending. by destruct (mapGet rid (pending st)). Qed.

Lemma clearPending_frame st rid :
  activeLegacyByWorker (clearPending st rid) = activeLegacyByWorker st ∧
  workers (clearPending st rid) = workers st ∧
  workerDefs (clearPending st rid) = workerDefs st ∧
  routes (clearPending st rid) = routes st ∧
  requestTimeoutMs (clearPending st rid) = requestTimeoutMs st ∧
  nextTimerId (clearPending st rid) = nextTimerId st.
Proof. unfold clearPending. by destruct (mapGet rid (pending st)). Qed.

Lemma clearPending_gone st rid : mapGet rid (pending (clearPending st rid)) = None.
Proof. rewrite clearPending_pending. apply mapGet_mapDelete_eq. Qed.

Lemma clearPending_invariant st rid :
  invariant st → invariant (clearPending st rid).
Proof.
  intros [Ha Hp Hw Ht].
  destruct (clearPending_frame st rid) as (Ea & Ew & _ & _ & _ & En).
  constructor.
  - rewrite Ea, Ew. apply Ha.
  - rewrite clearPending_pending, clearPending_timers.
    intros rid' p' [Hne Hg]%mapGet_mapDelete_Some.
    destruct (Hp _ _ Hg) as [Ht' Hne']. split; [| done].
    destruct (mapGet rid (pending st)) as [p|] eqn:E; [| done].
    destruct (Hp _ _ E) as [Htp _].
    rewrite lookup_delete_ne; [done |]. congruence.
  - rewrite Ew. apply Hw.
  - rewrite clearPending_timers, En. intros t r Hl. apply (Ht t r).
    destruct (mapGet rid (pending st)); [| done].
    by apply lookup_delete_Some in Hl as [_ ?].
Qed.

Section Bookkeeping.
Context (rt : runtime).

Lemma ensureWorker_inr st name info st1 out1 :
  ensureWorker rt st name = inr (info, st1, out1) →
  workers st1 !! name = Some info ∧
  (is_Some (workers st !! name) → st1 = st ∧ out1 = []) ∧
  (∀ w, is_Some (workers st !! w) → is_Some (workers st1 !! w)) ∧
  ((∀ w i, workers st !! w = Some i → info_name i = w) →
   ∀ w i, workers st1 !! w = Some i → info_name i = w) ∧
  pending st1 = pending st ∧
  timers st1 = timers st ∧
  nextTimerId st1 = nextTimerId st ∧
  activeLegacyByWorker st1 = activeLegacyByWorker st ∧
  responses out1 = [].
Proof.
  unfold ensureWorker. destruct (workers st !! name) as [i|] eqn:Ew.
  - intros [= <- <- <-]. rewrite Ew. repeat split; auto.
  - destruct (workerDefs st !! name) as [def|]; [| done].
    destruct (newWorkerThrows rt (url def) (type def)); [done |].
    intros [= <- <- <-]. simpl. repeat split; try done.
    + apply lookup_insert_eq.
    + intros w [i Hi]. destruct (decide (name = w)) as [-> | Hne].
      * rewrite lookup_insert_eq. by eexists.
      * rewrite lookup_insert_ne by done. by eexists.
    + intros Hall w i. destruct (decide (name = w)) as [-> | Hne].
      * rewrite lookup_insert_eq. by intros [= <-].
      * rewrite lookup_insert_ne by done. apply Hall.
    + by destruct (String.eqb (mode def) "protocol").
Qed.

Lemma ensureWorker_existing st name info :
  workers st !! name = Some info →
  ensureWorker rt st name = inr (info, st, []).
Proof. intros H. unfold ensureWorker. by rewrite H. Qed.

Lemma ensureWorker_invariant st name info st1 out1 :
  ensureWorker rt st name = inr (info, st1, out1) →
  invariant st → invariant st1.
Proof.
  intros He [Ha Hp Hw Ht].
  destruct (ensureWorker_inr _ _ _ _ _ He)
    as (_ & _ & Hmono & Hnames & Ep & Et & En & Ea & _).
  constructor.
  - rewrite Ea. intros w cur Hc. destruct (Ha _ _ Hc). auto.
  - rewrite Ep, Et. apply Hp.
  - by apply Hnames.
  - rewrite Et, En. apply Ht.
Qed.
End Bookkeeping.

Lemma is_str_true v lit : is_str v lit = true ↔ v = VStr lit.
Proof.
  destruct v; simpl; try (split; [discriminate | by intros [=]]).
  rewrite String.eqb_eq. split; [by intros -> | by intros [= ->]].
Qed.

Lemma invariant_ext st st' :
  workers st' = workers st →
  pending st' = pending st →
  activeLegacyByWorker st' = activeLegacyByWorker st →
  timers st' = timers st →
  nextTimerId st' = nextTimerId st →
  invariant st → invariant st'.
Proof.
  intros Ew Ep Ea Et En [Ha Hp Hw Ht].
  constructor; rewrite ?Ew, ?Ep, ?Ea, ?Et, ?En; done.
Qed.

Lemma applyInit_frame st msg :
  workers (applyInit st msg) = workers st ∧
  pending (applyInit st msg) = pending st ∧
  activeLegacyByWorker (applyInit st msg) = activeLegacyByWorker st ∧
  timers (applyInit st msg) = timers st ∧
  nextTimerId (applyInit st msg) = nextTimerId st.
Proof.
  unfold applyInit.
  destruct (prop msg "routes") as [| | | | |raw|];
    destruct (prop msg "workers") as [| | | | | |ws];
    destruct (prop msg "requestTimeoutMs") as [| | |[| |q]| | |];
    try destruct (negb (Qle_bool q 0)); done.
Qed.

Lemma failPendingForWorker_ind (P : state → Prop) st name reason :
  (∀ s rid, P s → P (clearPending s rid)) →
  P st → P (fst (failPendingForWorker st name reason)).
Proof.
  intros Hstep Hst. unfold failPendingForWorker.
  change st with (fst (st, @nil effect)) in Hst.
  revert Hst. generalize (st, @nil effect). generalize (pending st).
  intros l. induction l as [|[rid p] l IH]; intros acc H; simpl; [done |].
  destruct (String.eqb (workerName p) name); apply IH; simpl; auto.
Qed.

Section Preservation.
Context (rt : runtime).

Lemma dispatchProtocolRequest_invariant st rid r reqMsg st' out :
  dispatchProtocolRequest rt st rid r reqMsg = inr (st', out) →
  rid ≠ "" → invariant st →
  invariant st' ∧ activeLegacyByWorker st' = activeLegacyByWorker st.
Proof.
  unfold dispatchProtocolRequest.
  destruct (ensureWorker rt st (worker r)) as [|[[info st1] out1]] eqn:He; [done |].
  intros Hd Hrid Hinv.
  pose proof (ensureWorker_invariant _ _ _ _ _ _ He Hinv) as [Ha Hp Hw Ht].
  destruct (ensureWorker_inr _ _ _ _ _ _ He) as (_ & _ & _ & _ & _ & _ & _ & Ea & _).
  destruct (info_ready info); simpl in Hd; injection Hd as <- <-.
  - split; [| done]. constructor; simpl.
    + apply Ha.
    + intros rid' p'. destruct (decide (rid = rid')) as [<- | Hne].
      * rewrite mapGet_mapSet_eq. intros [= <-]. simpl.
        by rewrite lookup_insert_eq.
      * rewrite mapGet_mapSet_ne by done. intros Hg.
        destruct (Hp _ _ Hg) as [Hl ?]. split; [| done].
        pose proof (Ht _ _ Hl). rewrite lookup_insert_ne; [done | lia].
    + apply Hw.
    + intros t x. destruct (decide (nextTimerId st1 = t)) as [<- | Hne].
      * lia.
      * rewrite lookup_insert_ne by done. intros Hl.
        pose proof (Ht _ _ Hl). lia.
  - split; [| done]. by constructor.
Qed.

Lemma dispatchLegacyLiboqsRequest_invariant st rid r reqMsg st' out :
  dispatchLegacyLiboqsRequest rt st rid r reqMsg = inr (st', out) →
  rid ≠ "" → invariant st →
  invariant st' ∧
  ∀ w cur, activeLegacyByWorker st !! w = Some cur →
           is_Some (activeLegacyByWorker st' !! w).
Proof.
  unfold dispatchLegacyLiboqsRequest.
  destruct (ensureWorker rt st (worker r)) as [|[[info st1] out1]] eqn:He; [done |].
  intros Hd Hrid Hinv.
  pose proof (ensureWorker_invariant _ _ _ _ _ _ He Hinv) as Hinv1.
  destruct (ensureWorker_inr _ _ _ _ _ _ He) as (Hw1 & _ & _ & _ & _ & _ & _ & Ea & _).
  assert (invariant st1 ∧
          ∀ w cur, activeLegacyByWorker st !! w = Some cur →
                   is_Some (activeLegacyByWorker st1 !! w)) as Hsame.
  { split; [done |]. rewrite Ea. by eauto. }
  assert (let st2 := with_activeLegacyByWorker st1
                       (<[worker r := rid]> (activeLegacyByWorker st1)) in
          invariant st2 ∧
          ∀ w cur, activeLegacyByWorker st !! w = Some cur →
                   is_Some (activeLegacyByWorker st2 !! w)) as Hbound.
  { destruct Hinv1 as [Ha Hp Hw Ht]. split.
    - constructor; simpl; try done.
      intros w cur. destruct (decide (worker r = w)) as [<- | Hne].
      + rewrite lookup_insert_eq. intros [= <-]. split; [done | by eexists].
      + rewrite lookup_insert_ne by done. apply Ha.
    - simpl. intros w cur Hc. destruct (decide (worker r = w)) as [<- | Hne].
      + rewrite lookup_insert_eq. by eexists.
      + rewrite lookup_insert_ne by done. rewrite Ea. by eexists. }
  destruct (activeLegacyByWorker st1 !! worker r) as [current|];
    [destruct (truthy (VStr current)) |];
    try destruct (negb (is_str (prop reqMsg "path") LEGACY_RUN_PATH));
    injection Hd as <- <-; done.
Qed.
End Preservation.

Lemma slotsKept_same st st' :
  activeLegacyByWorker st' = activeLegacyByWorker st → slotsKept st st'.
Proof. intros E w cur H. rewrite E. by eexists. Qed.

Section StepPreservation.
Context (rt : runtime).

Lemma handleHxRequest_invariant st msg :
  invariant st →
  invariant (fst (handleHxRequest rt st msg)) ∧
  slotsKept st (fst (handleHxRequest rt st msg)).
Proof.
  intros Hinv. unfold handleHxRequest.
  destruct (nonEmptyString (prop msg "id")) as [rid|] eqn:Hid;
    [| by split; [| apply slotsKept_same]].
  apply nonEmptyString_Some in Hid as [_ Hrid].
  destruct (nonEmptyString (prop msg "path")) as [path|];
    [| by split; [| apply slotsKept_same]].
  destruct (matchRoute st path) as [r|];
    [| by split; [| apply slotsKept_same]].
  destruct (workerDefs st !! worker r) as [def|];
    [| by split; [| apply slotsKept_same]].
  destruct (String.eqb (mode def) "legacy-liboqs").
  - destruct (dispatchLegacyLiboqsRequest _ _ _ _ _) as [err|[st' out]] eqn:Hd;
      [by split; [| apply slotsKept_same] |].
    by eapply dispatchLegacyLiboqsRequest_invariant.
  - destruct (dispatchProtocolRequest _ _ _ _ _) as [err|[st' out]] eqn:Hd;
      [by split; [| apply slotsKept_same] |].
    destruct (dispatchProtocolRequest_invariant _ _ _ _ _ _ _ Hd Hrid Hinv).
    split; [done | by apply slotsKept_same].
Qed.

Lemma onmessage_invariant st data :
  invariant st →
  invariant (fst (onmessage rt st data)) ∧
  slotsKept st (fst (onmessage rt st data)).
Proof.
  intros Hinv. unfold onmessage.
  destruct (jsor data (VObj ∅)) as [| | | | | |msg];
    try by split; [| apply slotsKept_same].
  destruct (is_str (prop msg "kind") "control.init").
  { simpl. destruct (applyInit_frame st msg) as (Ew & Ep & Ea & Et & En).
    split; [by eapply invariant_ext | by apply slotsKept_same]. }
  destruct (is_str (prop msg "kind") "control.ping");
    [by split; [| apply slotsKept_same] |].
  destruct (is_str (prop msg "kind") "hx.request");
    [by apply handleHxRequest_invariant |].
  destruct (toString rt (prop msg "kind")); by split; [| apply slotsKept_same].
Qed.

Lemma handleProtocolWorkerMessage_invariant st info msg :
  invariant st →
  invariant (fst (handleProtocolWorkerMessage st info msg)) ∧
  activeLegacyByWorker (fst (handleProtocolWorkerMessage st info msg))
  = activeLegacyByWorker st.
Proof.
  intros Hinv. unfold handleProtocolWorkerMessage.
  destruct msg as [| | | | | |m]; try done.
  destruct (is_str (prop m "kind") "worker.ready").
  { simpl. split; [| done]. destruct Hinv as [Ha Hp Hw Ht].
    constructor; simpl; try done.
    - intros w cur Hc. destruct (Ha _ _ Hc) as [? [i Hi]]. split; [done |].
      destruct (decide (info_name info = w)) as [<- | Hne].
      + rewrite lookup_insert_eq. by eexists.
      + rewrite lookup_insert_ne by done. by eexists.
    - intros w i. destruct (decide (info_name info = w)) as [<- | Hne].
      + rewrite lookup_insert_eq. by intros [= <-].
      + rewrite lookup_insert_ne by done. apply Hw. }
  destruct (is_str (prop m "kind") "worker.event"); [done |].
  destruct (is_str (prop m "kind") "worker.response"); [| done].
  destruct (negb (truthy (prop m "id")) || negb (pendingHas st (prop m "id")));
    [done |].
  destruct (prop m "id") as [| | | |rid| |]; try done. simpl.
  split; [by apply clearPending_invariant | apply clearPending_frame].
Qed.

Lemma handleLegacyLiboqsMessage_invariant st info msg :
  invariant st →
  invariant (fst (handleLegacyLiboqsMessage st info msg)).
Proof.
  intros Hinv. unfold handleLegacyLiboqsMessage.
  destruct msg as [| | | | | |m]; try done.
  destruct (is_str (prop m "type") "log-batch"); [done |].
  destruct (is_str (prop m "type") "status"); [| done]. simpl.
  destruct (is_str (prop m "state") "done" || is_str (prop m "state") "error");
    [| done].
  destruct Hinv as [Ha Hp Hw Ht]. constructor; simpl; try done.
  intros w cur [_ Hc]%lookup_delete_Some. by apply Ha in Hc.
Qed.

(** A legacy slot that the legacy handler frees is the slot of the
    session that reported, and the report is a terminal status. *)
Lemma handleLegacyLiboqsMessage_frees st info msg w cur :
  activeLegacyByWorker st !! w = Some cur →
  activeLegacyByWorker (fst (handleLegacyLiboqsMessage st info msg)) !! w = None →
  info_name info = w ∧
  ∃ m, msg = VObj m ∧ prop m "type" = VStr "status" ∧
       (prop m "state" = VStr "done" ∨ prop m "state" = VStr "error").
Proof.
  intros Hc. unfold handleLegacyLiboqsMessage.
  destruct msg as [| | | | | |m]; simpl; try congruence.
  destruct (is_str (prop m "type") "log-batch"); simpl; [congruence |].
  destruct (is_str (prop m "type") "status") eqn:Hty; simpl; [| congruence].
  apply is_str_true in Hty.
  destruct (is_str (prop m "state") "done") eqn:Hd;
    [| destruct (is_str (prop m "state") "error") eqn:He];
    simpl; try congruence.
  - apply is_str_true in Hd. intros Hdel.
    apply lookup_delete_None in Hdel as [-> | ?]; [| congruence]. eauto 6.
  - apply is_str_true in He. intros Hdel.
    apply lookup_delete_None in Hdel as [-> | ?]; [| congruence]. eauto 6.
Qed.

Lemma workerOnerror_invariant st name message :
  invariant st →
  invariant (fst (workerOnerror rt st name message)) ∧
  activeLegacyByWorker (fst (workerOnerror rt st name message))
  = activeLegacyByWorker st.
Proof.
  intros Hinv. unfold workerOnerror.
  destruct (toString rt (jsor message (VStr "worker error"))) as [text|];
    [| done].
  simpl.
  apply (failPendingForWorker_ind
           (fun s => invariant s ∧
                     activeLegacyByWorker s = activeLegacyByWorker st));
    [| done].
  intros s rid [Hs Es]. split; [by apply clearPending_invariant |].
  destruct (clearPending_frame s rid) as [-> _]. done.
Qed.

Lemma timeout_invariant st id rid :
  timers st !! id = Some rid →
  invariant st →
  invariant (fst (timeoutCallback rt
                    (with_timers st (delete id (timers st)) (nextTimerId st))
                    rid)).
Proof.
  intros Hid [Ha Hp Hw Ht]. unfold timeoutCallback. simpl.
  set (st0 := with_timers st (delete id (timers st)) (nextTimerId st)).
  destruct (clearPending_frame st0 rid) as (Ea & Ew & _ & _ & _ & En).
  constructor.
  - rewrite Ea, Ew. apply Ha.
  - rewrite clearPending_pending, clearPending_timers. simpl.
    intros rid' p' [Hne Hg]%mapGet_mapDelete_Some.
    destruct (Hp _ _ Hg) as [Ht' Hne']. split; [| done].
    assert (delete id (timers st) !! timeoutId p' = Some rid') as Hl.
    { rewrite lookup_delete_ne; [done |]. congruence. }
    destruct (mapGet rid (pending st)) as [p|] eqn:E; [| done].
    destruct (Hp _ _ E) as [Htp _].
    rewrite lookup_delete_ne; [done |]. congruence.
  - rewrite Ew. apply Hw.
  - rewrite clearPending_timers, En. simpl. intros t r Hl. apply (Ht t r).
    destruct (mapGet rid (pending st)).
    + by apply lookup_delete_Some in Hl as [_ [_ ?]%lookup_delete_Some].
    + by apply lookup_delete_Some in Hl as [_ ?].
Qed.

Lemma step_invariant st ev st' out :
  step rt st ev = Some (st', out) → invariant st → invariant st'.
Proof.
  destruct ev as [data | name data | name message | id]; unfold step.
  - intros [= Hs] Hinv.
    destruct (onmessage_invariant st data Hinv) as [H _].
    by rewrite Hs in H.
  - destruct (workers st !! name) as [info|]; [| done].
    intros [= Hs] Hinv. unfold workerOnmessage, handleWorkerMessage in Hs.
    destruct (String.eqb (info_mode info) "legacy-liboqs").
    + pose proof (handleLegacyLiboqsMessage_invariant st info
                    (jsor data (VObj ∅)) Hinv) as H.
      by rewrite Hs in H.
    + destruct (handleProtocolWorkerMessage_invariant st info
                  (jsor data (VObj ∅)) Hinv) as [H _].
      by rewrite Hs in H.
  - destruct (workers st !! name); [| done].
    intros [= Hs] Hinv.
    pose proof (proj1 (workerOnerror_invariant st name message Hinv)) as H.
    by rewrite Hs in H.
  - destruct (timers st !! id) as [rid|] eqn:Hid; [| done].
    intros [= <- _] Hinv.
    exact (timeout_invariant st id rid Hid Hinv).
Qed.

Lemma initialState_invariant : invariant initialState.
Proof. by constructor. Qed.

Lemma reachable_invariant st : reachable rt st → invariant st.
Proof.
  induction 1 as [| st ev st' out _ IH Hs];
    [apply initialState_invariant | by eapply step_invariant].
Qed.

Lemma reachable_runFrom st evs :
  reachable rt st → reachable rt (runFrom rt st evs).
Proof.
  revert st. induction evs as [|ev evs IH]; intros st Hst; simpl; [done |].
  destruct (step rt st ev) as [[st' out]|] eqn:Hs; [| by apply IH].
  apply IH. by eapply reachable_step.
Qed.
End StepPreservation.

Lemma reachable_exReadyState : reachable sampleRuntime exReadyState.
Proof. apply reachable_runFrom, reachable_init. Qed.

Lemma reachable_exWarmState : reachable sampleRuntime exWarmState.
Proof. apply reachable_runFrom, reachable_exReadyState. Qed.

Lemma reachable_exPendingState : reachable sampleRuntime exPendingState.
Proof. apply reachable_runFrom, reachable_exWarmState. Qed.

Lemma reachable_exBusyState : reachable sampleRuntime exBusyState.
Proof. apply reachable_runFrom, reachable_exReadyState. Qed.

(** The witness of C1: among the two bindings of [/hx/tests/liboqs], the
    one declared first is returned. *)
Lemma matchRoute_longest_prefix_witness :
  prop exInit "routes"
  = VArr [VObj (obj [("prefix", VStr "/hx/agent"); ("worker", VStr "agent")]);
          VObj (obj [("prefix", VStr "/hx/tests/liboqs"); ("worker", VStr "liboqs")]);
          VObj (obj [("prefix", VStr "/hx/tests/liboqs"); ("worker", VStr "agent")]);
          VObj (obj [("prefix", VNum (JFin 7)); ("worker", VStr "agent")])]
  ∧ isLongestPrefixMatch
      (cleanRoutes
         [VObj (obj [("prefix", VStr "/hx/agent"); ("worker", VStr "agent")]);
          VObj (obj [("prefix", VStr "/hx/tests/liboqs"); ("worker", VStr "liboqs")]);
          VObj (obj [("prefix", VStr "/hx/tests/liboqs"); ("worker", VStr "agent")]);
          VObj (obj [("prefix", VNum (JFin 7)); ("worker", VStr "agent")])])
      "/hx/tests/liboqs/run"
      (matchRoute (applyInit initialState exInit) "/hx/tests/liboqs/run").
Proof.
  split; [reflexivity |].
  apply (matchRoute_longest_prefix initialState exInit). reflexivity.
Defined.

Example matchRoute_example :
  matchRoute (applyInit initialState exInit) "/hx/tests/liboqs/run"
  = Some {| prefix := "/hx/tests/liboqs"; worker := "liboqs" |}.
Proof. reflexivity. Qed.

(** ** Request validation and routing misses *)

(** Closes a goal whose two sides are the same message, one written with the
    constructors and the text, the other with the helpers of the router. *)
Ltac by_literal :=
  unfold sendHxResponse, sendProtocolError, sendEvent, div, htmlHeaders, dq;
  rewrite ?string_app_assoc; reflexivity.

Lemma find_None {A} (f : A → bool) l :
  (∀ x, x ∈ l → f x = false) → List.find f l = None.
Proof.
  induction l as [|a l IH]; simpl; [done |]. intros H.
  rewrite (H a) by (apply elem_of_cons; by left).
  apply IH. intros x Hx. apply H. apply elem_of_cons. by right.
Qed.

(** C7.  An [hx.request] with a non-empty string id and a non-empty string
    path that no configured prefix matches is answered by one response with
    status 404 for that id; its body quotes the path with each of the
    characters ampersand, less-than, greater-than, double quote and
    apostrophe replaced by its entity.  The state does not change. *)
Theorem unmatched_path_yields_404 rt st msg rid path :
  prop msg "kind" = VStr "hx.request" →
  prop msg "id" = VStr rid → rid ≠ "" →
  prop msg "path" = VStr path → path ≠ "" →
  (∀ r, r ∈ routes st → startsWith path (prefix r) = false) →
  step rt st (EvMessage (VObj msg))
  = Some (st, [Send (MHxResponse rid 404
                       (VObj {[ "Content-Type" := VStr "text/html; charset=utf-8" ]})
                       ("<div class=" +:+ String "034"%char "fail"
                        +:+ String "034"%char ">No worker route for path '"
                        +:+ escapeEach path +:+ "'.</div>"))]).
Proof.
  intros Hk Hid Hrid Hpath Hne Hno.
  unfold step, onmessage. simpl. rewrite Hk. simpl.
  unfold handleHxRequest.
  rewrite (proj2 (nonEmptyString_Some _ rid)) by done.
  rewrite (proj2 (nonEmptyString_Some _ path)) by done.
  unfold matchRoute. rewrite find_None by done.
  rewrite escapeHtml_escapeEach. by_literal.
Qed.

Lemma unmatched_path_yields_404_witness :
  step sampleRuntime exReadyState
    (EvMessage (VObj (exRequest "r3" "/nope?a=<b>&c='d'")))
  = Some (exReadyState,
          [Send (MHxResponse "r3" 404
                   (VObj {[ "Content-Type" := VStr "text/html; charset=utf-8" ]})
                   ("<div class=" +:+ String "034"%char "fail"
                    +:+ String "034"%char
                          ">No worker route for path '/nope?a=&lt;b&gt;&amp;c=&#39;d&#39;'.</div>"))]).
Proof.
  apply (unmatched_path_yields_404 sampleRuntime exReadyState
           (exRequest "r3" "/nope?a=<b>&c='d'") "r3" "/nope?a=<b>&c='d'");
    try reflexivity; try discriminate.
  apply Forall_forall. vm_compute.
  repeat (constructor; [reflexivity |]). constructor.
Defined.

(** C8.  An [hx.request] whose id is not a non-empty string produces one
    protocol-error envelope ([INVALID_REQUEST], id [null]) and no
    [hx.response]; an [hx.request] with a non-empty string id whose path is
    not a non-empty string is answered by one response with status 400 for
    that id.  In both cases the state does not change. *)
Theorem invalid_request_rejected rt st msg :
  prop msg "kind" = VStr "hx.request" →
  ((∀ s, prop msg "id" = VStr s → s = "") →
   step rt st (EvMessage (VObj msg))
   = Some (st, [Send (MError VNull "INVALID_REQUEST"
                        "hx.request requires non-empty string id")])) ∧
  (∀ rid, prop msg "id" = VStr rid → rid ≠ "" →
          (∀ s, prop msg "path" = VStr s → s = "") →
          step rt st (EvMessage (VObj msg))
          = Some (st, [Send (MHxResponse rid 400
                               (VObj {[ "Content-Type" := VStr "text/html; charset=utf-8" ]})
                               ("<div class=" +:+ String "034"%char "fail"
                                +:+ String "034"%char
                                      ">Missing request path.</div>"))])).
Proof.
  intros Hk. split.
  - intros Hid. unfold step, onmessage. simpl. rewrite Hk. simpl.
    unfold handleHxRequest.
    by rewrite (proj2 (nonEmptyString_None _)).
  - intros rid Hid Hrid Hpath. unfold step, onmessage. simpl. rewrite Hk. simpl.
    unfold handleHxRequest.
    rewrite (proj2 (nonEmptyString_Some _ rid)) by done.
    by rewrite (proj2 (nonEmptyString_None _)).
Qed.

Lemma invalid_request_rejected_witness :
  step sampleRuntime exReadyState
    (EvMessage (VObj (obj [("kind", VStr "hx.request"); ("id", VNum (JFin 7));
                           ("path", VStr "/hx/agent/ping")])))
  = Some (exReadyState,
          [Send (MError VNull "INVALID_REQUEST"
                   "hx.request requires non-empty string id")])
  ∧ step sampleRuntime exReadyState
      (EvMessage (VObj (obj [("kind", VStr "hx.request"); ("id", VStr "r9");
                             ("path", VStr "")])))
    = Some (exReadyState,
            [Send (MHxResponse "r9" 400
                     (VObj {[ "Content-Type" := VStr "text/html; charset=utf-8" ]})
                     ("<div class=" +:+ String "034"%char "fail"
                      +:+ String "034"%char ">Missing request path.</div>"))]).
Proof.
  split.
  - apply (proj1 (invalid_request_rejected sampleRuntime exReadyState
                    (obj [("kind", VStr "hx.request"); ("id", VNum (JFin 7));
                          ("path", VStr "/hx/agent/ping")]) eq_refl)).
    intros s Hs. vm_compute in Hs. discriminate Hs.
  - apply (proj2 (invalid_request_rejected sampleRuntime exReadyState
                    (obj [("kind", VStr "hx.request"); ("id", VStr "r9");
                          ("path", VStr "")]) eq_refl) "r9").
    + reflexivity.
    + discriminate.
    + intros s Hs. vm_compute in Hs. by injection Hs as <-.
Defined.

(** ** The native adapter *)

(** C5.  When the session that [ensureWorker] returns for the route's worker
    is not ready, [dispatchProtocolRequest] answers with one response of
    status 503 for the request id, the only message to the page, and the
    pending table (and the timer table) is what it was: no entry is
    created. *)
Theorem dispatchProtocolRequest_not_ready rt st rid r reqMsg info st1 out1 :
  ensureWorker rt st (worker r) = inr (info, st1, out1) →
  info_ready info = false →
  ∃ out,
    dispatchProtocolRequest rt st rid r reqMsg = inr (st1, out) ∧
    out = out1 ++ [sendHxResponse rid 503
                     (div "info"
                        ("Worker '" +:+ escapeHtml (worker r)
                         +:+ "' is still warming up."))
                     htmlHeaders] ∧
    responses out = [(rid, 503%Q)] ∧
    pending st1 = pending st ∧
    timers st1 = timers st.
Proof.
  intros He Hready.
  destruct (ensureWorker_inr _ _ _ _ _ _ He)
    as (_ & _ & _ & _ & Ep & Et & _ & _ & Hout).
  eexists. split; [| split; [reflexivity |]].
  - unfold dispatchProtocolRequest. by rewrite He, Hready.
  - split; [| done]. unfold responses in *. by rewrite omap_app, Hout.
Qed.

Lemma dispatchProtocolRequest_not_ready_witness :
  ∃ out,
    dispatchProtocolRequest sampleRuntime exReadyState "r0"
      {| prefix := "/hx/agent"; worker := "agent" |}
      (exRequest "r0" "/hx/agent/ping")
    = inr (with_workers exReadyState
             (<["agent" := {| info_name := "agent"; info_mode := "protocol";
                              info_ready := false |}]> (workers exReadyState)),
           out) ∧
    out = [NewWorker "/workers/agent.js" "classic" "router:agent";
           PostToWorker "agent" (WInit "agent" (VObj ∅))]
          ++ [sendHxResponse "r0" 503
                (div "info" "Worker 'agent' is still warming up.")
                htmlHeaders] ∧
    responses out = [("r0", 503%Q)] ∧
    pending (with_workers exReadyState
               (<["agent" := {| info_name := "agent"; info_mode := "protocol";
                                info_ready := false |}]> (workers exReadyState)))
    = pending exReadyState ∧
    timers (with_workers exReadyState
              (<["agent" := {| info_name := "agent"; info_mode := "protocol";
                               info_ready := false |}]> (workers exReadyState)))
    = timers exReadyState.
Proof.
  apply (dispatchProtocolRequest_not_ready sampleRuntime exReadyState "r0"
           {| prefix := "/hx/agent"; worker := "agent" |}
           (exRequest "r0" "/hx/agent/ping")
           {| info_name := "agent"; info_mode := "protocol";
              info_ready := false |}).
  - reflexivity.
  - reflexivity.
Defined.

(** C6.  A [worker.response] from a native-mode session whose id has a
    pending entry removes that entry, cancels the entry's timer, and sends
    exactly one [hx.response] for that id.  Its status is the status of the
    worker's response when that is a finite number and 500 otherwise; its
    body and headers are those of the worker's response when they are a
    string and an object, and the empty string and the empty object
    otherwise. *)
Theorem worker_response_resolves_pending rt st name info m rid p :
  reachable rt st →
  workers st !! name = Some info →
  info_mode info ≠ "legacy-liboqs" →
  prop m "kind" = VStr "worker.response" →
  prop m "id" = VStr rid →
  mapGet rid (pending st) = Some p →
  ∃ st' status body headers,
    step rt st (EvWorkerMessage name (VObj m))
    = Some (st', [Send (MHxResponse rid status headers body)]) ∧
    mapGet rid (pending st') = None ∧
    timers st' !! timeoutId p = None ∧
    (∀ resp q, prop m "response" = VObj resp →
               prop resp "status" = VNum (JFin q) → status = q) ∧
    ((∀ resp q, prop m "response" = VObj resp →
                prop resp "status" ≠ VNum (JFin q)) → status = 500%Q) ∧
    (∀ resp b, prop m "response" = VObj resp →
               prop resp "body" = VStr b → body = b) ∧
    ((∀ resp b, prop m "response" = VObj resp →
                prop resp "body" ≠ VStr b) → body = "") ∧
    (∀ resp h, prop m "response" = VObj resp →
               prop resp "headers" = VObj h → headers = VObj h) ∧
    ((∀ resp h, prop m "response" = VObj resp →
                prop resp "headers" ≠ VObj h) → headers = VObj ∅).
Proof.
  intros Hreach Hw Hmode Hk Hid Hp.
  destruct (reachable_invariant _ _ Hreach) as [_ Hpend _ _].
  destruct (Hpend _ _ Hp) as [_ Hrid].
  unfold step. rewrite Hw. unfold workerOnmessage, handleWorkerMessage. simpl.
  apply String.eqb_neq in Hmode as ->.
  unfold handleProtocolWorkerMessage. rewrite Hk, Hid. simpl.
  apply String.eqb_neq in Hrid as Hrid'. rewrite Hrid'.
  unfold mapHas. rewrite Hp. simpl.
  do 4 eexists. split; [reflexivity |].
  split; [apply clearPending_gone |].
  split; [rewrite clearPending_timers, Hp; apply lookup_delete_eq |].
  repeat split.
  - intros resp q -> Hs. by rewrite Hs.
  - intros Hno. destruct (prop m "response") as [| | | | | |resp]; try done.
    destruct (prop resp "status") as [| | |[| |q]| | |] eqn:Hs; try done.
    by destruct (Hno resp q).
  - intros resp b -> Hb. by rewrite Hb.
  - intros Hno. destruct (prop m "response") as [| | | | | |resp]; try done.
    destruct (prop resp "body") as [| | | |b| |] eqn:Hb; try done.
    by destruct (Hno resp b).
  - intros resp h -> Hh. by rewrite Hh.
  - intros Hno. destruct (prop m "response") as [| | | | | |resp]; try done.
    destruct (prop resp "headers") as [| | | | | |h] eqn:Hh; try done.
    by destruct (Hno resp h).
Qed.

Lemma worker_response_resolves_pending_witness :
  ∃ st' status body headers,
    step sampleRuntime exPendingState
      (EvWorkerMessage "agent"
         (VObj (exResponse "r1"
                  (VObj (obj [("status", VNum (JFin 200));
                              ("body", VStr "<p>signed</p>");
                              ("headers", VObj (obj [("HX-Trigger", VStr "signed")]))])))))
    = Some (st', [Send (MHxResponse "r1" status headers body)]) ∧
    mapGet "r1" (pending st') = None ∧
    timers st' !! 1 = None ∧
    status = 200%Q ∧ body = "<p>signed</p>" ∧
    headers = VObj (obj [("HX-Trigger", VStr "signed")]).
Proof.
  destruct (worker_response_resolves_pending sampleRuntime exPendingState
              "agent"
              {| info_name := "agent"; info_mode := "protocol";
                 info_ready := true |}
              (exResponse "r1"
                 (VObj (obj [("status", VNum (JFin 200));
                             ("body", VStr "<p>signed</p>");
                             ("headers", VObj (obj [("HX-Trigger", VStr "signed")]))])))
              "r1" {| workerName := "agent"; timeoutId := 1 |}
              reachable_exPendingState)
    as (st' & status & body & headers & Hstep & Hgone & Htimer
        & Hstatus & _ & Hbody & _ & Hheaders & _).
  - reflexivity.
  - discriminate.
  - reflexivity.
  - reflexivity.
  - reflexivity.
  - exists st', status, body, headers.
    split; [exact Hstep |]. split; [exact Hgone |]. split; [exact Htimer |].
    split; [by eapply Hstatus | split; [by eapply Hbody | by eapply Hheaders]].
Defined.

(** C2.  When the timer of a pending entry fires, the entry is removed and
    exactly one response, of status 504 and for that request id, is sent.  A
    [worker.response] with that id that a native-mode session delivers
    afterwards finds no entry: one [ORPHAN_RESPONSE] protocol error carrying
    the id is sent, no [hx.response], and the state does not change. *)
Theorem timeout_then_orphan rt st rid p :
  reachable rt st →
  mapGet rid (pending st) = Some p →
  ∃ st',
    step rt st (EvTimeout (timeoutId p))
    = Some (st', [Send (MHxResponse rid 504
                          (VObj {[ "Content-Type" := VStr "text/html; charset=utf-8" ]})
                          ("<div class=" +:+ String "034"%char "fail"
                           +:+ String "034"%char
                                 ">Request timed out in router after "
                           +:+ numberToString rt
                                 (JFin (inject_Z (requestTimeoutMs st)))
                           +:+ "ms.</div>"))]) ∧
    mapGet rid (pending st') = None ∧
    ∀ name info m,
      workers st' !! name = Some info →
      info_mode info ≠ "legacy-liboqs" →
      prop m "kind" = VStr "worker.response" →
      prop m "id" = VStr rid →
      step rt st' (EvWorkerMessage name (VObj m))
      = Some (st', [Send (MError (VStr rid) "ORPHAN_RESPONSE"
                            "Received worker.response for unknown request id")]).
Proof.
  intros Hreach Hp.
  destruct (reachable_invariant _ _ Hreach) as [_ Hpend _ _].
  destruct (Hpend _ _ Hp) as [Ht Hrid].
  eexists. split; [| split].
  - unfold step. rewrite Ht. unfold timeoutCallback.
    cbn [requestTimeoutMs with_timers]. by_literal.
  - apply clearPending_gone.
  - intros name info m Hw Hmode Hk Hid.
    unfold step. rewrite Hw. unfold workerOnmessage, handleWorkerMessage. simpl.
    apply String.eqb_neq in Hmode as ->.
    unfold handleProtocolWorkerMessage. rewrite Hk, Hid. simpl.
    apply String.eqb_neq in Hrid as Hrid'. rewrite Hrid'. simpl.
    unfold mapHas. rewrite clearPending_gone. simpl.
    unfold jsor. simpl. by rewrite Hrid'.
Qed.

Lemma timeout_then_orphan_witness :
  ∃ st',
    step sampleRuntime exPendingState (EvTimeout 1)
    = Some (st', [Send (MHxResponse "r1" 504
                          (VObj {[ "Content-Type" := VStr "text/html; charset=utf-8" ]})
                          ("<div class=" +:+ String "034"%char "fail"
                           +:+ String "034"%char
                                 ">Request timed out in router after 30000ms.</div>"))]) ∧
    mapGet "r1" (pending st') = None ∧
    step sampleRuntime st'
      (EvWorkerMessage "agent" (VObj (exResponse "r1" VUndef)))
    = Some (st', [Send (MError (VStr "r1") "ORPHAN_RESPONSE"
                          "Received worker.response for unknown request id")]).
Proof.
  destruct (timeout_then_orphan sampleRuntime exPendingState "r1"
              {| workerName := "agent"; timeoutId := 1 |}
              reachable_exPendingState eq_refl)
    as (st' & Hstep & Hgone & Hlate).
  exists st'. split; [exact Hstep |]. split; [exact Hgone |].
  apply (Hlate "agent" {| info_name := "agent"; info_mode := "protocol";
                          info_ready := true |}).
  - vm_compute in Hstep. injection Hstep as <-. reflexivity.
  - discriminate.
  - reflexivity.
  - reflexivity.
Defined.

(** C9.  A request dispatched to a ready native-mode session under an id
    that already has a pending entry is not rejected: nothing is sent to the
    page, the request is forwarded, and the entry is overwritten with the new
    worker name and a new timer.  The timer of the previous entry stays
    live; when it fires it removes the new entry, cancels the new timer and
    sends a response of status 504 for the id. *)
Theorem duplicate_id_overwrites_pending rt st rid r reqMsg info old :
  reachable rt st →
  workers st !! worker r = Some info →
  info_ready info = true →
  mapGet rid (pending st) = Some old →
  ∃ st' st'' req,
    dispatchProtocolRequest rt st rid r reqMsg
    = inr (st', [PostToWorker (info_name info) req]) ∧
    mapGet rid (pending st')
    = Some {| workerName := worker r; timeoutId := nextTimerId st |} ∧
    timeoutId old ≠ nextTimerId st ∧
    timers st' !! timeoutId old = Some rid ∧
    timers st' !! nextTimerId st = Some rid ∧
    step rt st' (EvTimeout (timeoutId old))
    = Some (st'', [Send (MHxResponse rid 504
                           (VObj {[ "Content-Type" := VStr "text/html; charset=utf-8" ]})
                           ("<div class=" +:+ String "034"%char "fail"
                            +:+ String "034"%char
                                  ">Request timed out in router after "
                            +:+ numberToString rt
                                  (JFin (inject_Z (requestTimeoutMs st)))
                            +:+ "ms.</div>"))]) ∧
    mapGet rid (pending st'') = None ∧
    timers st'' !! nextTimerId st = None.
Proof.
  intros Hreach Hw Hready Hold.
  destruct (reachable_invariant _ _ Hreach) as [_ Hpend _ Htim].
  destruct (Hpend _ _ Hold) as [Ht Hrid].
  pose proof (Htim _ _ Ht) as Hlt.
  assert (timeoutId old ≠ nextTimerId st) as Hne by lia.
  unfold dispatchProtocolRequest.
  rewrite (ensureWorker_existing _ _ _ _ Hw), Hready. simpl.
  set (st' := with_pending _ _).
  assert (timers st' !! timeoutId old = Some rid) as Ht'.
  { subst st'. simpl. by rewrite lookup_insert_ne. }
  assert (mapGet rid (pending st')
          = Some {| workerName := worker r; timeoutId := nextTimerId st |}) as Hp'.
  { subst st'. simpl. apply mapGet_mapSet_eq. }
  eexists st', _, _. split; [reflexivity |].
  split; [exact Hp' |]. split; [exact Hne |]. split; [exact Ht' |].
  split; [subst st'; simpl; apply lookup_insert_eq |].
  split; [unfold step; rewrite Ht'; unfold timeoutCallback; by_literal |].
  split; [apply clearPending_gone |].
  rewrite clearPending_timers.
  change (pending (with_timers st' (delete (timeoutId old) (timers st'))
                     (nextTimerId st'))) with (pending st').
  rewrite Hp'. apply lookup_delete_eq.
Qed.

Lemma duplicate_id_overwrites_pending_witness :
  ∃ st' st'' req,
    dispatchProtocolRequest sampleRuntime exPendingState "r1"
      {| prefix := "/hx/agent"; worker := "agent" |}
      (exRequest "r1" "/hx/agent/verify")
    = inr (st', [PostToWorker "agent" req]) ∧
    mapGet "r1" (pending st')
    = Some {| workerName := "agent"; timeoutId := 2 |} ∧
    1 ≠ 2 ∧
    timers st' !! 1 = Some "r1" ∧
    timers st' !! 2 = Some "r1" ∧
    step sampleRuntime st' (EvTimeout 1)
    = Some (st'', [Send (MHxResponse "r1" 504
                           (VObj {[ "Content-Type" := VStr "text/html; charset=utf-8" ]})
                           ("<div class=" +:+ String "034"%char "fail"
                            +:+ String "034"%char
                                  ">Request timed out in router after 30000ms.</div>"))]) ∧
    mapGet "r1" (pending st'') = None ∧
    timers st'' !! 2 = None.
Proof.
  apply (duplicate_id_overwrites_pending sampleRuntime exPendingState "r1"
           {| prefix := "/hx/agent"; worker := "agent" |}
           (exRequest "r1" "/hx/agent/verify")
           {| info_name := "agent"; info_mode := "protocol";
              info_ready := true |}
           {| workerName := "agent"; timeoutId := 1 |}
           reachable_exPendingState).
  - reflexivity.
  - reflexivity.
  - reflexivity.
Defined.

(** ** The legacy adapter *)

(** With the slot of the route's worker bound, the legacy adapter answers
    409 and changes nothing, whatever the request is. *)
Lemma dispatchLegacyLiboqsRequest_busy rt st rid r reqMsg cur :
  invariant st →
  activeLegacyByWorker st !! worker r = Some cur →
  dispatchLegacyLiboqsRequest rt st rid r reqMsg
  = inr (st, [sendHxResponse rid 409
                (div "info"
                   ("liboqs worker is busy with request '"
                    +:+ escapeHtml cur +:+ "'."))
                htmlHeaders]).
Proof.
  intros [Ha _ _ _] Hc. destruct (Ha _ _ Hc) as [Hne [info Hw]].
  unfold dispatchLegacyLiboqsRequest.
  rewrite (ensureWorker_existing _ _ _ _ Hw), Hc. simpl.
  by apply String.eqb_neq in Hne as ->.
Qed.

(** C10.  In the legacy adapter the busy check comes before the path check:
    with the slot of the route's worker bound the answer is 409 whatever the
    path of the request, and a request that the adapter answers with 404
    found the slot free. *)
Theorem legacy_busy_check_precedes_path_check rt st rid r reqMsg :
  reachable rt st →
  (∀ cur,
     activeLegacyByWorker st !! worker r = Some cur →
     dispatchLegacyLiboqsRequest rt st rid r reqMsg
     = inr (st, [Send (MHxResponse rid 409
                         (VObj {[ "Content-Type" := VStr "text/html; charset=utf-8" ]})
                         ("<div class=" +:+ String "034"%char "info"
                          +:+ String "034"%char
                                ">liboqs worker is busy with request '"
                          +:+ escapeEach cur +:+ "'.</div>"))])) ∧
  (∀ st' out,
     dispatchLegacyLiboqsRequest rt st rid r reqMsg = inr (st', out) →
     (rid, 404%Q) ∈ responses out →
     activeLegacyByWorker st !! worker r = None).
Proof.
  intros Hinv%reachable_invariant. split.
  - intros cur Hc. rewrite (dispatchLegacyLiboqsRequest_busy _ _ _ _ _ _ Hinv Hc).
    rewrite escapeHtml_escapeEach. by_literal.
  - intros st' out Hd Hin.
    destruct (activeLegacyByWorker st !! worker r) as [cur|] eqn:Hc; [| done].
    rewrite (dispatchLegacyLiboqsRequest_busy _ _ _ _ _ _ Hinv Hc) in Hd.
    injection Hd as <- <-. simpl in Hin.
    apply list_elem_of_singleton in Hin. discriminate Hin.
Qed.

Lemma legacy_busy_check_precedes_path_check_witness :
  dispatchLegacyLiboqsRequest sampleRuntime exBusyState "r5"
    {| prefix := "/hx/tests/liboqs"; worker := "liboqs" |}
    (exRequest "r5" "/hx/tests/liboqs/status")
  = inr (exBusyState,
         [Send (MHxResponse "r5" 409
                  (VObj {[ "Content-Type" := VStr "text/html; charset=utf-8" ]})
                  ("<div class=" +:+ String "034"%char "info"
                   +:+ String "034"%char
                         ">liboqs worker is busy with request 'r4'.</div>"))]).
Proof.
  apply (proj1 (legacy_busy_check_precedes_path_check sampleRuntime exBusyState
                  "r5" {| prefix := "/hx/tests/liboqs"; worker := "liboqs" |}
                  (exRequest "r5" "/hx/tests/liboqs/status")
                  reachable_exBusyState) "r4").
  reflexivity.
Defined.

Lemma handleHxRequest_legacy rt st msg rid path r def :
  prop msg "id" = VStr rid → rid ≠ "" →
  prop msg "path" = VStr path → path ≠ "" →
  matchRoute st path = Some r →
  workerDefs st !! worker r = Some def →
  mode def = "legacy-liboqs" →
  ∃ msg',
    prop msg' "path" = VStr path ∧
    handleHxRequest rt st msg =
    match dispatchLegacyLiboqsRequest rt st rid r msg' with
    | inr res => res
    | inl err =>
        (st, [sendHxResponse rid 500
                (div "fail" ("Router dispatch error: " +:+ escapeHtml err))
                htmlHeaders])
    end.
Proof.
  intros Hid Hrid Hpath Hne Hr Hdef Hmode.
  eexists. split; [| unfold handleHxRequest].
  2: { rewrite (proj2 (nonEmptyString_Some _ rid)) by done.
       rewrite (proj2 (nonEmptyString_Some _ path)) by done.
       rewrite Hr, Hdef, Hmode. simpl. reflexivity. }
  unfold prop. by rewrite lookup_insert_ne.
Qed.

(** C4, as stated, fails: the body of the 409 quotes the request id that
    holds the slot through [escapeHtml] (line 552 of the source), so an id
    with one of the five escaped characters is not in the body.  With the
    slot bound to [a<b] the body reads [a&lt;b]. *)
Lemma conflict_body_escapes_bound_id :
  activeLegacyByWorker exMarkupBusyState !! "liboqs" = Some "a<b"
  ∧ step sampleRuntime exMarkupBusyState
      (EvMessage (VObj (exRequest "r5" LEGACY_RUN_PATH)))
    = Some (exMarkupBusyState,
            [Send (MHxResponse "r5" 409
                     (VObj {[ "Content-Type" := VStr "text/html; charset=utf-8" ]})
                     ("<div class=" +:+ String "034"%char "info"
                      +:+ String "034"%char
                            ">liboqs worker is busy with request 'a&lt;b'.</div>"))])
  ∧ ¬ conflictQuotesBoundId sampleRuntime exMarkupBusyState
        (exRequest "r5" LEGACY_RUN_PATH) "a<b".
Proof.
  assert (step sampleRuntime exMarkupBusyState
            (EvMessage (VObj (exRequest "r5" LEGACY_RUN_PATH)))
          = Some (exMarkupBusyState,
                  [Send (MHxResponse "r5" 409
                           (VObj {[ "Content-Type" := VStr "text/html; charset=utf-8" ]})
                           ("<div class=" +:+ String "034"%char "info"
                            +:+ String "034"%char
                                  ">liboqs worker is busy with request 'a&lt;b'.</div>"))]))
    as Hs by (vm_compute; reflexivity).
  split; [vm_compute; reflexivity |]. split; [exact Hs |].
  intros (rid & headers & body & Hs' & Hc).
  assert (body = "<div class=" +:+ String "034"%char "info"
                 +:+ String "034"%char
                       ">liboqs worker is busy with request 'a&lt;b'.</div>")
    as -> by congruence.
  vm_compute in Hc. discriminate Hc.
Qed.

(** C4, amended.  In a reachable state:
    - a request routed to a legacy-mode worker whose slot is bound is
      answered by one response of status 409 whose body quotes the request
      id that holds the slot with the characters ampersand, less-than,
      greater-than, double quote and apostrophe replaced by their entities
      (so the id itself when it has none of them), and nothing changes, so
      the new request is not bound;
    - an event after which a bound slot is free is a message of that
      worker's legacy-mode session reporting the status [done] or [error];
    - such a report frees the slot, after which a request for the run
      endpoint routed to that worker is accepted: the slot is bound to its
      id, the worker is started and the answer has status 202. *)
Theorem legacy_slot_conflict_and_release rt st :
  reachable rt st →
  (∀ msg rid path r def cur,
     prop msg "kind" = VStr "hx.request" →
     prop msg "id" = VStr rid → rid ≠ "" →
     prop msg "path" = VStr path → path ≠ "" →
     matchRoute st path = Some r →
     workerDefs st !! worker r = Some def →
     mode def = "legacy-liboqs" →
     activeLegacyByWorker st !! worker r = Some cur →
     step rt st (EvMessage (VObj msg))
     = Some (st, [Send (MHxResponse rid 409
                          (VObj {[ "Content-Type" := VStr "text/html; charset=utf-8" ]})
                          ("<div class=" +:+ String "034"%char "info"
                           +:+ String "034"%char
                                 ">liboqs worker is busy with request '"
                           +:+ escapeEach cur +:+ "'.</div>"))]) ∧
     (plainString cur = true → escapeEach cur = cur)) ∧
  (∀ ev st' out w cur,
     step rt st ev = Some (st', out) →
     activeLegacyByWorker st !! w = Some cur →
     activeLegacyByWorker st' !! w = None →
     ∃ data info,
       ev = EvWorkerMessage w data ∧
       workers st !! w = Some info ∧
       info_mode info = "legacy-liboqs" ∧
       isTerminalStatus data) ∧
  (∀ w info data,
     workers st !! w = Some info →
     info_mode info = "legacy-liboqs" →
     isTerminalStatus data →
     ∃ st' out,
       step rt st (EvWorkerMessage w data) = Some (st', out) ∧
       activeLegacyByWorker st' !! w = None ∧
       ∀ msg rid r def,
         prop msg "kind" = VStr "hx.request" →
         prop msg "id" = VStr rid → rid ≠ "" →
         prop msg "path" = VStr LEGACY_RUN_PATH →
         matchRoute st LEGACY_RUN_PATH = Some r →
         worker r = w →
         workerDefs st !! w = Some def →
         mode def = "legacy-liboqs" →
         ∃ st'',
           step rt st' (EvMessage (VObj msg))
           = Some (st'', [PostToWorker w WRun;
                          Send (MHxResponse rid 202
                                  (VObj {[ "Content-Type" := VStr "text/html; charset=utf-8" ]})
                                  ("<div class=" +:+ String "034"%char "info"
                                   +:+ String "034"%char
                                         ">liboqs run started in warm worker '"
                                   +:+ escapeEach w +:+ "'.</div>"))]) ∧
           activeLegacyByWorker st'' !! w = Some rid).
Proof.
  intros Hreach. pose proof (reachable_invariant _ _ Hreach) as Hinv.
  split; [| split].
  - intros msg rid path r def cur Hk Hid Hrid Hpath Hne Hr Hdef Hmode Hc.
    unfold step, onmessage. simpl. rewrite Hk. simpl.
    destruct (handleHxRequest_legacy rt st msg rid path r def)
      as (msg' & _ & ->); try done.
    rewrite (dispatchLegacyLiboqsRequest_busy _ _ _ _ _ _ Hinv Hc).
    rewrite escapeHtml_escapeEach. split; [by_literal |].
    intros Hplain. rewrite <- escapeHtml_escapeEach. by apply escapeHtml_plain.
  - intros ev st' out w cur Hs Hc Hfree.
    destruct ev as [data | name data | name message | id]; unfold step in Hs.
    + injection Hs as Hs.
      destruct (onmessage_invariant rt st data Hinv) as [_ Hkept].
      rewrite Hs in Hkept. destruct (Hkept _ _ Hc) as [x Hx]. simpl in Hx.
      congruence.
    + destruct (workers st !! name) as [info|] eqn:Hw; [| done].
      injection Hs as Hs. unfold workerOnmessage, handleWorkerMessage in Hs.
      destruct (String.eqb_spec (info_mode info) "legacy-liboqs") as [Hm | Hm].
      * pose proof (handleLegacyLiboqsMessage_frees st info
                      (jsor data (VObj ∅)) w cur Hc) as Hf.
        rewrite Hs in Hf. destruct (Hf Hfree) as (Hn & m & Hdata & Hty & Hst).
        destruct Hinv as [_ _ Hnames _]. rewrite (Hnames _ _ Hw) in Hn. subst name.
        exists data, info. repeat split; try done. by exists m.
      * destruct (handleProtocolWorkerMessage_invariant st info
                    (jsor data (VObj ∅)) Hinv) as [_ E].
        rewrite Hs in E. simpl in E. congruence.
    + destruct (workers st !! name); [| done].
      injection Hs as Hs.
      destruct (workerOnerror_invariant rt st name message Hinv) as [_ E].
      rewrite Hs in E. simpl in E. congruence.
    + destruct (timers st !! id) as [rid|]; [| done].
      injection Hs as Hs _.
      destruct (clearPending_frame
                  (with_timers st (delete id (timers st)) (nextTimerId st)) rid)
        as [E _].
      rewrite Hs in E. simpl in E. congruence.
  - intros w info data Hw Hmode (m & Hdata & Hty & Hstate).
    destruct Hinv as [Ha Hp Hnames Ht]. pose proof (Hnames _ _ Hw) as Hn.
    assert (step rt st (EvWorkerMessage w data)
            = Some (with_activeLegacyByWorker st
                      (delete w (activeLegacyByWorker st)),
                    snd (handleLegacyLiboqsMessage st info (VObj m)))) as Hs.
    { unfold step. rewrite Hw. unfold workerOnmessage, handleWorkerMessage.
      rewrite Hmode, Hdata. simpl. rewrite Hty, Hn. simpl.
      by destruct Hstate as [-> | ->]. }
    eexists _, _. split; [exact Hs |]. simpl.
    split; [apply lookup_delete_eq |].
    intros msg rid r def Hk Hid Hrid Hpath Hr Hrw Hdef Hdm.
    set (st' := with_activeLegacyByWorker st _) in *.
    unfold step, onmessage. simpl. rewrite Hk. simpl.
    destruct (handleHxRequest_legacy rt st' msg rid LEGACY_RUN_PATH r def)
      as (msg' & Hpath' & ->); try done; [by rewrite Hrw |].
    unfold dispatchLegacyLiboqsRequest. rewrite Hrw.
    rewrite (ensureWorker_existing rt st' w info) by done.
    replace (activeLegacyByWorker st' !! w) with (@None string)
      by (subst st'; simpl; by rewrite lookup_delete_eq).
    rewrite Hpath'. simpl. rewrite Hn, escapeHtml_escapeEach.
    eexists. split; [by_literal |]. simpl. apply lookup_insert_eq.
Qed.

Lemma legacy_slot_conflict_and_release_witness :
  step sampleRuntime exBusyState
    (EvMessage (VObj (exRequest "r5" LEGACY_RUN_PATH)))
  = Some (exBusyState,
          [Send (MHxResponse "r5" 409
                   (VObj {[ "Content-Type" := VStr "text/html; charset=utf-8" ]})
                   ("<div class=" +:+ String "034"%char "info"
                    +:+ String "034"%char
                          ">liboqs worker is busy with request 'r4'.</div>"))])
  ∧ ∃ st' out st'',
      step sampleRuntime exBusyState
        (EvWorkerMessage "liboqs" (VObj (exStatus "done")))
      = Some (st', out) ∧
      (∃ data info,
         EvWorkerMessage "liboqs" (VObj (exStatus "done"))
         = EvWorkerMessage "liboqs" data ∧
         workers exBusyState !! "liboqs" = Some info ∧
         info_mode info = "legacy-liboqs" ∧
         isTerminalStatus data) ∧
      activeLegacyByWorker st' !! "liboqs" = None ∧
      step sampleRuntime st'
        (EvMessage (VObj (exRequest "r6" LEGACY_RUN_PATH)))
      = Some (st'', [PostToWorker "liboqs" WRun;
                     Send (MHxResponse "r6" 202
                             (VObj {[ "Content-Type" := VStr "text/html; charset=utf-8" ]})
                             ("<div class=" +:+ String "034"%char "info"
                              +:+ String "034"%char
                                    ">liboqs run started in warm worker 'liboqs'.</div>"))]) ∧
      activeLegacyByWorker st'' !! "liboqs" = Some "r6".
Proof.
  destruct (legacy_slot_conflict_and_release sampleRuntime exBusyState
              reachable_exBusyState) as (Hbusy & Honly & Hfree).
  split.
  - apply (Hbusy (exRequest "r5" LEGACY_RUN_PATH) "r5" LEGACY_RUN_PATH
             {| prefix := "/hx/tests/liboqs"; worker := "liboqs" |}
             {| url := "/workers/liboqs_worker.js"; mode := "legacy-liboqs";
                type := "classic"; config := VObj ∅ |}
             "r4"); try (vm_compute; reflexivity); discriminate.
  - destruct (Hfree "liboqs"
                {| info_name := "liboqs"; info_mode := "legacy-liboqs";
                   info_ready := true |}
                (VObj (exStatus "done")))
      as (st' & out & Hs & Hgone & Hnext).
    + vm_compute; reflexivity.
    + reflexivity.
    + exists (exStatus "done"). split; [reflexivity |].
      split; [vm_compute; reflexivity |]. left. vm_compute; reflexivity.
    + assert (activeLegacyByWorker exBusyState !! "liboqs" = Some "r4") as Hc
        by (vm_compute; reflexivity).
      pose proof (Honly _ _ _ "liboqs" "r4" Hs Hc Hgone) as Hwhy.
      destruct (Hnext (exRequest "r6" LEGACY_RUN_PATH) "r6"
                  {| prefix := "/hx/tests/liboqs"; worker := "liboqs" |}
                  {| url := "/workers/liboqs_worker.js"; mode := "legacy-liboqs";
                     type := "classic"; config := VObj ∅ |})
        as (st'' & Hs'' & Hbound).
      * vm_compute; reflexivity.
      * vm_compute; reflexivity.
      * discriminate.
      * vm_compute; reflexivity.
      * vm_compute; reflexivity.
      * reflexivity.
      * vm_compute; reflexivity.
      * reflexivity.
      * exists st', out, st''. repeat split; assumption.
Defined.

(** ** Re-initialization *)

Lemma setWorkerDefs_lookup ws defs name :
  setWorkerDefs ws defs !! name =
  match ws !! name ≫= parseWorkerDef with
  | Some d => Some d
  | None => defs !! name
  end.
Proof.
  unfold setWorkerDefs. revert name.
  apply (map_fold_weak_ind
           (fun (r : gmap string workerDef) (m : gmap string value) =>
              ∀ name, r !! name =
                      match m !! name ≫= parseWorkerDef with
                      | Some d => Some d
                      | None => defs !! name
                      end)).
  - intros name. by rewrite lookup_empty.
  - intros i x m r Hi IH name.
    destruct (decide (i = name)) as [<- | Hne].
    + rewrite lookup_insert_eq. simpl.
      destruct (parseWorkerDef x) as [d|].
      * by rewrite lookup_insert_eq.
      * rewrite IH, Hi. done.
    + rewrite (lookup_insert_ne m) by done.
      destruct (parseWorkerDef x) as [d|]; [rewrite lookup_insert_ne by done |];
        apply IH.
Qed.

Lemma applyInit_workerDefs st msg :
  workerDefs (applyInit st msg) =
  match prop msg "workers" with
  | VObj ws => setWorkerDefs ws (workerDefs st)
  | _ => workerDefs st
  end.
Proof.
  unfold applyInit.
  destruct (prop msg "routes") as [| | | | |raw|];
    destruct (prop msg "workers") as [| | | | | |ws];
    destruct (prop msg "requestTimeoutMs") as [| | |[| |q]| | |];
    try destruct (negb (Qle_bool q 0)); done.
Qed.

Lemma applyInit_routes_kept st msg :
  (∀ raw, prop msg "routes" ≠ VArr raw) →
  routes (applyInit st msg) = routes st.
Proof.
  intros Hno. unfold applyInit.
  destruct (prop msg "routes") as [| | | | |raw|]; try (by destruct (Hno raw));
    destruct (prop msg "workers") as [| | | | | |ws];
    destruct (prop msg "requestTimeoutMs") as [| | |[| |q]| | |];
    try destruct (negb (Qle_bool q 0)); done.
Qed.

(** C3, as stated, fails: after a second [control.init] that declares only
    the worker [agent], the definition of [liboqs] from the first one is
    still in the map. *)
Lemma reinit_keeps_absent_worker_defs :
  workerDefs (applyInit exReadyState exReinit) !! "liboqs"
  = Some {| url := "/workers/liboqs_worker.js"; mode := "legacy-liboqs";
            type := "classic"; config := VObj ∅ |}
  ∧ ¬ initReplacesState exReadyState exReinit.
Proof.
  assert (workerDefs (applyInit exReadyState exReinit) !! "liboqs"
          = Some {| url := "/workers/liboqs_worker.js"; mode := "legacy-liboqs";
                    type := "classic"; config := VObj ∅ |}) as Hkept
    by (vm_compute; reflexivity).
  assert (match prop exReinit "workers" with
          | VObj ws => ws !! "liboqs" ≫= parseWorkerDef
          | _ => None
          end = None) as Hnew
    by (vm_compute; reflexivity).
  split; [exact Hkept |].
  intros [_ Hdefs]. specialize (Hdefs "liboqs").
  rewrite Hkept, Hnew in Hdefs. discriminate Hdefs.
Qed.

(** C3, amended.  On [control.init] the route list is replaced by the
    normalised routes of the message when the message carries a routes
    array (nothing of the prior list is left) and is kept when it carries
    none; the worker-definition map is merged: a name whose entry in the
    message is well formed gets that definition, and every other name keeps
    the definition it had. *)
Theorem reinit_replaces_routes_merges_workerDefs st msg :
  (∀ raw, prop msg "routes" = VArr raw →
          routes (applyInit st msg) = normalizeRoutes (VArr raw)) ∧
  ((∀ raw, prop msg "routes" ≠ VArr raw) →
   routes (applyInit st msg) = routes st) ∧
  (∀ name,
     workerDefs (applyInit st msg) !! name =
     match
       match prop msg "workers" with
       | VObj ws => ws !! name ≫= parseWorkerDef
       | _ => None
       end
     with
     | Some d => Some d
     | None => workerDefs st !! name
     end).
Proof.
  split; [| split].
  - intros raw Hr. by apply applyInit_routes.
  - apply applyInit_routes_kept.
  - intros name. rewrite applyInit_workerDefs.
    destruct (prop msg "workers") as [| | | | | |ws]; try done.
    apply setWorkerDefs_lookup.
Qed.

Example reinit_example :
  routes (applyInit exReadyState exReinit)
  = [{| prefix := "/hx/agent"; worker := "agent" |}] ∧
  size (workerDefs (applyInit exReadyState exReinit)) = 2.
Proof. split; vm_compute; reflexivity. Qed.

Lemma reinit_replaces_routes_merges_workerDefs_witness :
  routes (applyInit exReadyState exReinit)
  = normalizeRoutes
      (VArr [VObj (obj [("prefix", VStr "/hx/agent"); ("worker", VStr "agent")])])
  ∧ workerDefs (applyInit exReadyState exReinit) !! "liboqs"
    = workerDefs exReadyState !! "liboqs".
Proof.
  destruct (reinit_replaces_routes_merges_workerDefs exReadyState exReinit)
    as (Hroutes & _ & Hdefs).
  split.
  - apply Hroutes. reflexivity.
  - apply (Hdefs "liboqs").
Defined.

Lemma ensureWorker_cases rt st name info st1 out1 :
  ensureWorker rt st name = inr (info, st1, out1) →
  (workers st !! name = Some info ∧ st1 = st ∧ out1 = []) ∨
  (∃ def,
     workers st !! name = None ∧
     workerDefs st !! name = Some def ∧
     newWorkerThrows rt (url def) (type def) = None ∧
     info = {| info_name := name; info_mode := mode def;
               info_ready := String.eqb (mode def) "legacy-liboqs" |} ∧
     st1 = with_workers st (<[name := info]> (workers st)) ∧
     out1 = NewWorker (url def) (type def) ("router:" +:+ name)
            :: (if String.eqb (mode def) "protocol"
                then [PostToWorker name (WInit name (config def))]
                else [])).
Proof.
  unfold ensureWorker.
  destruct (workers st !! name) as [i|] eqn:Ew.
  - intros [= <- <- <-]. by left.
  - destruct (workerDefs st !! name) as [def|] eqn:Ed; [| done].
    destruct (newWorkerThrows rt (url def) (type def)) eqn:Et; [done |].
    intros [= <- <- <-]. right. by exists def.
Qed.

Lemma dispatchProtocolRequest_cases rt st rid r reqMsg st' out :
  dispatchProtocolRequest rt st rid r reqMsg = inr (st', out) →
  ∃ info st1 out1,
    ensureWorker rt st (worker r) = inr (info, st1, out1) ∧
    ((info_ready info = false ∧ st' = st1 ∧
      ∃ body, out = out1 ++ [sendHxResponse rid 503 body htmlHeaders]) ∨
     (info_ready info = true ∧
      st' = with_pending
              (with_timers st1 (<[nextTimerId st1 := rid]> (timers st1))
                 (S (nextTimerId st1)))
              (mapSet rid {| workerName := worker r;
                             timeoutId := nextTimerId st1 |} (pending st1)) ∧
      ∃ req, out = out1 ++ [PostToWorker (info_name info) req])).
Proof.
  unfold dispatchProtocolRequest.
  destruct (ensureWorker rt st (worker r)) as [|[[info st1] out1]] eqn:He; [done |].
  intros Hd. exists info, st1, out1. split; [done |].
  destruct (info_ready info); simpl in Hd; injection Hd as <- <-.
  - right. eauto.
  - left. eauto.
Qed.

Lemma dispatchLegacyLiboqsRequest_cases rt st rid r reqMsg st' out :
  dispatchLegacyLiboqsRequest rt st rid r reqMsg = inr (st', out) →
  ∃ info st1 out1,
    ensureWorker rt st (worker r) = inr (info, st1, out1) ∧
    ((st' = st1 ∧
      ∃ status body, out = out1 ++ [sendHxResponse rid status body htmlHeaders]
                     ∧ (status = 409%Q ∨ status = 404%Q)) ∨
     (st' = with_activeLegacyByWorker st1
              (<[worker r := rid]> (activeLegacyByWorker st1)) ∧
      ∃ body, out = out1 ++ [PostToWorker (info_name info) WRun;
                             sendHxResponse rid 202 body htmlHeaders])).
Proof.
  unfold dispatchLegacyLiboqsRequest.
  destruct (ensureWorker rt st (worker r)) as [|[[info st1] out1]] eqn:He; [done |].
  intros Hd. exists info, st1, out1. split; [done |].
  destruct (activeLegacyByWorker st1 !! worker r) as [current|];
    [destruct (truthy (VStr current)) |];
    try destruct (negb (is_str (prop reqMsg "path") LEGACY_RUN_PATH));
    injection Hd as <- <-; eauto 8.
Qed.

(** What [handleHxRequest] can do: refuse with one message to the page and
    no change, or hand over to one of the two adapters. *)
Lemma handleHxRequest_cases rt st msg :
  (∃ m, handleHxRequest rt st msg = (st, [Send m])) ∨
  (∃ rid path r def msg' st' out,
     nonEmptyString (prop msg "id") = Some rid ∧
     nonEmptyString (prop msg "path") = Some path ∧
     matchRoute st path = Some r ∧
     workerDefs st !! worker r = Some def ∧
     (if String.eqb (mode def) "legacy-liboqs"
      then dispatchLegacyLiboqsRequest rt st rid r msg'
      else dispatchProtocolRequest rt st rid r msg') = inr (st', out) ∧
     handleHxRequest rt st msg = (st', out)).
Proof.
  unfold handleHxRequest.
  destruct (nonEmptyString (prop msg "id")) as [rid|] eqn:Hid; [| left; eauto].
  destruct (nonEmptyString (prop msg "path")) as [path|] eqn:Hp; [| left; eauto].
  destruct (matchRoute st path) as [r|] eqn:Hr; [| left; eauto].
  destruct (workerDefs st !! worker r) as [def|] eqn:Hdef; [| left; eauto].
  match goal with
  | |- context [match ?d with inl _ => _ | inr _ => _ end] =>
      destruct d as [err|[st' out]] eqn:Hd
  end; [left; eauto |].
  right. exists rid, path, r, def. eexists _, st', out.
  repeat split; done.
Qed.

(** What a message from a backend worker can do. *)
Lemma handleWorkerMessage_cases st info msg :
  (∃ out, handleWorkerMessage st info msg = (st, out) ∧
          (out = [] ∨ ∃ id ev data, out = [sendEvent id ev data]
                  ∨ ∃ id, out = [sendProtocolError "ORPHAN_RESPONSE"
                        "Received worker.response for unknown request id" id])) ∨
  (∃ ev, info_mode info ≠ "legacy-liboqs" ∧
         handleWorkerMessage st info msg
         = (with_workers st
              (<[info_name info :=
                   {| info_name := info_name info; info_mode := info_mode info;
                      info_ready := true |}]> (workers st)), [Send ev])) ∨
  (∃ rid status body headers,
     info_mode info ≠ "legacy-liboqs" ∧
     is_Some (mapGet rid (pending st)) ∧
     handleWorkerMessage st info msg
     = (clearPending st rid, [sendHxResponse rid status body headers])) ∨
  (∃ ev, info_mode info = "legacy-liboqs" ∧
         handleWorkerMessage st info msg
         = (with_activeLegacyByWorker st
              (delete (info_name info) (activeLegacyByWorker st)), [Send ev])).
Proof.
  unfold handleWorkerMessage.
  destruct (String.eqb_spec (info_mode info) "legacy-liboqs") as [Hm | Hm].
  - unfold handleLegacyLiboqsMessage.
    destruct msg as [| | | | | |m]; try (left; eexists; split; [done | by left]).
    destruct (is_str (prop m "type") "log-batch").
    { left. eexists. split; [done |]. right. eauto. }
    destruct (is_str (prop m "type") "status");
      [| left; eexists; split; [done | by left]].
    destruct (is_str (prop m "state") "done" || is_str (prop m "state") "error").
    + do 3 right. eauto.
    + left. eexists. split; [done |]. right. eauto.
  - unfold handleProtocolWorkerMessage.
    destruct msg as [| | | | | |m]; try (left; eexists; split; [done | by left]).
    destruct (is_str (prop m "kind") "worker.ready").
    { right. left. eauto. }
    destruct (is_str (prop m "kind") "worker.event").
    { left. eexists. split; [done |]. right. eauto. }
    destruct (is_str (prop m "kind") "worker.response");
      [| left; eexists; split; [done | by left]].
    destruct (negb (truthy (prop m "id")) || negb (pendingHas st (prop m "id")))
      eqn:Hor.
    { left. eexists. split; [done |]. right. exists VNull, VNull, VNull. eauto. }
    destruct (prop m "id") as [| | | |rid| |]; try (left; eexists; split; [done | by left]).
    do 2 right. left. exists rid. do 3 eexists. split; [done |]. split; [| done].
    apply orb_false_elim in Hor as [_ Hhas]. apply negb_false_iff in Hhas.
    by apply mapHas_true.
Qed.

Lemma spawned_app o1 o2 : spawned (o1 ++ o2) = spawned o1 ++ spawned o2.
Proof. apply omap_app. Qed.

Lemma ensureWorker_spawned rt st name info st1 out1 :
  ensureWorker rt st name = inr (info, st1, out1) →
  (spawned out1 = [] ∧ workers st1 = workers st) ∨
  (spawned out1 = ["router:" +:+ name] ∧ workers st !! name = None ∧
   workers st1 = <[name := info]> (workers st)).
Proof.
  intros [(_ & -> & ->) | (def & Hn & _ & _ & _ & -> & ->)]%ensureWorker_cases.
  - by left.
  - right. split; [| done]. simpl. by destruct (String.eqb (mode def) "protocol").
Qed.

(** A turn of the event loop constructs at most one [Worker], and only for
    a name that has no session; the session then exists. *)
Lemma step_spawned rt st ev st' out :
  step rt st ev = Some (st', out) →
  (spawned out = [] ∨
   ∃ w, spawned out = ["router:" +:+ w] ∧ workers st !! w = None ∧
        is_Some (workers st' !! w)) ∧
  (∀ w, is_Some (workers st !! w) → is_Some (workers st' !! w)).
Proof.
  assert (∀ (m : gmap string workerInfo) name info w,
            is_Some (m !! w) → is_Some (<[name := info]> m !! w)) as Hins.
  { intros m name info w [i Hi].
    destruct (decide (name = w)) as [-> | Hne].
    - rewrite lookup_insert_eq. by eexists.
    - rewrite lookup_insert_ne by done. by eexists. }
  destruct ev as [data | name data | name message | id]; unfold step.
  - intros [= Hs]. unfold onmessage in Hs.
    destruct (jsor data (VObj ∅)) as [| | | | | |m];
      try (injection Hs as <- <-; by split; [left |]).
    destruct (is_str (prop m "kind") "control.init").
    { injection Hs as <- <-. split; [by left |].
      destruct (applyInit_frame st m) as (-> & _). done. }
    destruct (is_str (prop m "kind") "control.ping");
      [injection Hs as <- <-; by split; [left |] |].
    destruct (is_str (prop m "kind") "hx.request");
      [| destruct (toString rt (prop m "kind"));
         injection Hs as <- <-; by split; [left |]].
    destruct (handleHxRequest_cases rt st m)
      as [[e He] | (rid & path & r & def & msg' & s' & o & _ & _ & _ & _ & Hd & He)];
      rewrite He in Hs; injection Hs as <- <-; [by split; [left |] |].
    destruct (String.eqb (mode def) "legacy-liboqs").
    + apply dispatchLegacyLiboqsRequest_cases in Hd
        as (info & st1 & out1 & Hen & Hcase).
      apply ensureWorker_spawned in Hen.
      assert (spawned o = spawned out1 ∧ workers s' = workers st1) as [-> ->].
      { destruct Hcase as [(-> & ? & ? & -> & _) | (-> & ? & ->)];
          rewrite spawned_app, app_nil_r; done. }
      destruct Hen as [[-> ->] | (-> & Hn & Hw)]; [by split; [left |] |].
      split; [| rewrite Hw; by intros; apply Hins].
      right. exists (worker r). rewrite Hw, lookup_insert_eq. eauto.
    + apply dispatchProtocolRequest_cases in Hd
        as (info & st1 & out1 & Hen & Hcase).
      apply ensureWorker_spawned in Hen.
      assert (spawned o = spawned out1 ∧ workers s' = workers st1) as [-> ->].
      { destruct Hcase as [(_ & -> & ? & ->) | (_ & -> & ? & ->)];
          rewrite spawned_app, app_nil_r; done. }
      destruct Hen as [[-> ->] | (-> & Hn & Hw)]; [by split; [left |] |].
      split; [| rewrite Hw; by intros; apply Hins].
      right. exists (worker r). rewrite Hw, lookup_insert_eq. eauto.
  - destruct (workers st !! name) as [info|] eqn:Hw; [| done].
    intros [= Hs]. unfold workerOnmessage in Hs.
    destruct (handleWorkerMessage_cases st info (jsor data (VObj ∅)))
      as [(o & He & Ho) | [(e & _ & He) | [(rid & ? & ? & ? & _ & _ & He) | (e & _ & He)]]];
      rewrite He in Hs; injection Hs as <- <-.
    + split; [| done]. left.
      destruct Ho as [-> | (? & ? & ? & [-> | [? ->]])]; done.
    + split; [by left |]. simpl. by intros; apply Hins.
    + split; [by left |]. destruct (clearPending_frame st rid) as (_ & -> & _). done.
    + by split; [left |].
  - destruct (workers st !! name); [| done].
    intros [= Hs]. unfold workerOnerror in Hs.
    destruct (toString rt (jsor message (VStr "worker error"))) as [text|];
      injection Hs as <- <-; [| by split; [left |]].
    simpl. split.
    + left. rewrite spawned_app, app_nil_r. unfold failPendingForWorker.
      generalize (pending st). intros l.
      assert (spawned (@nil effect) = []) as Hnil by done. revert Hnil.
      generalize (@nil effect) at 1 3. generalize st at 1.
      induction l as [|[rid p] l IH]; intros s o Ho; simpl; [done |].
      destruct (String.eqb (workerName p) name); apply IH; simpl; [| done].
      by rewrite spawned_app, Ho.
    + apply (failPendingForWorker_ind
               (fun s => ∀ w, is_Some (workers st !! w) → is_Some (workers s !! w)));
        [| done].
      intros s rid Hs. destruct (clearPending_frame s rid) as (_ & -> & _). done.
  - destruct (timers st !! id) as [rid|]; [| done].
    intros [= <- <-]. split; [by left |].
    match goal with |- context [clearPending ?s ?r] =>
      destruct (clearPending_frame s r) as (_ & -> & _) end. done.
Qed.

Lemma sameConfig_refl st : sameConfig st st.
Proof. done. Qed.

Lemma sameConfig_trans st1 st2 st3 :
  sameConfig st1 st2 → sameConfig st2 st3 → sameConfig st1 st3.
Proof. intros (?&?&?) (?&?&?). repeat split; congruence. Qed.

Lemma clearPending_sameConfig st rid : sameConfig st (clearPending st rid).
Proof.
  destruct (clearPending_frame st rid) as (_ & _ & ? & ? & ? & _). done.
Qed.

Lemma ensureWorker_sameConfig rt st name info st1 out1 :
  ensureWorker rt st name = inr (info, st1, out1) → sameConfig st st1.
Proof.
  unfold ensureWorker. repeat case_match; intros; simplify_eq/=; done.
Qed.

Lemma dispatchProtocolRequest_sameConfig rt st rid r reqMsg st' out :
  dispatchProtocolRequest rt st rid r reqMsg = inr (st', out) → sameConfig st st'.
Proof.
  unfold dispatchProtocolRequest.
  destruct (ensureWorker rt st (worker r)) as [|[[info st1] out1]] eqn:He; [done |].
  apply ensureWorker_sameConfig in He.
  destruct (info_ready info); intros [= <- <-]; simpl; [| done].
  destruct He as (?&?&?). done.
Qed.

Lemma dispatchLegacyLiboqsRequest_sameConfig rt st rid r reqMsg st' out :
  dispatchLegacyLiboqsRequest rt st rid r reqMsg = inr (st', out) → sameConfig st st'.
Proof.
  unfold dispatchLegacyLiboqsRequest.
  destruct (ensureWorker rt st (worker r)) as [|[[info st1] out1]] eqn:He; [done |].
  apply ensureWorker_sameConfig in He. destruct He as (?&?&?).
  repeat case_match; intros; simplify_eq/=; done.
Qed.

Lemma handleHxRequest_sameConfig rt st msg :
  sameConfig st (fst (handleHxRequest rt st msg)).
Proof.
  destruct (handleHxRequest_cases rt st msg)
    as [[m ->] | (rid & path & r & def & msg' & st' & out
                  & _ & _ & _ & _ & Hd & ->)];
    [apply sameConfig_refl |].
  cbn [fst]. destruct (String.eqb (mode def) "legacy-liboqs").
  - by eapply dispatchLegacyLiboqsRequest_sameConfig.
  - by eapply dispatchProtocolRequest_sameConfig.
Qed.

Lemma handleWorkerMessage_sameConfig st info msg :
  sameConfig st (fst (handleWorkerMessage st info msg)).
Proof.
  destruct (handleWorkerMessage_cases st info msg)
    as [(out & -> & _) | [(ev & _ & ->) | [(rid & status & body & headers
                                             & _ & _ & ->) | (ev & _ & ->)]]];
    cbn [fst]; try done.
  apply clearPending_sameConfig.
Qed.

Lemma workerOnerror_sameConfig rt st name message :
  sameConfig st (fst (workerOnerror rt st name message)).
Proof.
  unfold workerOnerror.
  destruct (toString rt (jsor message (VStr "worker error"))) as [text|];
    [| apply sameConfig_refl].
  simpl.
  apply (failPendingForWorker_ind (sameConfig st)); [| done].
  intros s rid Hs. eapply sameConfig_trans; [exact Hs | apply clearPending_sameConfig].
Qed.

Lemma step_sameConfig rt st ev st' out :
  step rt st ev = Some (st', out) →
  isControlInit ev = false →
  sameConfig st st'.
Proof.
  destruct ev as [data | name data | name message | id]; unfold step.
  - intros [= Hs] Hk. unfold onmessage in Hs. simpl in Hk.
    destruct (jsor data (VObj ∅)) as [| | | | | |m]; try (by injection Hs as <- _).
    rewrite Hk in Hs.
    destruct (is_str (prop m "kind") "control.ping"); [by injection Hs as <- _ |].
    destruct (is_str (prop m "kind") "hx.request");
      [| destruct (toString rt (prop m "kind")); by injection Hs as <- _].
    pose proof (handleHxRequest_sameConfig rt st m) as H. by rewrite Hs in H.
  - destruct (workers st !! name) as [info|]; [| done].
    intros [= Hs] _. unfold workerOnmessage in Hs.
    pose proof (handleWorkerMessage_sameConfig st info (jsor data (VObj ∅))) as H.
    by rewrite Hs in H.
  - destruct (workers st !! name); [| done].
    intros [= Hs] _.
    pose proof (workerOnerror_sameConfig rt st name message) as H.
    by rewrite Hs in H.
  - destruct (timers st !! id) as [rid|]; [| done].
    intros [= <- _] _.
    apply (clearPending_sameConfig
             (with_timers st (delete id (timers st)) (nextTimerId st)) rid).
Qed.

(** X1: only [control.init] changes the configuration.  Every other event, a
    request, a ping, a message or an error of a backend worker, a timeout,
    leaves the route list, the worker definitions and the request timeout as
    they were. *)
Theorem only_init_changes_configuration rt st ev st' out :
  step rt st ev = Some (st', out) →
  isControlInit ev = false →
  sameConfig st st'.
Proof. apply step_sameConfig. Qed.

Lemma only_init_changes_configuration_witness :
  sameConfig exWarmState exPendingState.
Proof.
  apply (only_init_changes_configuration sampleRuntime exWarmState
           (EvMessage (VObj (exRequest "r1" "/hx/agent/sign")))
           exPendingState
           (snd (runTrace sampleRuntime exWarmState
                   [EvMessage (VObj (exRequest "r1" "/hx/agent/sign"))]))).
  - vm_compute; reflexivity.
  - vm_compute; reflexivity.
Defined.

Lemma runTrace_spawned_NoDup rt evs st seen :
  NoDup seen →
  (∀ n, n ∈ seen → ∃ w, n = "router:" +:+ w ∧ is_Some (workers st !! w)) →
  NoDup (seen ++ spawned (snd (runTrace rt st evs))).
Proof.
  revert st seen. induction evs as [|ev evs IH]; intros st seen Hnd Hseen; simpl.
  - by rewrite app_nil_r.
  - destruct (step rt st ev) as [[st' out]|] eqn:Hs; [| by apply IH].
    simpl. rewrite spawned_app, app_assoc.
    destruct (step_spawned _ _ _ _ _ Hs) as [Hsp Hmono].
    apply IH.
    + destruct Hsp as [-> | (w & -> & Hnone & _)]; [by rewrite app_nil_r |].
      apply NoDup_app. split; [done |]. split; [| apply NoDup_singleton].
      intros n Hn ->%list_elem_of_singleton.
      destruct (Hseen _ Hn) as (w' & Heq & [i Hi]).
      apply (inj (String.app "router:")) in Heq. congruence.
    + intros n [Hn | Hn]%elem_of_app.
      * destruct (Hseen _ Hn) as (w & -> & Hw). eauto.
      * destruct Hsp as [Hsp | (w & Hsp & _ & Hw)]; rewrite Hsp in Hn.
        -- by apply elem_of_nil in Hn.
        -- apply list_elem_of_singleton in Hn as ->. eauto.
Qed.

(** How a step can change the session table. *)
Lemma step_workers rt st ev st' out :
  invariant st →
  step rt st ev = Some (st', out) →
  workers st' = workers st ∨
  (∃ w info, workers st !! w = None ∧ workers st' = <[w := info]> (workers st)) ∨
  (∃ w info, workers st !! w = Some info ∧
             workers st' = <[w := {| info_name := info_name info;
                                     info_mode := info_mode info;
                                     info_ready := true |}]> (workers st)).
Proof.
  intros Hinv.
  destruct ev as [data | name data | name message | id]; unfold step.
  - intros [= Hs]. unfold onmessage in Hs.
    destruct (jsor data (VObj ∅)) as [| | | | | |m];
      try (injection Hs as <- _; by left).
    destruct (is_str (prop m "kind") "control.init").
    { injection Hs as <- _. left. by destruct (applyInit_frame st m) as (-> & _). }
    destruct (is_str (prop m "kind") "control.ping"); [injection Hs as <- _; by left |].
    destruct (is_str (prop m "kind") "hx.request");
      [| destruct (toString rt (prop m "kind")); injection Hs as <- _; by left].
    destruct (handleHxRequest_cases rt st m)
      as [[e He] | (rid & path & r & def & msg' & s' & o & _ & _ & _ & _ & Hd & He)];
      rewrite He in Hs; injection Hs as <- _; [by left |].
    assert (∃ info st1 out1,
              ensureWorker rt st (worker r) = inr (info, st1, out1) ∧
              workers s' = workers st1) as (info & st1 & out1 & Hen & ->).
    { destruct (String.eqb (mode def) "legacy-liboqs").
      - apply dispatchLegacyLiboqsRequest_cases in Hd
          as (info & st1 & out1 & Hen & [(-> & _) | (-> & _)]); eauto.
      - apply dispatchProtocolRequest_cases in Hd
          as (info & st1 & out1 & Hen & [(_ & -> & _) | (_ & -> & _)]); eauto. }
    apply ensureWorker_spawned in Hen as [[_ ->] | (_ & Hn & ->)]; [by left |].
    right. left. eauto.
  - destruct (workers st !! name) as [info|] eqn:Hw; [| done].
    intros [= Hs]. unfold workerOnmessage in Hs.
    destruct (handleWorkerMessage_cases st info (jsor data (VObj ∅)))
      as [(o & He & _) | [(e & _ & He) | [(rid & ? & ? & ? & _ & _ & He) | (e & _ & He)]]];
      rewrite He in Hs; injection Hs as <- _; try by left.
    + right. right. exists name, info. split; [done |]. simpl.
      destruct Hinv as [_ _ Hn _]. by rewrite (Hn _ _ Hw).
    + left. by destruct (clearPending_frame st rid) as (_ & -> & _).
  - destruct (workers st !! name); [| done].
    intros [= Hs]. left. unfold workerOnerror in Hs.
    destruct (toString rt (jsor message (VStr "worker error"))) as [text|];
      injection Hs as <- _; [| done].
    simpl.
    apply (failPendingForWorker_ind (fun s => workers s = workers st)); [| done].
    intros s rid Hs. by destruct (clearPending_frame s rid) as (_ & -> & _).
  - destruct (timers st !! id) as [rid|]; [| done].
    intros [= <- _]. left.
    match goal with |- context [clearPending ?s ?r] =>
      by destruct (clearPending_frame s r) as (_ & -> & _) end.
Qed.

(** X2: every [Worker] the router ever constructs has its own name: along any
    run from the initial state no name is used twice. *)
Theorem one_worker_per_name rt evs :
  NoDup (spawned (snd (runTrace rt initialState evs))).
Proof.
  apply (runTrace_spawned_NoDup rt evs initialState []); [constructor |].
  intros n Hn. by apply elem_of_nil in Hn.
Qed.

(** X3: a session, once created, stays: no event removes it, changes its name or
    its mode, or makes a ready session not ready. *)
Theorem step_keeps_sessions rt st ev st' out w i :
  reachable rt st →
  step rt st ev = Some (st', out) →
  workers st !! w = Some i →
  ∃ i', workers st' !! w = Some i' ∧ sessionKept i i'.
Proof.
  intros Hinv%reachable_invariant Hs Hw.
  destruct (step_workers _ _ _ _ _ Hinv Hs)
    as [-> | [(w' & info & Hn & ->) | (w' & info & Hi & ->)]].
  - by exists i.
  - exists i. rewrite lookup_insert_ne by congruence. done.
  - destruct (decide (w' = w)) as [-> | Hne].
    + rewrite lookup_insert_eq. eexists. split; [done |].
      rewrite Hw in Hi. injection Hi as <-. done.
    + exists i. by rewrite lookup_insert_ne.
Qed.

Lemma step_keeps_sessions_witness :
  ∃ i', workers exPendingState !! "agent" = Some i'
        ∧ sessionKept {| info_name := "agent"; info_mode := "protocol";
                         info_ready := true |} i'.
Proof.
  apply (step_keeps_sessions sampleRuntime exWarmState
           (EvMessage (VObj (exRequest "r1" "/hx/agent/sign")))
           exPendingState
           (snd (runTrace sampleRuntime exWarmState
                   [EvMessage (VObj (exRequest "r1" "/hx/agent/sign"))]))
           "agent").
  - apply reachable_exWarmState.
  - vm_compute; reflexivity.
  - vm_compute; reflexivity.
Defined.

Section JsMapKeys.
Context {V : Type}.
Implicit Types (m : list (string * V)) (k : string) (v : V).

Lemma mapSet_keys k v m :
  map fst (mapSet k v m)
  = if mapHas k m then map fst m else map fst m ++ [k].
Proof.
  unfold mapHas. induction m as [|[k' v'] m IH]; simpl; [done |].
  destruct (String.eqb k' k); simpl; [done |]. rewrite IH.
  by destruct (mapGet k m).
Qed.

Lemma mapGet_None_keys k m : mapGet k m = None ↔ k ∉ map fst m.
Proof.
  induction m as [|[k' v'] m IH]; simpl.
  - split; [intros _ H; by apply elem_of_nil in H | done].
  - rewrite not_elem_of_cons.
    destruct (String.eqb_spec k' k) as [-> | Hne]; [split; [done | by intros [? _]] |].
    rewrite IH. split; [by split | by intros [_ ?]].
Qed.

Lemma mapSet_NoDup k v m : NoDup (map fst m) → NoDup (map fst (mapSet k v m)).
Proof.
  intros Hnd. rewrite mapSet_keys. unfold mapHas.
  destruct (mapGet k m) eqn:E; [done |].
  apply NoDup_app. split; [done |]. split; [| apply NoDup_singleton].
  intros x Hx ->%list_elem_of_singleton. by apply mapGet_None_keys in E.
Qed.

Lemma mapDelete_elem_of k m e : e ∈ mapDelete k m ↔ e ∈ m ∧ fst e ≠ k.
Proof.
  unfold mapDelete. rewrite !list_elem_of_In, filter_In.
  rewrite negb_true_iff, String.eqb_neq. done.
Qed.

Lemma mapDelete_NoDup k m : NoDup (map fst m) → NoDup (map fst (mapDelete k m)).
Proof.
  unfold mapDelete. induction m as [|[k' v'] m IH]; simpl; [done |].
  intros [Hk Hm]%NoDup_cons. destruct (negb (String.eqb k' k)); simpl; [| auto].
  apply NoDup_cons. split; [| auto].
  intros Hin. apply Hk. apply list_elem_of_fmap in Hin as (e & -> & He).
  apply list_elem_of_fmap. exists e. split; [done |].
  apply list_elem_of_In, filter_In in He as [He _]. by apply list_elem_of_In.
Qed.

Lemma mapGet_elem_of k v m : mapGet k m = Some v → (k, v) ∈ m.
Proof.
  induction m as [|[k' v'] m IH]; simpl; [done |].
  destruct (String.eqb_spec k' k) as [-> | Hne].
  - intros [= ->]. apply elem_of_cons. by left.
  - intros H. apply elem_of_cons. right. auto.
Qed.

Lemma elem_of_mapGet k v m : NoDup (map fst m) → (k, v) ∈ m → mapGet k m = Some v.
Proof.
  induction m as [|[k' v'] m IH]; simpl.
  - intros _ H. by apply elem_of_nil in H.
  - intros [Hk Hm]%NoDup_cons [[= -> ->] | Hin]%elem_of_cons.
    + by rewrite String.eqb_refl.
    + destruct (String.eqb_spec k' k) as [-> | Hne]; [| auto].
      destruct Hk. apply list_elem_of_fmap. by exists (k, v).
Qed.
End JsMapKeys.

(** What a step can do to the pending table: delete keys and set one. *)
Lemma step_pending_ind rt (P : list (string * pendingEntry) → Prop) :
  (∀ l rid, P l → P (mapDelete rid l)) →
  (∀ l rid e, P l → P (mapSet rid e l)) →
  ∀ st ev st' out,
    step rt st ev = Some (st', out) → P (pending st) → P (pending st').
Proof.
  intros Hdel Hset st ev st' out Hs HP.
  assert (∀ s rid, P (pending s) → P (pending (clearPending s rid))) as Hclear.
  { intros s rid H. rewrite clearPending_pending. by apply Hdel. }
  destruct ev as [data | name data | name message | id]; unfold step in Hs.
  - injection Hs as Hs. unfold onmessage in Hs.
    destruct (jsor data (VObj ∅)) as [| | | | | |m];
      try (by injection Hs as <- _).
    destruct (is_str (prop m "kind") "control.init").
    { injection Hs as <- _. by destruct (applyInit_frame st m) as (_ & -> & _). }
    destruct (is_str (prop m "kind") "control.ping"); [by injection Hs as <- _ |].
    destruct (is_str (prop m "kind") "hx.request");
      [| destruct (toString rt (prop m "kind")); by injection Hs as <- _].
    destruct (handleHxRequest_cases rt st m)
      as [[e He] | (rid & path & r & def & msg' & s' & o & _ & _ & _ & _ & Hd & He)];
      rewrite He in Hs; injection Hs as <- _; [done |].
    destruct (String.eqb (mode def) "legacy-liboqs").
    + apply dispatchLegacyLiboqsRequest_cases in Hd
        as (info & st1 & out1 & Hen & Hcase).
      apply ensureWorker_inr in Hen as (_ & _ & _ & _ & Ep & _).
      destruct Hcase as [(-> & _) | (-> & _)]; simpl; by rewrite Ep.
    + apply dispatchProtocolRequest_cases in Hd
        as (info & st1 & out1 & Hen & Hcase).
      apply ensureWorker_inr in Hen as (_ & _ & _ & _ & Ep & _).
      destruct Hcase as [(_ & -> & _) | (_ & -> & _)]; simpl; rewrite Ep; auto.
  - destruct (workers st !! name) as [info|] eqn:Hw; [| done].
    injection Hs as Hs. unfold workerOnmessage in Hs.
    destruct (handleWorkerMessage_cases st info (jsor data (VObj ∅)))
      as [(o & He & _) | [(e & _ & He) | [(rid & ? & ? & ? & _ & _ & He) | (e & _ & He)]]];
      rewrite He in Hs; injection Hs as <- _; auto.
  - destruct (workers st !! name); [| done].
    injection Hs as Hs. unfold workerOnerror in Hs.
    destruct (toString rt (jsor message (VStr "worker error"))) as [text|];
      injection Hs as <- _; [| done].
    simpl. by apply (failPendingForWorker_ind (fun s => P (pending s))).
  - destruct (timers st !! id) as [rid|]; [| done].
    injection Hs as <- _. by apply Hclear.
Qed.

Lemma reachable_pending_NoDup rt st :
  reachable rt st → NoDup (map fst (pending st)).
Proof.
  induction 1 as [| st ev st' out _ IH Hs]; [constructor |].
  revert IH. apply (step_pending_ind rt (fun l => NoDup (map fst l))) with ev out;
    [intros; by apply mapDelete_NoDup | intros; by apply mapSet_NoDup | done].
Qed.

Lemma reachable_pending_wf rt st :
  reachable rt st → pendingWellFormed st.
Proof.
  intros Hreach. pose proof (reachable_pending_NoDup _ _ Hreach) as Hnd.
  destruct (reachable_invariant _ _ Hreach) as [_ Hp _ _].
  assert (∀ rid p, (rid, p) ∈ pending st →
                   rid ≠ "" ∧ timers st !! timeoutId p = Some rid) as Hent.
  { intros rid p Hin. apply elem_of_mapGet in Hin; [| done].
    by destruct (Hp _ _ Hin). }
  constructor; [done | done |].
  revert Hnd Hent. generalize (pending st) as l.
  induction l as [|[rid p] l IH]; simpl; [constructor |].
  intros [Hk Hl]%NoDup_cons Hent. apply NoDup_cons. split.
  - intros Hin. apply list_elem_of_fmap in Hin as ([rid' p'] & Heq & Hin).
    simpl in Heq.
    destruct (Hent rid p) as [_ H1]; [apply elem_of_cons; by left |].
    destruct (Hent rid' p') as [_ H2]; [apply elem_of_cons; by right |].
    rewrite Heq, H2 in H1. injection H1 as ->.
    apply Hk. apply list_elem_of_fmap. by exists (rid, p').
  - apply IH; [done |]. intros rid' p' Hin. apply Hent. apply elem_of_cons. by right.
Qed.

(** X4: in every reachable state the pending table is well formed: the request
    ids are distinct and not empty, the timer of every entry is live and
    registered for the id of the entry, and no two entries share a timer. *)
Theorem pending_table_is_well_formed rt st :
  reachable rt st → pendingWellFormed st.
Proof. apply reachable_pending_wf. Qed.

Lemma pending_table_is_well_formed_witness : pendingWellFormed exPendingState.
Proof.
  apply (pending_table_is_well_formed sampleRuntime exPendingState).
  apply reachable_exPendingState.
Defined.

Lemma withoutKeys_nil m : withoutKeys [] m = m.
Proof.
  unfold withoutKeys. induction m as [|e m IH]; [done |].
  cbn [List.filter].
  rewrite bool_decide_eq_false_2 by apply not_elem_of_nil.
  cbn [negb]. f_equal. apply IH.
Qed.

Lemma withoutKeys_mapDelete k ks m :
  withoutKeys ks (mapDelete k m) = withoutKeys (k :: ks) m.
Proof.
  unfold withoutKeys, mapDelete. induction m as [|[k' v] m IH]; [done |].
  cbn [List.filter fst].
  destruct (String.eqb_spec k' k) as [-> | Hne]; cbn [negb List.filter fst].
  - rewrite (bool_decide_eq_true_2 (k ∈ k :: ks)) by (apply elem_of_cons; by left).
    cbn [negb]. apply IH.
  - rewrite IH. destruct (bool_decide (k' ∈ ks)) eqn:E.
    + apply bool_decide_eq_true in E.
      rewrite (bool_decide_eq_true_2 (k' ∈ k :: ks)) by (apply elem_of_cons; by right).
      done.
    + apply bool_decide_eq_false in E.
      rewrite (bool_decide_eq_false_2 (k' ∈ k :: ks)); [done |].
      intros [? | ?]%elem_of_cons; done.
Qed.

Lemma same_key_same_entry (l : list (string * pendingEntry)) e e' :
  NoDup (map fst l) → e ∈ l → e' ∈ l → fst e = fst e' → e = e'.
Proof.
  destruct e as [k v], e' as [k' v']. simpl. intros Hnd He He' <-.
  apply (elem_of_mapGet _ _ _ Hnd) in He, He'. congruence.
Qed.

Lemma ownedBy_elem_of name l e :
  e ∈ ownedBy name l ↔ e ∈ l ∧ workerName (snd e) = name.
Proof.
  unfold ownedBy. by rewrite !list_elem_of_In, filter_In, String.eqb_eq.
Qed.

Lemma notOwnedBy_elem_of name l e :
  e ∈ notOwnedBy name l ↔ e ∈ l ∧ workerName (snd e) ≠ name.
Proof.
  unfold notOwnedBy.
  by rewrite !list_elem_of_In, filter_In, negb_true_iff, String.eqb_neq.
Qed.

Lemma withoutKeys_ownedBy name l :
  NoDup (map fst l) →
  withoutKeys (map fst (ownedBy name l)) l = notOwnedBy name l.
Proof.
  intros Hnd. unfold withoutKeys, notOwnedBy. apply filter_ext_in.
  intros e He%list_elem_of_In. f_equal.
  destruct (String.eqb_spec (workerName (snd e)) name) as [Ho | Ho].
  - apply bool_decide_eq_true_2. apply list_elem_of_fmap. exists e.
    split; [done |]. by apply ownedBy_elem_of.
  - apply bool_decide_eq_false_2.
    intros (e' & Hk & [He' Ho']%ownedBy_elem_of)%list_elem_of_fmap.
    by rewrite (same_key_same_entry l e e' Hnd He He' Hk) in Ho.
Qed.

(** The loop of [failPendingForWorker], entry by entry. *)
Lemma failPendingForWorker_loop name reason l :
  ∀ s o,
    NoDup (map fst l) →
    (∀ e, e ∈ l → mapGet (fst e) (pending s) = Some (snd e)) →
    let res :=
      foldl (fun acc entry =>
               if String.eqb (workerName (snd entry)) name
               then (clearPending (fst acc) (fst entry),
                     snd acc ++
                     [sendHxResponse (fst entry) 502
                        (div "fail" ("Backend worker failed: " +:+ escapeHtml reason))
                        htmlHeaders])
               else acc) (s, o) l in
    pending (fst res) = withoutKeys (map fst (ownedBy name l)) (pending s) ∧
    snd res = o ++ map (fun e => sendHxResponse (fst e) 502
                                   (div "fail" ("Backend worker failed: "
                                                +:+ escapeHtml reason))
                                   htmlHeaders) (ownedBy name l) ∧
    ∀ t, timers (fst res) !! t =
         if bool_decide (t ∈ map (fun e => timeoutId (snd e)) (ownedBy name l))
         then None else timers s !! t.
Proof.
  induction l as [|[rid p] l IH]; intros s o Hnd Hin; cbn [foldl fst snd].
  - cbn [ownedBy List.filter map]. rewrite withoutKeys_nil, app_nil_r.
    split; [done |]. split; [done |].
    intros t. by rewrite bool_decide_eq_false_2 by apply not_elem_of_nil.
  - apply NoDup_cons in Hnd as [Hk Hnd].
    assert (mapGet rid (pending s) = Some p) as Hp.
    { apply (Hin (rid, p)). apply elem_of_cons. by left. }
    unfold ownedBy. cbn [List.filter snd]. fold (ownedBy name l).
    destruct (String.eqb (workerName p) name); cbn [map fst snd].
    + edestruct (IH (clearPending s rid)) as (Ep & Eo & Et); [done | |].
      { intros e He. rewrite clearPending_pending, mapGet_mapDelete_ne.
        - apply Hin. apply elem_of_cons. by right.
        - intros ->. apply Hk. apply list_elem_of_fmap. by exists e. }
      split; [| split].
      * rewrite Ep, clearPending_pending. apply withoutKeys_mapDelete.
      * rewrite Eo. by rewrite <- app_assoc.
      * intros t. rewrite Et, clearPending_timers, Hp.
        destruct (decide (timeoutId p = t)) as [<- | Hne].
        -- rewrite (bool_decide_eq_true_2 (timeoutId p ∈ timeoutId p :: _))
             by (apply elem_of_cons; by left).
           case_bool_decide; [done | apply lookup_delete_eq].
        -- rewrite lookup_delete_ne by done.
           destruct (bool_decide (t ∈ _)) eqn:E.
           ++ apply bool_decide_eq_true in E.
              by rewrite bool_decide_eq_true_2 by (apply elem_of_cons; by right).
           ++ apply bool_decide_eq_false in E.
              rewrite bool_decide_eq_false_2; [done |].
              intros [? | ?]%elem_of_cons; done.
    + apply IH; [done |]. intros e He. apply Hin. apply elem_of_cons. by right.
Qed.

(** X5: when a backend worker reports an error whose message is the string
    [text] (or has no message, [text] then being [worker error]), every
    pending request it owns is answered 502, in the order the requests were
    registered, and is removed with its timer cancelled; the requests of
    other workers stay pending with their timers live; a [WORKER_ERROR]
    envelope follows.  The session stays and so does a legacy slot. *)
Theorem worker_error_fails_owned_requests rt st name info message text :
  reachable rt st →
  workers st !! name = Some info →
  jsor message (VStr "worker error") = VStr text →
  ∃ st',
    step rt st (EvWorkerError name message)
    = Some (st',
            map (fun e =>
                   Send (MHxResponse (fst e) 502
                           (VObj {[ "Content-Type" := VStr "text/html; charset=utf-8" ]})
                           ("<div class=" +:+ String "034"%char "fail"
                            +:+ String "034"%char ">Backend worker failed: "
                            +:+ escapeEach
                                  ("Worker '" +:+ name +:+ "' error: " +:+ text)
                            +:+ "</div>")))
                (ownedBy name (pending st))
            ++ [Send (MError VNull "WORKER_ERROR" text)]) ∧
    pending st' = notOwnedBy name (pending st) ∧
    (∀ e, e ∈ ownedBy name (pending st) →
          timers st' !! timeoutId (snd e) = None) ∧
    (∀ e, e ∈ notOwnedBy name (pending st) →
          timers st' !! timeoutId (snd e) = Some (fst e)) ∧
    workers st' = workers st ∧
    activeLegacyByWorker st' = activeLegacyByWorker st.
Proof.
  intros Hreach Hw Htext.
  destruct (reachable_pending_wf _ _ Hreach) as [Hnd Hent Htim].
  unfold step. rewrite Hw. unfold workerOnerror. rewrite Htext.
  cbn [toString].
  set (reason := "Worker '" +:+ name +:+ "' error: " +:+ text).
  destruct (failPendingForWorker_loop name reason (pending st) st [] Hnd)
    as (Ep & Eo & Et).
  { intros [rid p] He. by apply elem_of_mapGet. }
  fold (failPendingForWorker st name reason) in Ep, Eo, Et.
  exists (fst (failPendingForWorker st name reason)).
  split; [rewrite Eo, escapeHtml_escapeEach; by_literal |].
  split; [rewrite Ep; by apply withoutKeys_ownedBy |].
  split; [| split; [| split]].
  - intros e He. rewrite Et. rewrite bool_decide_eq_true_2; [done |].
    apply list_elem_of_fmap. by exists e.
  - intros [rid p] [He Ho]%notOwnedBy_elem_of. rewrite Et. simpl in *.
    rewrite bool_decide_eq_false_2; [exact (proj2 (Hent _ _ He)) |].
    intros ([rid' p'] & Hid & [He' Ho']%ownedBy_elem_of)%list_elem_of_fmap.
    simpl in *.
    destruct (Hent _ _ He) as [_ H1]. destruct (Hent _ _ He') as [_ H2].
    rewrite Hid, H2 in H1. injection H1 as ->.
    pose proof (same_key_same_entry _ (rid, p) (rid, p') Hnd He He' eq_refl) as Heq.
    injection Heq as ->. done.
  - apply (failPendingForWorker_ind (fun s => workers s = workers st)); [| done].
    intros s rid Hs. by destruct (clearPending_frame s rid) as (_ & -> & _).
  - apply (failPendingForWorker_ind
             (fun s => activeLegacyByWorker s = activeLegacyByWorker st)); [| done].
    intros s rid Hs. by destruct (clearPending_frame s rid) as (-> & _).
Qed.

Lemma worker_error_fails_owned_requests_witness :
  ∃ st',
    step sampleRuntime exPendingState (EvWorkerError "agent" (VStr "boom"))
    = Some (st',
            [Send (MHxResponse "r1" 502
                     (VObj {[ "Content-Type" := VStr "text/html; charset=utf-8" ]})
                     ("<div class=" +:+ String "034"%char "fail"
                      +:+ String "034"%char
                            ">Backend worker failed: Worker &#39;agent&#39; error: boom</div>"));
             Send (MError VNull "WORKER_ERROR" "boom")])
    ∧ pending st' = [].
Proof.
  destruct (worker_error_fails_owned_requests sampleRuntime exPendingState
              "agent"
              {| info_name := "agent"; info_mode := "protocol";
                 info_ready := true |}
              (VStr "boom") "boom")
    as (st' & Hs & Hp & _).
  - apply reachable_exPendingState.
  - vm_compute; reflexivity.
  - reflexivity.
  - exists st'. split.
    + rewrite Hs. vm_compute; reflexivity.
    + rewrite Hp. vm_compute; reflexivity.
Defined.

Lemma step_hx_request rt st m :
  prop m "kind" = VStr "hx.request" →
  step rt st (EvMessage (VObj m)) = Some (handleHxRequest rt st m).
Proof. intros Hk. unfold step, onmessage. simpl. by rewrite Hk. Qed.

Lemma handleHxRequest_dispatch rt st msg rid path r def :
  prop msg "id" = VStr rid → rid ≠ "" →
  prop msg "path" = VStr path → path ≠ "" →
  matchRoute st path = Some r →
  workerDefs st !! worker r = Some def →
  handleHxRequest rt st msg =
  let method := match prop msg "method" with
                | VStr m => toUpperCase rt m
                | _ => "GET"
                end in
  let msg' := <[ "method" := VStr method ]> msg in
  match
    if String.eqb (mode def) "legacy-liboqs"
    then dispatchLegacyLiboqsRequest rt st rid r msg'
    else dispatchProtocolRequest rt st rid r msg'
  with
  | inr res => res
  | inl err =>
      (st, [sendHxResponse rid 500
              (div "fail" ("Router dispatch error: " +:+ escapeHtml err))
              htmlHeaders])
  end.
Proof.
  intros Hid Hrid Hpath Hne Hr Hdef. unfold handleHxRequest.
  rewrite (proj2 (nonEmptyString_Some _ rid)) by done.
  rewrite (proj2 (nonEmptyString_Some _ path)) by done.
  by rewrite Hr, Hdef.
Qed.

(** X6: a request whose route names a worker without definition is answered 500
    and nothing changes. *)
Theorem route_to_undefined_worker_yields_500 rt st msg rid path r :
  prop msg "kind" = VStr "hx.request" →
  prop msg "id" = VStr rid → rid ≠ "" →
  prop msg "path" = VStr path → path ≠ "" →
  matchRoute st path = Some r →
  workerDefs st !! worker r = None →
  step rt st (EvMessage (VObj msg))
  = Some (st, [Send (MHxResponse rid 500
                       (VObj {[ "Content-Type" := VStr "text/html; charset=utf-8" ]})
                       ("<div class=" +:+ String "034"%char "fail"
                        +:+ String "034"%char
                              ">Route targets undefined worker '"
                        +:+ escapeEach (worker r) +:+ "'.</div>"))]).
Proof.
  intros Hk Hid Hrid Hpath Hne Hr Hdef.
  rewrite step_hx_request by done. unfold handleHxRequest.
  rewrite (proj2 (nonEmptyString_Some _ rid)) by done.
  rewrite (proj2 (nonEmptyString_Some _ path)) by done.
  rewrite Hr, Hdef, escapeHtml_escapeEach. by_literal.
Qed.

Lemma route_to_undefined_worker_yields_500_witness :
  reachable sampleRuntime exDanglingState ∧
  step sampleRuntime exDanglingState
    (EvMessage (VObj (exRequest "g1" "/hx/ghost/boo")))
  = Some (exDanglingState,
          [Send (MHxResponse "g1" 500
                   (VObj {[ "Content-Type" := VStr "text/html; charset=utf-8" ]})
                   ("<div class=" +:+ String "034"%char "fail"
                    +:+ String "034"%char
                          ">Route targets undefined worker 'ghost'.</div>"))]).
Proof.
  split; [apply reachable_runFrom, reachable_init |].
  apply (route_to_undefined_worker_yields_500 sampleRuntime exDanglingState
           (exRequest "g1" "/hx/ghost/boo") "g1" "/hx/ghost/boo"
           {| prefix := "/hx/ghost"; worker := "ghost" |}).
  - vm_compute; reflexivity.
  - vm_compute; reflexivity.
  - discriminate.
  - vm_compute; reflexivity.
  - discriminate.
  - vm_compute; reflexivity.
  - vm_compute; reflexivity.
Defined.

(** X7: when the [Worker] constructor throws for a worker that has no session
    yet, the request is answered 500 with the (escaped) error text and
    nothing changes: no session is recorded, so the next request tries
    again. *)
Theorem worker_constructor_failure_yields_500 rt st msg rid path r def err :
  prop msg "kind" = VStr "hx.request" →
  prop msg "id" = VStr rid → rid ≠ "" →
  prop msg "path" = VStr path → path ≠ "" →
  matchRoute st path = Some r →
  workerDefs st !! worker r = Some def →
  workers st !! worker r = None →
  newWorkerThrows rt (url def) (type def) = Some err →
  step rt st (EvMessage (VObj msg))
  = Some (st, [Send (MHxResponse rid 500
                       (VObj {[ "Content-Type" := VStr "text/html; charset=utf-8" ]})
                       ("<div class=" +:+ String "034"%char "fail"
                        +:+ String "034"%char ">Router dispatch error: "
                        +:+ escapeEach err +:+ "</div>"))]).
Proof.
  intros Hk Hid Hrid Hpath Hne Hr Hdef Hw Hthrow.
  rewrite step_hx_request by done.
  rewrite (handleHxRequest_dispatch rt st msg rid path r def) by done.
  cbv zeta. unfold dispatchLegacyLiboqsRequest, dispatchProtocolRequest, ensureWorker.
  rewrite Hw, Hdef, Hthrow.
  destruct (String.eqb (mode def) "legacy-liboqs");
    rewrite escapeHtml_escapeEach; by_literal.
Qed.

Lemma worker_constructor_failure_yields_500_witness :
  step throwingRuntime exReadyState
    (EvMessage (VObj (exRequest "r0" "/hx/agent/ping")))
  = Some (exReadyState,
          [Send (MHxResponse "r0" 500
                   (VObj {[ "Content-Type" := VStr "text/html; charset=utf-8" ]})
                   ("<div class=" +:+ String "034"%char "fail"
                    +:+ String "034"%char
                          ">Router dispatch error: Failed to construct &#39;Worker&#39;: &lt;blocked&gt;</div>"))]).
Proof.
  apply (worker_constructor_failure_yields_500 throwingRuntime exReadyState
           (exRequest "r0" "/hx/agent/ping") "r0" "/hx/agent/ping"
           {| prefix := "/hx/agent"; worker := "agent" |}
           {| url := "/workers/agent.js"; mode := "protocol";
              type := "classic"; config := VObj ∅ |}
           "Failed to construct 'Worker': <blocked>").
  - vm_compute; reflexivity.
  - vm_compute; reflexivity.
  - discriminate.
  - vm_compute; reflexivity.
  - discriminate.
  - vm_compute; reflexivity.
  - vm_compute; reflexivity.
  - vm_compute; reflexivity.
  - reflexivity.
Defined.

Lemma mapSet_absent {V} k (v : V) m :
  mapGet k m = None → mapSet k v m = m ++ [(k, v)].
Proof.
  induction m as [|[k' v'] m IH]; simpl; [done |].
  destruct (String.eqb k' k); [done |]. intros H. by rewrite IH.
Qed.

(** Discharge the hypotheses of [H] by evaluation, one after the other. *)
Ltac discharge H :=
  repeat match type of H with
         | ?A → _ =>
             let h := fresh in
             assert (h : A) by first [vm_compute; reflexivity | discriminate];
             specialize (H h); clear h
         end.

(** Conclude from [H] when the goal is its evaluated form. *)
Ltac conclude_by_evaluation H :=
  discharge H; revert H; vm_compute; exact (fun H => H).

Lemma prop_insert_eq m k v : prop (<[k := v]> m) k = v.
Proof. unfold prop. by rewrite lookup_insert_eq. Qed.

Lemma prop_insert_ne m k k' v : k ≠ k' → prop (<[k := v]> m) k' = prop m k'.
Proof. intros. unfold prop. by rewrite lookup_insert_ne. Qed.

(** X8: a request for a ready native-mode session is forwarded, not answered:
    the worker gets the id, the method in upper case (GET when the request
    has none), the path, and headers, query, form and body with their
    defaults; a pending entry with a fresh timer is registered, last in the
    table when the id was not pending. *)
Theorem ready_worker_request_is_forwarded rt st msg rid path r def info :
  prop msg "kind" = VStr "hx.request" →
  prop msg "id" = VStr rid → rid ≠ "" →
  prop msg "path" = VStr path → path ≠ "" →
  matchRoute st path = Some r →
  workerDefs st !! worker r = Some def →
  mode def ≠ "legacy-liboqs" →
  workers st !! worker r = Some info →
  info_ready info = true →
  ∃ st',
    step rt st (EvMessage (VObj msg))
    = Some (st',
            [PostToWorker (info_name info)
               (WRequest rid
                  (VStr (match prop msg "method" with
                         | VStr m => toUpperCase rt m
                         | _ => "GET"
                         end))
                  (VStr path)
                  (match prop msg "headers" with VObj h => VObj h | _ => VObj ∅ end)
                  (match prop msg "query" with VObj q => VObj q | _ => VObj ∅ end)
                  (match prop msg "form" with VObj f => VObj f | _ => VObj ∅ end)
                  (match prop msg "body" with VStr b => b | _ => "" end))]) ∧
    mapGet rid (pending st')
    = Some {| workerName := worker r; timeoutId := nextTimerId st |} ∧
    timers st' !! nextTimerId st = Some rid ∧
    nextTimerId st' = S (nextTimerId st) ∧
    (mapGet rid (pending st) = None →
     pending st' = pending st ++ [(rid, {| workerName := worker r;
                                           timeoutId := nextTimerId st |})]).
Proof.
  intros Hk Hid Hrid Hpath Hne Hr Hdef Hmode Hw Hready.
  rewrite step_hx_request by done.
  rewrite (handleHxRequest_dispatch rt st msg rid path r def) by done.
  cbv zeta. apply String.eqb_neq in Hmode as ->.
  unfold dispatchProtocolRequest.
  rewrite (ensureWorker_existing _ _ _ _ Hw), Hready. simpl.
  eexists. split; [| split; [| split; [| split]]].
  - rewrite prop_insert_eq.
    rewrite (prop_insert_ne _ _ "path"), (prop_insert_ne _ _ "headers"),
      (prop_insert_ne _ _ "query"), (prop_insert_ne _ _ "form"),
      (prop_insert_ne _ _ "body") by done.
    rewrite Hpath. reflexivity.
  - simpl. apply mapGet_mapSet_eq.
  - simpl. apply lookup_insert_eq.
  - done.
  - simpl. apply mapSet_absent.
Qed.

Lemma ready_worker_request_is_forwarded_witness :
  ∃ st',
    step sampleRuntime exWarmState
      (EvMessage (VObj (<["method" := VStr "post"]>
                          (exRequest "r1" "/hx/agent/sign"))))
    = Some (st',
            [PostToWorker "agent"
               (WRequest "r1" (VStr "POST") (VStr "/hx/agent/sign")
                  (VObj ∅) (VObj ∅) (VObj ∅) "")]) ∧
    mapGet "r1" (pending st')
    = Some {| workerName := "agent"; timeoutId := 1 |} ∧
    timers st' !! 1 = Some "r1" ∧
    nextTimerId st' = 2 ∧
    (mapGet "r1" (pending exWarmState) = None →
     pending st' = pending exWarmState
                   ++ [("r1", {| workerName := "agent"; timeoutId := 1 |})]).
Proof.
  pose proof (ready_worker_request_is_forwarded sampleRuntime exWarmState
                (<["method" := VStr "post"]> (exRequest "r1" "/hx/agent/sign"))
                "r1" "/hx/agent/sign"
                {| prefix := "/hx/agent"; worker := "agent" |}
                {| url := "/workers/agent.js"; mode := "protocol";
                   type := "classic"; config := VObj ∅ |}
                {| info_name := "agent"; info_mode := "protocol";
                   info_ready := true |}) as H.
  conclude_by_evaluation H.
Defined.

(** X9: the legacy adapter creates the session before it looks at the path: a
    request for another path than the run endpoint, sent to a legacy worker
    that has no session, is answered 404 and still constructs the [Worker];
    the session is ready at once, no [worker.init] is posted, and the slot
    stays free. *)
Theorem legacy_unsupported_path_still_spawns_worker rt st msg rid path r def :
  reachable rt st →
  prop msg "kind" = VStr "hx.request" →
  prop msg "id" = VStr rid → rid ≠ "" →
  prop msg "path" = VStr path → path ≠ "" → path ≠ LEGACY_RUN_PATH →
  matchRoute st path = Some r →
  workerDefs st !! worker r = Some def →
  mode def = "legacy-liboqs" →
  workers st !! worker r = None →
  newWorkerThrows rt (url def) (type def) = None →
  step rt st (EvMessage (VObj msg))
  = Some (with_workers st
            (<[worker r := {| info_name := worker r;
                              info_mode := "legacy-liboqs";
                              info_ready := true |}]> (workers st)),
          [NewWorker (url def) (type def) ("router:" +:+ worker r);
           Send (MHxResponse rid 404
                   (VObj {[ "Content-Type" := VStr "text/html; charset=utf-8" ]})
                   ("<div class=" +:+ String "034"%char "fail"
                    +:+ String "034"%char
                          ">Legacy liboqs adapter only supports /hx/tests/liboqs/run.</div>"))]).
Proof.
  intros Hreach Hk Hid Hrid Hpath Hne Hother Hr Hdef Hmode Hw Hctor.
  destruct (reachable_invariant _ _ Hreach) as [Ha _ _ _].
  assert (activeLegacyByWorker st !! worker r = None) as Hfree.
  { destruct (activeLegacyByWorker st !! worker r) as [cur|] eqn:Hc; [| done].
    destruct (Ha _ _ Hc) as [_ [i Hi]]. congruence. }
  rewrite step_hx_request by done.
  rewrite (handleHxRequest_dispatch rt st msg rid path r def) by done.
  cbv zeta. rewrite Hmode. simpl.
  unfold dispatchLegacyLiboqsRequest, ensureWorker.
  rewrite Hw, Hdef, Hctor, Hmode. simpl. rewrite Hfree.
  rewrite (prop_insert_ne _ _ "path") by done. rewrite Hpath. simpl.
  by apply String.eqb_neq in Hother as ->.
Qed.

Lemma legacy_unsupported_path_still_spawns_worker_witness :
  step sampleRuntime exReadyState
    (EvMessage (VObj (exRequest "r7" "/hx/tests/liboqs/status")))
  = Some (with_workers exReadyState
            (<["liboqs" := {| info_name := "liboqs";
                              info_mode := "legacy-liboqs";
                              info_ready := true |}]> (workers exReadyState)),
          [NewWorker "/workers/liboqs_worker.js" "classic" "router:liboqs";
           Send (MHxResponse "r7" 404
                   (VObj {[ "Content-Type" := VStr "text/html; charset=utf-8" ]})
                   ("<div class=" +:+ String "034"%char "fail"
                    +:+ String "034"%char
                          ">Legacy liboqs adapter only supports /hx/tests/liboqs/run.</div>"))]).
Proof.
  apply (legacy_unsupported_path_still_spawns_worker sampleRuntime exReadyState
           (exRequest "r7" "/hx/tests/liboqs/status") "r7"
           "/hx/tests/liboqs/status"
           {| prefix := "/hx/tests/liboqs"; worker := "liboqs" |}
           {| url := "/workers/liboqs_worker.js"; mode := "legacy-liboqs";
              type := "classic"; config := VObj ∅ |}
           reachable_exReadyState).
  - vm_compute; reflexivity.
  - vm_compute; reflexivity.
  - discriminate.
  - vm_compute; reflexivity.
  - discriminate.
  - discriminate.
  - vm_compute; reflexivity.
  - vm_compute; reflexivity.
  - reflexivity.
  - vm_compute; reflexivity.
  - reflexivity.
Defined.

(** X10: what [self.onmessage] does with messages that are not requests; the
    state never changes.
    - [control.ping] is answered by [control.pong] with the id of the ping
      ([null] when it has none).
    - A falsy payload is taken for an empty object and answered by an
      [UNKNOWN_KIND] error that names the kind [undefined].
    - A truthy payload that is not a plain object is dropped without
      answer.
    - An object whose kind is none of [control.init], [control.ping] and
      [hx.request] is answered by an [UNKNOWN_KIND] error that quotes
      [String(msg.kind)] and carries the id of the message: the kind itself
      when it is a string, [undefined] when it is missing, [[object Object]]
      when it is an object without a [toString] property of its own.  When
      [String(msg.kind)] throws, as it does for an object with a [toString]
      property of its own, the handler ends with an uncaught exception and
      nothing is sent. *)
Theorem non_request_messages rt st data :
  (∀ m, data = VObj m → prop m "kind" = VStr "control.ping" →
        step rt st (EvMessage data)
        = Some (st, [Send (MControlPong (jsor (prop m "id") VNull))])) ∧
  (truthy data = false →
   step rt st (EvMessage data)
   = Some (st, [Send (MError VNull "UNKNOWN_KIND"
                        "Unsupported router message kind 'undefined'")])) ∧
  (truthy data = true → isObject data = false →
   step rt st (EvMessage data) = Some (st, [])) ∧
  (∀ m, data = VObj m →
        prop m "kind" ≠ VStr "control.init" →
        prop m "kind" ≠ VStr "control.ping" →
        prop m "kind" ≠ VStr "hx.request" →
        (∀ k, prop m "kind" = VStr k →
              step rt st (EvMessage data)
              = Some (st, [Send (MError (jsor (prop m "id") VNull)
                                   "UNKNOWN_KIND"
                                   ("Unsupported router message kind '"
                                    +:+ k +:+ "'"))])) ∧
        (prop m "kind" = VUndef →
         step rt st (EvMessage data)
         = Some (st, [Send (MError (jsor (prop m "id") VNull)
                              "UNKNOWN_KIND"
                              "Unsupported router message kind 'undefined'")])) ∧
        (∀ o, prop m "kind" = VObj o → o !! "toString" = None →
              step rt st (EvMessage data)
              = Some (st, [Send (MError (jsor (prop m "id") VNull)
                                   "UNKNOWN_KIND"
                                   "Unsupported router message kind '[object Object]'")])) ∧
        (∀ o, prop m "kind" = VObj o → is_Some (o !! "toString") →
              step rt st (EvMessage data) = Some (st, [Uncaught])) ∧
        (∀ k, toString rt (prop m "kind") = Some k →
              step rt st (EvMessage data)
              = Some (st, [Send (MError (jsor (prop m "id") VNull)
                                   "UNKNOWN_KIND"
                                   ("Unsupported router message kind '"
                                    +:+ k +:+ "'"))])) ∧
        (toString rt (prop m "kind") = None →
         step rt st (EvMessage data) = Some (st, [Uncaught]))).
Proof.
  assert (∀ v lit, v ≠ VStr lit → is_str v lit = false) as Hnot.
  { intros v lit Hv. destruct (is_str v lit) eqn:E; [| done].
    by apply is_str_true in E. }
  split; [| split; [| split]].
  - intros m -> Hk. unfold step, onmessage. simpl. by rewrite Hk.
  - intros Hf. unfold step, onmessage, jsor. by rewrite Hf.
  - intros Ht Ho. unfold step, onmessage, jsor. rewrite Ht.
    by destruct data.
  - intros m -> H1 H2 H3.
    assert (step rt st (EvMessage (VObj m))
            = Some match toString rt (prop m "kind") with
                   | Some kind =>
                       (st, [Send (MError (jsor (prop m "id") VNull)
                                     "UNKNOWN_KIND"
                                     ("Unsupported router message kind '"
                                      +:+ kind +:+ "'"))])
                   | None => (st, [Uncaught])
                   end) as Hs.
    { unfold step, onmessage. simpl. by rewrite !Hnot. }
    rewrite Hs. clear Hs.
    split; [| split; [| split; [| split; [| split]]]].
    + intros k ->. reflexivity.
    + intros ->. reflexivity.
    + intros o -> Ho. simpl. by rewrite Ho.
    + intros o -> [v Ho]. simpl. by rewrite Ho.
    + intros k ->. reflexivity.
    + intros ->. reflexivity.
Qed.

Lemma non_request_messages_witness :
  step sampleRuntime exWarmState
    (EvMessage (VObj (obj [("kind", VStr "control.ping"); ("id", VStr "p1")])))
  = Some (exWarmState, [Send (MControlPong (VStr "p1"))])
  ∧ step sampleRuntime exWarmState (EvMessage VNull)
    = Some (exWarmState,
            [Send (MError VNull "UNKNOWN_KIND"
                     "Unsupported router message kind 'undefined'")])
  ∧ step sampleRuntime exWarmState (EvMessage (VStr "hello"))
    = Some (exWarmState, [])
  ∧ step sampleRuntime exWarmState
      (EvMessage (VObj (obj [("kind", VStr "hx.cancel"); ("id", VStr "r1")])))
    = Some (exWarmState,
            [Send (MError (VStr "r1") "UNKNOWN_KIND"
                     "Unsupported router message kind 'hx.cancel'")])
  ∧ step sampleRuntime exWarmState
      (EvMessage (VObj (obj [("kind", VObj (obj [("toString", VNull)]))])))
    = Some (exWarmState, [Uncaught]).
Proof.
  split; [| split; [| split; [| split]]].
  - apply (proj1 (non_request_messages sampleRuntime exWarmState
                    (VObj (obj [("kind", VStr "control.ping"); ("id", VStr "p1")])))
             _ eq_refl).
    vm_compute; reflexivity.
  - apply (proj1 (proj2 (non_request_messages sampleRuntime exWarmState VNull))).
    reflexivity.
  - apply (proj1 (proj2 (proj2 (non_request_messages sampleRuntime exWarmState
                                  (VStr "hello"))))); reflexivity.
  - destruct (proj2 (proj2 (proj2 (non_request_messages sampleRuntime
               exWarmState
               (VObj (obj [("kind", VStr "hx.cancel"); ("id", VStr "r1")])))))
               _ eq_refl) as (Hstr & _).
    + vm_compute; discriminate.
    + vm_compute; discriminate.
    + vm_compute; discriminate.
    + apply (Hstr "hx.cancel"). vm_compute; reflexivity.
  - destruct (proj2 (proj2 (proj2 (non_request_messages sampleRuntime
               exWarmState
               (VObj (obj [("kind", VObj (obj [("toString", VNull)]))])))))
               _ eq_refl) as (_ & _ & _ & Hthrows & _).
    + vm_compute; discriminate.
    + vm_compute; discriminate.
    + vm_compute; discriminate.
    + apply (Hthrows (obj [("toString", VNull)])).
      * vm_compute; reflexivity.
      * exists VNull. vm_compute; reflexivity.
Defined.

(** X11: a message from a backend worker never makes the router start anything:
    it posts nothing to a worker and constructs none, it sends at most one
    message to the page, it creates no pending entry and no timer (at most
    one entry is removed, with its timer), and it leaves the
    configuration as it is. *)
Theorem worker_messages_start_nothing rt st name data st' out :
  step rt st (EvWorkerMessage name data) = Some (st', out) →
  (out = [] ∨ ∃ m, out = [Send m]) ∧
  (pending st' = pending st ∨ ∃ rid, pending st' = mapDelete rid (pending st)) ∧
  (∀ t rid, timers st' !! t = Some rid → timers st !! t = Some rid) ∧
  nextTimerId st' = nextTimerId st ∧
  sameConfig st st'.
Proof.
  unfold step. destruct (workers st !! name) as [info|]; [| done].
  intros [= Hs]. unfold workerOnmessage in Hs.
  pose proof (handleWorkerMessage_sameConfig st info (jsor data (VObj ∅))) as Hcfg.
  rewrite Hs in Hcfg.
  destruct (handleWorkerMessage_cases st info (jsor data (VObj ∅)))
    as [(o & He & Ho) | [(e & _ & He) | [(rid & ? & ? & ? & _ & _ & He) | (e & _ & He)]]];
    rewrite He in Hs; injection Hs as <- <-.
  - split; [| by repeat split; try left].
    destruct Ho as [-> | (? & ? & ? & [-> | [? ->]])]; [by left | right; eauto..].
  - split; [right; eauto |]. by repeat split; try left.
  - split; [right; eauto |].
    split; [right; exists rid; apply clearPending_pending |].
    split; [| split; [apply clearPending_frame | done]].
    intros t r. rewrite clearPending_timers.
    destruct (mapGet rid (pending st)); [| done].
    by intros [_ ?]%lookup_delete_Some.
  - split; [right; eauto |]. by repeat split; try left.
Qed.

Lemma worker_messages_start_nothing_witness :
  ∃ st' out,
    step sampleRuntime exPendingState
      (EvWorkerMessage "agent"
         (VObj (exResponse "r1" (VObj (obj [("status", VNum (JFin 200))])))))
    = Some (st', out) ∧
    (out = [] ∨ ∃ m, out = [Send m]) ∧
    (pending st' = pending exPendingState
     ∨ ∃ rid, pending st' = mapDelete rid (pending exPendingState)) ∧
    (∀ t rid, timers st' !! t = Some rid → timers exPendingState !! t = Some rid) ∧
    nextTimerId st' = nextTimerId exPendingState ∧
    sameConfig exPendingState st'.
Proof.
  destruct (step sampleRuntime exPendingState
              (EvWorkerMessage "agent"
                 (VObj (exResponse "r1" (VObj (obj [("status", VNum (JFin 200))]))))))
    as [[st' out]|] eqn:Hs; [| vm_compute in Hs; discriminate Hs].
  exists st', out. split; [done |].
  exact (worker_messages_start_nothing _ _ _ _ _ _ Hs).
Defined.

(** X12: the log batches and status reports of a legacy-mode session are passed to
    the page as [legacy.log_batch] and [legacy.status] events tagged with the
    request id that holds the worker's slot, and with [null] when the slot
    is free.  A batch carries the worker's name and the entries (none when
    the message has none) and changes nothing.  A status carries the
    worker's name, the state ([unknown] when the message has none) and the
    error when there is one; the states [done] and [error] free the slot,
    every other state changes nothing.  So the terminal status still
    carries the id, and a batch that arrives after it does not. *)
Theorem legacy_events_carry_slot_id rt st name info m :
  reachable rt st →
  workers st !! name = Some info →
  info_mode info = "legacy-liboqs" →
  let tag :=
    match activeLegacyByWorker st !! name with
    | Some rid => VStr rid
    | None => VNull
    end in
  (prop m "type" = VStr "log-batch" →
   step rt st (EvWorkerMessage name (VObj m))
   = Some (st, [Send (MEvent tag (VStr "legacy.log_batch")
                        (VObj (<[ "worker" := VStr name ]>
                               {[ "entries" :=
                                    jsor (prop m "entries") (VArr []) ]})))])) ∧
  (prop m "type" = VStr "status" →
   ∃ st',
     step rt st (EvWorkerMessage name (VObj m))
     = Some (st',
             [Send (MEvent tag (VStr "legacy.status")
                      (VObj (if truthy (prop m "error")
                             then <[ "error" := prop m "error" ]>
                                    (<[ "worker" := VStr name ]>
                                       {[ "state" :=
                                            jsor (prop m "state")
                                              (VStr "unknown") ]})
                             else <[ "worker" := VStr name ]>
                                    {[ "state" :=
                                         jsor (prop m "state")
                                           (VStr "unknown") ]})))]) ∧
     (prop m "state" = VStr "done" ∨ prop m "state" = VStr "error" →
      st' = with_activeLegacyByWorker st
              (delete name (activeLegacyByWorker st))) ∧
     (prop m "state" ≠ VStr "done" → prop m "state" ≠ VStr "error" →
      st' = st)).
Proof.
  intros Hreach Hw Hmode tag.
  destruct (reachable_invariant _ _ Hreach) as [Ha _ Hn _].
  pose proof (Hn _ _ Hw) as Hname.
  assert (activeRequestId st name = tag) as Htag.
  { unfold activeRequestId, tag.
    destruct (activeLegacyByWorker st !! name) as [rid|] eqn:Hc; [| done].
    destruct (Ha _ _ Hc) as [Hne _]. unfold jsor. simpl.
    by apply String.eqb_neq in Hne as ->. }
  assert (∀ v lit, v ≠ VStr lit → is_str v lit = false) as Hnot.
  { intros v lit Hv. destruct (is_str v lit) eqn:E; [| done].
    by apply is_str_true in E. }
  clearbody tag. split.
  - intros Hty. unfold step. rewrite Hw.
    unfold workerOnmessage, handleWorkerMessage. simpl. rewrite Hmode. simpl.
    unfold handleLegacyLiboqsMessage. rewrite Hty, Hname, Htag. reflexivity.
  - intros Hty. unfold step. rewrite Hw.
    unfold workerOnmessage, handleWorkerMessage. simpl. rewrite Hmode. simpl.
    unfold handleLegacyLiboqsMessage. rewrite Hty, Hname, Htag. simpl.
    eexists. split; [| split].
    + unfold sendEvent. by destruct (truthy (prop m "error")).
    + by intros [-> | ->].
    + intros H1 H2. by rewrite !Hnot.
Qed.

Lemma legacy_events_carry_slot_id_witness :
  step sampleRuntime exBusyState
    (EvWorkerMessage "liboqs"
       (VObj (obj [("type", VStr "log-batch"); ("entries", VArr [VStr "ok"])])))
  = Some (exBusyState,
          [Send (MEvent (VStr "r4") (VStr "legacy.log_batch")
                   (VObj (<[ "worker" := VStr "liboqs" ]>
                          {[ "entries" := VArr [VStr "ok"] ]})))])
  ∧ ∃ st',
      step sampleRuntime exBusyState
        (EvWorkerMessage "liboqs" (VObj (exStatus "done")))
      = Some (st',
              [Send (MEvent (VStr "r4") (VStr "legacy.status")
                       (VObj (<[ "worker" := VStr "liboqs" ]>
                              {[ "state" := VStr "done" ]})))]) ∧
      activeLegacyByWorker st' !! "liboqs" = None.
Proof.
  destruct (legacy_events_carry_slot_id sampleRuntime exBusyState "liboqs"
              {| info_name := "liboqs"; info_mode := "legacy-liboqs";
                 info_ready := true |}
              (obj [("type", VStr "log-batch"); ("entries", VArr [VStr "ok"])])
              reachable_exBusyState) as [Hlog _];
    [vm_compute; reflexivity | reflexivity |].
  destruct (legacy_events_carry_slot_id sampleRuntime exBusyState "liboqs"
              {| info_name := "liboqs"; info_mode := "legacy-liboqs";
                 info_ready := true |}
              (exStatus "done") reachable_exBusyState) as [_ Hstatus];
    [vm_compute; reflexivity | reflexivity |].
  split.
  - assert (prop (obj [("type", VStr "log-batch"); ("entries", VArr [VStr "ok"])])
              "type" = VStr "log-batch") as Hty by (vm_compute; reflexivity).
    specialize (Hlog Hty). revert Hlog. vm_compute. exact (fun H => H).
  - assert (prop (exStatus "done") "type" = VStr "status") as Hty
      by (vm_compute; reflexivity).
    destruct (Hstatus Hty) as (st' & Hs & Hfree & _).
    assert (prop (exStatus "done") "state" = VStr "done"
            ∨ prop (exStatus "done") "state" = VStr "error") as Hdone
      by (left; vm_compute; reflexivity).
    specialize (Hfree Hdone). subst st'.
    eexists. split.
    + revert Hs. vm_compute. exact (fun H => H).
    + vm_compute; reflexivity.
Defined.

Lemma with_workers_same st : with_workers st (workers st) = st.
Proof. by destruct st. Qed.

(** X13: [worker.ready] from a native-mode session marks that session ready and
    no other, and is announced to the page by one event; a second
    [worker.ready] changes nothing. *)
Theorem worker_ready_marks_session rt st name info m :
  reachable rt st →
  workers st !! name = Some info →
  info_mode info ≠ "legacy-liboqs" →
  prop m "kind" = VStr "worker.ready" →
  ∃ st',
    step rt st (EvWorkerMessage name (VObj m))
    = Some (st', [Send (MEvent VNull (VStr "worker.ready")
                          (VObj {[ "worker" := VStr name ]}))]) ∧
    workers st' !! name
    = Some {| info_name := name; info_mode := info_mode info;
              info_ready := true |} ∧
    (∀ w, w ≠ name → workers st' !! w = workers st !! w) ∧
    pending st' = pending st ∧
    (info_ready info = true → st' = st).
Proof.
  intros Hreach Hw Hmode Hk.
  destruct (reachable_invariant _ _ Hreach) as [_ _ Hn _].
  pose proof (Hn _ _ Hw) as Hname.
  unfold step. rewrite Hw. unfold workerOnmessage, handleWorkerMessage. simpl.
  apply String.eqb_neq in Hmode as ->.
  unfold handleProtocolWorkerMessage. rewrite Hk, Hname. simpl.
  eexists. split; [reflexivity |]. simpl.
  split; [apply lookup_insert_eq |].
  split; [intros w Hne; by rewrite lookup_insert_ne |].
  split; [done |].
  intros Hready. rewrite insert_id; [apply with_workers_same |].
  rewrite Hw. f_equal. destruct info; simpl in *. by subst.
Qed.

Lemma worker_ready_marks_session_witness :
  ∃ st',
    step sampleRuntime
      (runFrom sampleRuntime exReadyState
         [EvMessage (VObj (exRequest "r0" "/hx/agent/ping"))])
      (EvWorkerMessage "agent" (VObj exReady))
    = Some (st', [Send (MEvent VNull (VStr "worker.ready")
                          (VObj {[ "worker" := VStr "agent" ]}))]) ∧
    workers st' !! "agent"
    = Some {| info_name := "agent"; info_mode := "protocol";
              info_ready := true |}.
Proof.
  destruct (worker_ready_marks_session sampleRuntime
              (runFrom sampleRuntime exReadyState
                 [EvMessage (VObj (exRequest "r0" "/hx/agent/ping"))])
              "agent"
              {| info_name := "agent"; info_mode := "protocol";
                 info_ready := false |}
              exReady)
    as (st' & Hs & Hw & _).
  - apply reachable_runFrom, reachable_exReadyState.
  - vm_compute; reflexivity.
  - discriminate.
  - vm_compute; reflexivity.
  - exists st'. split; [exact Hs | exact Hw].
Defined.

(** X14: a request id that is dispatched twice can be answered twice.  When a
    ready native-mode session is given a request under an id that is already
    pending, and the worker then answers, the answer is passed on and the
    entry removed; the timer of the first dispatch is still live, and when it
    fires a second response, of status 504, is sent for the same id. *)
Theorem duplicate_id_is_answered_twice rt st rid r reqMsg info old m :
  reachable rt st →
  workers st !! worker r = Some info →
  info_ready info = true →
  info_mode info ≠ "legacy-liboqs" →
  mapGet rid (pending st) = Some old →
  prop m "kind" = VStr "worker.response" →
  prop m "id" = VStr rid →
  ∃ st1 req st2 status body headers st3,
    dispatchProtocolRequest rt st rid r reqMsg
    = inr (st1, [PostToWorker (info_name info) req]) ∧
    step rt st1 (EvWorkerMessage (worker r) (VObj m))
    = Some (st2, [Send (MHxResponse rid status headers body)]) ∧
    mapGet rid (pending st2) = None ∧
    step rt st2 (EvTimeout (timeoutId old))
    = Some (st3, [Send (MHxResponse rid 504
                          (VObj {[ "Content-Type" := VStr "text/html; charset=utf-8" ]})
                          ("<div class=" +:+ String "034"%char "fail"
                           +:+ String "034"%char
                                 ">Request timed out in router after "
                           +:+ numberToString rt
                                 (JFin (inject_Z (requestTimeoutMs st)))
                           +:+ "ms.</div>"))]) ∧
    pending st3 = pending st2.
Proof.
  intros Hreach Hw Hready Hmode Hold Hk Hid.
  destruct (reachable_invariant _ _ Hreach) as [_ Hpend _ Htim].
  destruct (Hpend _ _ Hold) as [Ht Hrid].
  pose proof (Htim _ _ Ht) as Hlt.
  unfold dispatchProtocolRequest.
  rewrite (ensureWorker_existing _ _ _ _ Hw), Hready. simpl.
  set (st1 := with_pending _ _).
  assert (mapGet rid (pending st1)
          = Some {| workerName := worker r; timeoutId := nextTimerId st |}) as Hp1
    by apply mapGet_mapSet_eq.
  assert (timers st1 !! timeoutId old = Some rid) as Ht1.
  { subst st1. simpl. rewrite lookup_insert_ne; [done | lia]. }
  assert (workers st1 !! worker r = Some info) as Hw1 by done.
  assert (requestTimeoutMs st1 = requestTimeoutMs st) as Hms1 by done.
  clearbody st1.
  assert (∃ status body headers,
            step rt st1 (EvWorkerMessage (worker r) (VObj m))
            = Some (clearPending st1 rid,
                    [Send (MHxResponse rid status headers body)]))
    as (status & body & headers & Hs2).
  { unfold step. rewrite Hw1. unfold workerOnmessage, handleWorkerMessage. simpl.
    apply String.eqb_neq in Hmode as ->.
    unfold handleProtocolWorkerMessage. rewrite Hk, Hid. simpl.
    apply String.eqb_neq in Hrid as Hrid'. rewrite Hrid'.
    unfold mapHas. rewrite Hp1. simpl. eauto. }
  set (st2 := clearPending st1 rid) in *.
  assert (mapGet rid (pending st2) = None) as Hp2 by apply clearPending_gone.
  assert (timers st2 !! timeoutId old = Some rid) as Ht2.
  { subst st2. rewrite clearPending_timers, Hp1. simpl.
    rewrite lookup_delete_ne; [done | lia]. }
  assert (requestTimeoutMs st2 = requestTimeoutMs st) as Hms2.
  { subst st2. destruct (clearPending_sameConfig st1 rid) as (_ & _ & ->).
    exact Hms1. }
  clearbody st2.
  eexists st1, _, st2, status, body, headers, _.
  split; [reflexivity |]. split; [exact Hs2 |].
  split; [exact Hp2 |]. split.
  - unfold step. rewrite Ht2. unfold timeoutCallback.
    cbn [requestTimeoutMs with_timers]. rewrite Hms2. by_literal.
  - rewrite clearPending_pending. simpl. by apply mapDelete_absent.
Qed.

Lemma duplicate_id_is_answered_twice_witness :
  ∃ st1 req st2 status body headers st3,
    dispatchProtocolRequest sampleRuntime exPendingState "r1"
      {| prefix := "/hx/agent"; worker := "agent" |}
      (exRequest "r1" "/hx/agent/verify")
    = inr (st1, [PostToWorker "agent" req]) ∧
    step sampleRuntime st1
      (EvWorkerMessage "agent" (VObj (exResponse "r1" VUndef)))
    = Some (st2, [Send (MHxResponse "r1" status headers body)]) ∧
    mapGet "r1" (pending st2) = None ∧
    step sampleRuntime st2 (EvTimeout 1)
    = Some (st3, [Send (MHxResponse "r1" 504
                          (VObj {[ "Content-Type" := VStr "text/html; charset=utf-8" ]})
                          ("<div class=" +:+ String "034"%char "fail"
                           +:+ String "034"%char
                                 ">Request timed out in router after 30000ms.</div>"))]) ∧
    pending st3 = pending st2.
Proof.
  apply (duplicate_id_is_answered_twice sampleRuntime exPendingState "r1"
           {| prefix := "/hx/agent"; worker := "agent" |}
           (exRequest "r1" "/hx/agent/verify")
           {| info_name := "agent"; info_mode := "protocol";
              info_ready := true |}
           {| workerName := "agent"; timeoutId := 1 |}
           (exResponse "r1" VUndef)
           reachable_exPendingState).
  - vm_compute; reflexivity.
  - reflexivity.
  - discriminate.
  - vm_compute; reflexivity.
  - vm_compute; reflexivity.
  - vm_compute; reflexivity.
Defined.

Lemma list_ascii_of_string_app s t :
  list_ascii_of_string (s +:+ t)
  = list_ascii_of_string s ++ list_ascii_of_string t.
Proof.
  induction s as [|a s IH]; [done |].
  rewrite string_app_cons. simpl. by rewrite IH.
Qed.

Lemma escapeChar_no_markup a c :
  c ∈ list_ascii_of_string (escapeChar a) →
  c ≠ "<"%char ∧ c ≠ ">"%char ∧ c ≠ "034"%char ∧ c ≠ "'"%char.
Proof.
  unfold escapeChar.
  destruct (Ascii.eqb_spec a "&"%char) as [_ | H1].
  { simpl. rewrite !elem_of_cons, elem_of_nil. intuition (subst; done). }
  destruct (Ascii.eqb_spec a "<"%char) as [_ | H2].
  { simpl. rewrite !elem_of_cons, elem_of_nil. intuition (subst; done). }
  destruct (Ascii.eqb_spec a ">"%char) as [_ | H3].
  { simpl. rewrite !elem_of_cons, elem_of_nil. intuition (subst; done). }
  destruct (Ascii.eqb_spec a "034"%char) as [_ | H4].
  { simpl. rewrite !elem_of_cons, elem_of_nil. intuition (subst; done). }
  destruct (Ascii.eqb_spec a "'"%char) as [_ | H5].
  { simpl. rewrite !elem_of_cons, elem_of_nil. intuition (subst; done). }
  simpl. rewrite elem_of_cons, elem_of_nil. intros [-> | []]. done.
Qed.

(** X15: the result of [escapeHtml] has no less-than, greater-than, double quote or
    apostrophe character, whatever the input. *)
Theorem escapeHtml_no_markup s c :
  c ∈ list_ascii_of_string (escapeHtml s) →
  c ≠ "<"%char ∧ c ≠ ">"%char ∧ c ≠ "034"%char ∧ c ≠ "'"%char.
Proof.
  rewrite escapeHtml_escapeEach.
  induction s as [|a s IH]; simpl.
  - intros H. by apply elem_of_nil in H.
  - rewrite list_ascii_of_string_app, elem_of_app.
    intros [H | H]; [by eapply escapeChar_no_markup | by apply IH].
Qed.

Lemma escapeHtml_no_markup_witness :
  "&"%char ≠ "<"%char ∧ "&"%char ≠ ">"%char
  ∧ "&"%char ≠ "034"%char ∧ "&"%char ≠ "'"%char.
Proof.
  apply (escapeHtml_no_markup "<b>" "&"%char).
  vm_compute. constructor.
Defined.

Lemma escapeChar_cons_inj a b s t :
  escapeChar a +:+ s = escapeChar b +:+ t → a = b ∧ s = t.
Proof.
  unfold escapeChar.
  destruct (Ascii.eqb_spec a "&"%char) as [-> | Ha1];
    [| destruct (Ascii.eqb_spec a "<"%char) as [-> | Ha2];
       [| destruct (Ascii.eqb_spec a ">"%char) as [-> | Ha3];
          [| destruct (Ascii.eqb_spec a "034"%char) as [-> | Ha4];
             [| destruct (Ascii.eqb_spec a "'"%char) as [-> | Ha5]]]]];
    (destruct (Ascii.eqb_spec b "&"%char) as [-> | Hb1];
     [| destruct (Ascii.eqb_spec b "<"%char) as [-> | Hb2];
        [| destruct (Ascii.eqb_spec b ">"%char) as [-> | Hb3];
           [| destruct (Ascii.eqb_spec b "034"%char) as [-> | Hb4];
              [| destruct (Ascii.eqb_spec b "'"%char) as [-> | Hb5]]]]]);
    rewrite ?string_app_cons, ?string_app_nil;
    intros H; try discriminate H;
    try (injection H as H; by split);
    try (injection H as <- H; by split);
    try (injection H as -> H; done).
Qed.

(** X16: [escapeHtml] loses nothing: two strings with the same escaped form are the
    same string. *)
Theorem escapeHtml_injective s t : escapeHtml s = escapeHtml t → s = t.
Proof.
  rewrite !escapeHtml_escapeEach. revert t.
  induction s as [|a s IH]; intros [|b t]; simpl; [done | | |].
  - unfold escapeChar. repeat case_match; rewrite ?string_app_cons; discriminate.
  - unfold escapeChar. repeat case_match; rewrite ?string_app_cons; discriminate.
  - intros [-> Hst]%escapeChar_cons_inj. f_equal. by apply IH.
Qed.

Lemma escapeHtml_injective_witness : "a<b" = "a" +:+ "<b".
Proof. apply (escapeHtml_injective "a<b" ("a" +:+ "<b")). reflexivity. Defined.

Lemma cleanRoutes_elem_of raw r :
  r ∈ cleanRoutes raw ↔
  ∃ o, VObj o ∈ raw ∧ prop o "prefix" = VStr (prefix r)
       ∧ prop o "worker" = VStr (worker r).
Proof.
  unfold cleanRoutes. rewrite list_elem_of_fmap. split.
  - intros (v & -> & Hv). apply list_elem_of_In, filter_In in Hv as [Hv Hok].
    apply list_elem_of_In in Hv.
    destruct v as [| | | | | |o]; try done. simpl in Hok. simpl.
    destruct (prop o "prefix") as [| | | |p| |] eqn:Ep; try done.
    destruct (prop o "worker") as [| | | |w| |] eqn:Ew; try done.
    exists o. by rewrite Ep, Ew.
  - intros (o & Hin & Hp & Hw). exists (VObj o). split.
    + simpl. rewrite Hp, Hw. by destruct r.
    + apply list_elem_of_In, filter_In. split; [by apply list_elem_of_In |].
      simpl. by rewrite Hp, Hw.
Qed.

(** X17: [normalizeRoutes] keeps exactly the well-formed entries, one binding for
    each, and orders them by descending prefix length; anything that is not
    an array gives no binding. *)
Theorem normalizeRoutes_sorted_exact routes :
  byLengthDesc (normalizeRoutes routes) ∧
  (isObject routes = true ∨ (∀ raw, routes ≠ VArr raw) →
   normalizeRoutes routes = []) ∧
  (∀ raw, routes = VArr raw →
     (∀ r, r ∈ normalizeRoutes routes ↔
           ∃ o, VObj o ∈ raw ∧ prop o "prefix" = VStr (prefix r)
                ∧ prop o "worker" = VStr (worker r)) ∧
     length (normalizeRoutes routes)
     = length (List.filter isRouteEntry raw)).
Proof.
  split; [| split].
  - destruct routes; simpl; try constructor. apply sortRoutes_sorted.
  - intros [Ho | Hno]; destruct routes; try done. by destruct (Hno items).
  - intros raw ->. simpl. split.
    + intros r. rewrite <- cleanRoutes_elem_of.
      by rewrite <- (sortRoutes_Permutation (cleanRoutes raw)).
    + rewrite <- (sortRoutes_Permutation (cleanRoutes raw)).
      unfold cleanRoutes. by rewrite length_map.
Qed.

Lemma normalizeRoutes_sorted_exact_witness :
  byLengthDesc (normalizeRoutes (prop exInit "routes"))
  ∧ normalizeRoutes (VStr "/hx/agent") = []
  ∧ length (normalizeRoutes (prop exInit "routes")) = 3.
Proof.
  destruct (normalizeRoutes_sorted_exact (prop exInit "routes"))
    as (Hsorted & _ & Hraw).
  destruct (normalizeRoutes_sorted_exact (VStr "/hx/agent"))
    as (_ & Hother & _).
  split; [exact Hsorted |]. split.
  - apply Hother. right. intros raw. discriminate.
  - destruct (Hraw [VObj (obj [("prefix", VStr "/hx/agent");
                               ("worker", VStr "agent")]);
                    VObj (obj [("prefix", VStr "/hx/tests/liboqs");
                               ("worker", VStr "liboqs")]);
                    VObj (obj [("prefix", VStr "/hx/tests/liboqs");
                               ("worker", VStr "agent")]);
                    VObj (obj [("prefix", VNum (JFin 7));
                               ("worker", VStr "agent")])])
      as [_ Hlen].
    + vm_compute; reflexivity.
    + rewrite Hlen. vm_compute; reflexivity.
Defined.

Lemma find_is_Some {A} (f : A → bool) l x :
  x ∈ l → f x = true → is_Some (List.find f l).
Proof.
  induction l as [|a l IH]; simpl.
  - intros H. by apply elem_of_nil in H.
  - intros [-> | Hin]%elem_of_cons Hx.
    + rewrite Hx. by eexists.
    + destruct (f a); [by eexists | auto].
Qed.

(** X18: a binding with the empty prefix is accepted and catches every path: once
    it is configured, [matchRoute] never misses. *)
Theorem empty_prefix_catches_all st msg raw o path :
  prop msg "routes" = VArr raw →
  VObj o ∈ raw →
  prop o "prefix" = VStr "" →
  (∃ w, prop o "worker" = VStr w) →
  is_Some (matchRoute (applyInit st msg) path).
Proof.
  intros Hr Hin Hp [w Hw]. unfold matchRoute.
  rewrite (applyInit_routes _ _ _ Hr).
  apply (find_is_Some _ _ {| prefix := ""; worker := w |}).
  - rewrite <- (sortRoutes_Permutation (cleanRoutes raw)).
    apply cleanRoutes_elem_of. by exists o.
  - simpl. unfold startsWith. by destruct path.
Qed.

Lemma empty_prefix_catches_all_witness :
  is_Some (matchRoute
             (applyInit initialState
                (obj [("routes",
                       VArr [VObj (obj [("prefix", VStr "/hx/agent");
                                        ("worker", VStr "agent")]);
                             VObj (obj [("prefix", VStr "");
                                        ("worker", VStr "fallback")])])]))
             "/anything/else").
Proof.
  apply (empty_prefix_catches_all initialState
           (obj [("routes",
                  VArr [VObj (obj [("prefix", VStr "/hx/agent");
                                   ("worker", VStr "agent")]);
                        VObj (obj [("prefix", VStr "");
                                   ("worker", VStr "fallback")])])])
           [VObj (obj [("prefix", VStr "/hx/agent"); ("worker", VStr "agent")]);
            VObj (obj [("prefix", VStr ""); ("worker", VStr "fallback")])]
           (obj [("prefix", VStr ""); ("worker", VStr "fallback")])).
  - vm_compute; reflexivity.
  - apply elem_of_cons. right. apply elem_of_cons. by left.
  - vm_compute; reflexivity.
  - exists "fallback". vm_compute; reflexivity.
Defined.

Lemma applyInit_config_shape st msg :
  byLengthDesc (routes st) → (0 ≤ requestTimeoutMs st)%Z →
  byLengthDesc (routes (applyInit st msg)) ∧
  (0 ≤ requestTimeoutMs (applyInit st msg))%Z.
Proof.
  intros Hs Ht. unfold applyInit.
  assert (∀ q, negb (Qle_bool q 0) = true → (0 ≤ Qfloor q)%Z) as Hfloor.
  { intros q Hq. apply negb_true_iff in Hq.
    destruct (Qlt_le_dec 0 q) as [Hlt | Hle].
    - apply Qlt_le_weak in Hlt. apply Qfloor_resp_le in Hlt. exact Hlt.
    - apply Qle_bool_iff in Hle. congruence. }
  destruct (prop msg "routes") as [| | | | |raw|];
    destruct (prop msg "workers") as [| | | | | |ws];
    destruct (prop msg "requestTimeoutMs") as [| | |[| |q]| | |];
    try destruct (negb (Qle_bool q 0)) eqn:Hq; simpl;
    try (split; first [done | apply sortRoutes_sorted | by apply Hfloor]).
Qed.

(** X19: in every reachable state the route list is ordered by descending prefix
    length and the request timeout is a non-negative integer. *)
Theorem reachable_configuration_shape rt st :
  reachable rt st →
  byLengthDesc (routes st) ∧ (0 ≤ requestTimeoutMs st)%Z.
Proof.
  induction 1 as [| st ev st' out _ IH Hs].
  - split; [constructor | done].
  - destruct (isControlInit ev) eqn:Hk.
    + destruct ev as [data| | |]; try done. simpl in Hk.
      unfold step, onmessage in Hs.
      destruct (jsor data (VObj ∅)) as [| | | | | |m]; try done.
      rewrite Hk in Hs. injection Hs as <- _.
      destruct IH. by apply applyInit_config_shape.
    + destruct (step_sameConfig _ _ _ _ _ Hs Hk) as (-> & _ & ->).
      done.
Qed.

Lemma reachable_configuration_shape_witness :
  byLengthDesc (routes exReadyState) ∧ (0 ≤ requestTimeoutMs exReadyState)%Z.
Proof.
  apply (reachable_configuration_shape sampleRuntime exReadyState).
  apply reachable_exReadyState.
Defined.

(** ** The legacy liboqs worker *)

Lemma worker_flushLogs_spec st :
  LiboqsWorker.posted (snd (LiboqsWorker.flushLogs st))
  ++ LiboqsWorker.logBuffer (fst (LiboqsWorker.flushLogs st))
  = LiboqsWorker.logBuffer st ∧
  LiboqsWorker.logBuffer (fst (LiboqsWorker.flushLogs st)) = [] ∧
  LiboqsWorker.statuses (snd (LiboqsWorker.flushLogs st)) = [] ∧
  LiboqsWorker.pyodideReady (fst (LiboqsWorker.flushLogs st))
  = LiboqsWorker.pyodideReady st ∧
  LiboqsWorker.running (fst (LiboqsWorker.flushLogs st))
  = LiboqsWorker.running st ∧
  LiboqsWorker.handler (fst (LiboqsWorker.flushLogs st))
  = LiboqsWorker.handler st ∧
  (LiboqsWorker.batches (snd (LiboqsWorker.flushLogs st)) = []
   ∨ (LiboqsWorker.logBuffer st ≠ []
      ∧ LiboqsWorker.batches (snd (LiboqsWorker.flushLogs st))
        = [LiboqsWorker.logBuffer st])).
Proof.
  unfold LiboqsWorker.flushLogs, LiboqsWorker.posted.
  destruct (LiboqsWorker.logBuffer st) as [|e b] eqn:E; simpl.
  - rewrite E. do 6 (split; [done |]). by left.
  - rewrite !app_nil_r. do 6 (split; [done |]). by right.
Qed.

(** One step: the entries posted, with those still buffered, are the entries
    that were buffered and the one that was logged. *)
Lemma worker_step_conserves_logs st ev res :
  LiboqsWorker.step st ev = Some res →
  LiboqsWorker.posted (snd res) ++ LiboqsWorker.logBuffer (fst res)
  = LiboqsWorker.logBuffer st ++ LiboqsWorker.logged [ev].
Proof.
  assert (∀ s err,
            LiboqsWorker.posted (snd (LiboqsWorker.finish s err))
            ++ LiboqsWorker.logBuffer (fst (LiboqsWorker.finish s err))
            = LiboqsWorker.logBuffer s) as Hfin.
  { intros s err. unfold LiboqsWorker.finish, LiboqsWorker.posted,
      LiboqsWorker.batches. simpl. rewrite omap_app. simpl.
    rewrite app_nil_r. apply (worker_flushLogs_spec s). }
  assert (∀ s err,
            LiboqsWorker.posted (snd (LiboqsWorker.afterInit s err))
            ++ LiboqsWorker.logBuffer (fst (LiboqsWorker.afterInit s err))
            = LiboqsWorker.logBuffer s) as Haft.
  { intros s [e|]; [apply Hfin | done]. }
  destruct ev as [data | entry | | | err | err]; unfold LiboqsWorker.step;
    cbn [LiboqsWorker.logged omap list_omap]; rewrite ?app_nil_r.
  - intros [= <-]. unfold LiboqsWorker.onmessage.
    match goal with |- context [negb ?b] => destruct (negb b) end; [done |].
    destruct (LiboqsWorker.running st); [done |].
    cbn [LiboqsWorker.pyodideReady LiboqsWorker.with_handler].
    destruct (LiboqsWorker.pyodideReady st) as [| | |e]; try done.
    apply (Haft (LiboqsWorker.with_handler st true (LiboqsWorker.handler st))
             (Some e)).
  - intros [= <-]. unfold LiboqsWorker.enqueueLog.
    destruct (Nat.leb _ _); [| done].
    apply (worker_flushLogs_spec
             (LiboqsWorker.with_logBuffer st (LiboqsWorker.logBuffer st ++ [entry]))).
  - intros [= <-]. apply (worker_flushLogs_spec st).
  - intros [= <-]. unfold LiboqsWorker.intervalCallback.
    destruct (Nat.ltb _ _); [apply (worker_flushLogs_spec st) | done].
  - destruct (LiboqsWorker.pyodideReady st); try done.
    destruct (LiboqsWorker.handler st); intros [= <-]; try done.
    apply (Haft (LiboqsWorker.with_pyodideReady st (LiboqsWorker.settled err)) err).
  - destruct (LiboqsWorker.handler st); try done.
    intros [= <-]. apply Hfin.
Qed.

Lemma worker_posted_app o1 o2 :
  LiboqsWorker.posted (o1 ++ o2)
  = LiboqsWorker.posted o1 ++ LiboqsWorker.posted o2.
Proof.
  unfold LiboqsWorker.posted, LiboqsWorker.batches.
  by rewrite omap_app, concat_app.
Qed.

Lemma worker_run_conserves_logs evs st :
  LiboqsWorker.posted (snd (LiboqsWorker.run st evs))
  ++ LiboqsWorker.logBuffer (fst (LiboqsWorker.run st evs))
  = LiboqsWorker.logBuffer st ++ LiboqsWorker.logged evs.
Proof.
  revert st. induction evs as [|ev evs IH]; intros st; cbn [LiboqsWorker.run].
  - simpl. by rewrite app_nil_r.
  - assert (LiboqsWorker.logged (ev :: evs)
            = LiboqsWorker.logged [ev] ++ LiboqsWorker.logged evs) as ->.
    { unfold LiboqsWorker.logged. by rewrite <- omap_app. }
    destruct (LiboqsWorker.step st ev) as [[st' out]|] eqn:Hs.
    + pose proof (worker_step_conserves_logs _ _ _ Hs) as Hstep.
      cbn [fst snd] in *.
      by rewrite worker_posted_app, <- app_assoc, IH, app_assoc, Hstep, app_assoc.
    + rewrite IH. f_equal.
      destruct ev; simpl in *; try done.
Qed.

(** X20: the worker loses no log entry and keeps their order: at any moment the
    entries of the batches posted so far, followed by the buffer, are the
    entries that were logged, in the order they were logged. *)
Theorem liboqs_worker_logs_are_conserved evs :
  LiboqsWorker.posted (snd (LiboqsWorker.run LiboqsWorker.initialState evs))
  ++ LiboqsWorker.logBuffer (fst (LiboqsWorker.run LiboqsWorker.initialState evs))
  = LiboqsWorker.logged evs.
Proof. apply (worker_run_conserves_logs evs LiboqsWorker.initialState). Qed.

Lemma worker_initialState_consistent :
  LiboqsWorker.consistent LiboqsWorker.initialState.
Proof. constructor; simpl; try done. unfold LiboqsWorker.LOG_BATCH_MAX. lia. Qed.

Lemma worker_flushLogs_consistent st :
  (length (LiboqsWorker.logBuffer st) ≤ LiboqsWorker.LOG_BATCH_MAX) →
  (LiboqsWorker.running st = true ↔ LiboqsWorker.handler st ≠ LiboqsWorker.Idle) →
  (LiboqsWorker.pyodideReady st = LiboqsWorker.Pending →
   LiboqsWorker.handler st = LiboqsWorker.AwaitInit) →
  (LiboqsWorker.handler st = LiboqsWorker.AwaitInit →
   LiboqsWorker.pyodideReady st = LiboqsWorker.Pending) →
  (LiboqsWorker.handler st = LiboqsWorker.AwaitRun →
   LiboqsWorker.pyodideReady st = LiboqsWorker.Fulfilled) →
  LiboqsWorker.consistent (fst (LiboqsWorker.flushLogs st)).
Proof.
  intros Hlen H1 H2 H3 H4.
  destruct (worker_flushLogs_spec st) as (_ & Eb & _ & Ei & Er & Eh & _).
  constructor; rewrite ?Ei, ?Er, ?Eh, ?Eb; try done.
  simpl. unfold LiboqsWorker.LOG_BATCH_MAX. lia.
Qed.

Lemma worker_finish_consistent st err :
  LiboqsWorker.pyodideReady st ≠ LiboqsWorker.Pending →
  LiboqsWorker.consistent (fst (LiboqsWorker.finish st err)).
Proof.
  intros Hp. unfold LiboqsWorker.finish. simpl.
  destruct (worker_flushLogs_spec st) as (_ & Eb & _ & Ei & _).
  constructor; simpl; rewrite ?Ei, ?Eb; try done.
  simpl. unfold LiboqsWorker.LOG_BATCH_MAX. lia.
Qed.

Lemma worker_step_consistent st ev res :
  LiboqsWorker.consistent st →
  LiboqsWorker.step st ev = Some res →
  LiboqsWorker.consistent (fst res).
Proof.
  intros Hc. pose proof Hc as [Hr Hp Hi Hu Hb].
  destruct ev as [data | entry | | | err | err]; unfold LiboqsWorker.step.
  - intros [= <-]. unfold LiboqsWorker.onmessage.
    match goal with |- context [negb ?b] => destruct (negb b) end; [done |].
    destruct (LiboqsWorker.running st) eqn:Hrun; [done |].
    assert (LiboqsWorker.handler st = LiboqsWorker.Idle) as Hidle.
    { destruct (LiboqsWorker.handler st) eqn:Hh; [done | |];
        (assert (false = true) by (apply Hr; done); done). }
    cbn [LiboqsWorker.pyodideReady LiboqsWorker.with_handler].
    destruct (LiboqsWorker.pyodideReady st) as [| | |e] eqn:Hpy.
    + constructor; simpl; try done.
    + rewrite Hp in Hidle; done.
    + constructor; simpl; try done. by rewrite Hpy.
    + cbn [fst LiboqsWorker.afterInit].
      apply worker_finish_consistent. simpl. by rewrite Hpy.
  - intros [= <-]. unfold LiboqsWorker.enqueueLog.
    destruct (Nat.leb_spec LiboqsWorker.LOG_BATCH_MAX
                (length (LiboqsWorker.logBuffer
                   (LiboqsWorker.with_logBuffer st
                      (LiboqsWorker.logBuffer st ++ [entry]))))) as [Hge | Hlt].
    + apply worker_flushLogs_consistent; simpl; try done.
      rewrite length_app. simpl. lia.
    + constructor; simpl; try done.
  - intros [= <-]. apply worker_flushLogs_consistent; try done. lia.
  - intros [= <-]. unfold LiboqsWorker.intervalCallback.
    destruct (Nat.ltb _ _); [| done].
    apply worker_flushLogs_consistent; try done. lia.
  - destruct (LiboqsWorker.pyodideReady st) eqn:Hpy; try done.
    pose proof (Hp eq_refl) as Hh.
    assert (LiboqsWorker.running st = true) as Hrun by (apply Hr; by rewrite Hh).
    rewrite Hh. intros [= <-].
    destruct err as [e|]; cbn [LiboqsWorker.afterInit LiboqsWorker.settled].
    + apply worker_finish_consistent. done.
    + constructor; simpl; done.
  - destruct (LiboqsWorker.handler st) eqn:Hh; try done.
    intros [= <-]. apply worker_finish_consistent.
    rewrite Hu by done. done.
Qed.

Lemma worker_run_consistent evs st :
  LiboqsWorker.consistent st →
  LiboqsWorker.consistent (fst (LiboqsWorker.run st evs)).
Proof.
  revert st. induction evs as [|ev evs IH]; intros st Hc;
    cbn [LiboqsWorker.run]; [done |].
  destruct (LiboqsWorker.step st ev) as [[st' out]|] eqn:Hs; [| by apply IH].
  cbn [fst]. apply IH. by apply (worker_step_consistent _ _ _ Hc Hs).
Qed.

Lemma worker_batches_app o1 o2 :
  LiboqsWorker.batches (o1 ++ o2)
  = LiboqsWorker.batches o1 ++ LiboqsWorker.batches o2.
Proof. apply omap_app. Qed.

Lemma worker_statuses_app o1 o2 :
  LiboqsWorker.statuses (o1 ++ o2)
  = LiboqsWorker.statuses o1 ++ LiboqsWorker.statuses o2.
Proof. apply omap_app. Qed.

(** The batches of one step, for a buffer within its bound. *)
Lemma worker_step_batches st ev res :
  length (LiboqsWorker.logBuffer st) < LiboqsWorker.LOG_BATCH_MAX →
  LiboqsWorker.step st ev = Some res →
  Forall (fun b => 1 ≤ length b ≤ LiboqsWorker.LOG_BATCH_MAX)
    (LiboqsWorker.batches (snd res)).
Proof.
  intros Hb.
  assert (∀ s, 0 < length (LiboqsWorker.logBuffer s) →
               length (LiboqsWorker.logBuffer s) ≤ LiboqsWorker.LOG_BATCH_MAX →
               Forall (fun b => 1 ≤ length b ≤ LiboqsWorker.LOG_BATCH_MAX)
                 (LiboqsWorker.batches (snd (LiboqsWorker.flushLogs s)))) as Hflush.
  { intros s H0 H1. unfold LiboqsWorker.flushLogs.
    destruct (LiboqsWorker.logBuffer s) as [|e b] eqn:E; simpl; [constructor |].
    constructor; [simpl in *; lia | constructor]. }
  assert (∀ s, length (LiboqsWorker.logBuffer s) < LiboqsWorker.LOG_BATCH_MAX →
               Forall (fun b => 1 ≤ length b ≤ LiboqsWorker.LOG_BATCH_MAX)
                 (LiboqsWorker.batches (snd (LiboqsWorker.flushLogs s)))) as Hflush'.
  { intros s H1. destruct (LiboqsWorker.logBuffer s) as [|e b] eqn:E.
    - unfold LiboqsWorker.flushLogs. rewrite E. constructor.
    - apply Hflush; rewrite ?E; simpl in *; lia. }
  assert (∀ s err, length (LiboqsWorker.logBuffer s) < LiboqsWorker.LOG_BATCH_MAX →
               Forall (fun b => 1 ≤ length b ≤ LiboqsWorker.LOG_BATCH_MAX)
                 (LiboqsWorker.batches (snd (LiboqsWorker.finish s err)))) as Hfin.
  { intros s err H1. unfold LiboqsWorker.finish. cbn [snd].
    rewrite worker_batches_app. simpl. rewrite app_nil_r. by apply Hflush'. }
  destruct ev as [data | entry | | | err | err]; unfold LiboqsWorker.step.
  - intros [= <-]. unfold LiboqsWorker.onmessage.
    match goal with |- context [negb ?b] => destruct (negb b) end; [constructor |].
    destruct (LiboqsWorker.running st); [constructor |].
    cbn [LiboqsWorker.pyodideReady LiboqsWorker.with_handler].
    destruct (LiboqsWorker.pyodideReady st) as [| | |e]; try constructor.
    cbn [snd LiboqsWorker.afterInit].
    apply (Hfin (LiboqsWorker.with_handler st true (LiboqsWorker.handler st))
             (Some e)). done.
  - intros [= <-]. unfold LiboqsWorker.enqueueLog.
    destruct (Nat.leb_spec LiboqsWorker.LOG_BATCH_MAX
                (length (LiboqsWorker.logBuffer
                   (LiboqsWorker.with_logBuffer st
                      (LiboqsWorker.logBuffer st ++ [entry]))))) as [Hge | Hlt];
      [| constructor].
    apply Hflush; simpl in *; rewrite length_app in *; simpl in *; lia.
  - intros [= <-]. by apply Hflush'.
  - intros [= <-]. unfold LiboqsWorker.intervalCallback.
    destruct (Nat.ltb _ _); [by apply Hflush' | constructor].
  - destruct (LiboqsWorker.pyodideReady st); try done.
    destruct (LiboqsWorker.handler st); intros [= <-]; try constructor.
    destruct err as [e|]; [| constructor].
    apply (Hfin (LiboqsWorker.with_pyodideReady st (LiboqsWorker.Rejected e))
             (Some e)). done.
  - destruct (LiboqsWorker.handler st); try done.
    intros [= <-]. by apply Hfin.
Qed.

Lemma worker_run_batches evs st :
  LiboqsWorker.consistent st →
  Forall (fun b => 1 ≤ length b ≤ LiboqsWorker.LOG_BATCH_MAX)
    (LiboqsWorker.batches (snd (LiboqsWorker.run st evs))).
Proof.
  revert st. induction evs as [|ev evs IH]; intros st Hc;
    cbn [LiboqsWorker.run]; [constructor |].
  destruct (LiboqsWorker.step st ev) as [[st' out]|] eqn:Hs; [| by apply IH].
  cbn [snd]. rewrite worker_batches_app. apply Forall_app. split.
  - apply (worker_step_batches st ev (st', out)); [by destruct Hc | done].
  - apply IH. by apply (worker_step_consistent _ _ _ Hc Hs).
Qed.

(** X21: every log batch the worker posts has between 1 and 40 entries, and
    fewer than 40 entries are buffered after any turn. *)
Theorem liboqs_worker_batches_are_bounded evs :
  Forall (fun b => 1 ≤ length b ≤ 40)
    (LiboqsWorker.batches (snd (LiboqsWorker.run LiboqsWorker.initialState evs)))
  ∧ length (LiboqsWorker.logBuffer
              (fst (LiboqsWorker.run LiboqsWorker.initialState evs))) < 40.
Proof.
  split.
  - apply worker_run_batches, worker_initialState_consistent.
  - apply (worker_run_consistent evs _ worker_initialState_consistent).
Qed.

Lemma worker_protocolRun_app h l1 l2 :
  LiboqsWorker.protocolRun h (l1 ++ l2)
  = LiboqsWorker.protocolRun h l1 ≫= (fun h' => LiboqsWorker.protocolRun h' l2).
Proof.
  revert h. induction l1 as [|s l1 IH]; intros h; simpl; [done |].
  destruct (LiboqsWorker.protocolStep h s); [apply IH | done].
Qed.

Lemma worker_finish_statuses st err :
  LiboqsWorker.statuses (snd (LiboqsWorker.finish st err))
  = [match err with None => "done" | Some _ => "error" end].
Proof.
  unfold LiboqsWorker.finish. cbn [snd]. rewrite worker_statuses_app.
  by destruct (worker_flushLogs_spec st) as (_ & _ & -> & _).
Qed.

(** The reports of one step follow the protocol from the handler's point
    before the step to its point after it. *)
Lemma worker_step_protocol st ev res :
  LiboqsWorker.consistent st →
  LiboqsWorker.step st ev = Some res →
  LiboqsWorker.protocolRun (LiboqsWorker.handler st)
    (LiboqsWorker.statuses (snd res))
  = Some (LiboqsWorker.handler (fst res)).
Proof.
  intros [Hr Hp Hi Hu Hb].
  assert (∀ s, LiboqsWorker.statuses (snd (LiboqsWorker.flushLogs s)) = []
               ∧ LiboqsWorker.handler (fst (LiboqsWorker.flushLogs s))
                 = LiboqsWorker.handler s) as Hflush.
  { intros s. by destruct (worker_flushLogs_spec s) as (_ & _ & -> & _ & _ & -> & _). }
  destruct ev as [data | entry | | | err | err]; unfold LiboqsWorker.step.
  - intros [= <-]. unfold LiboqsWorker.onmessage.
    match goal with |- context [negb ?b] => destruct (negb b) end; [done |].
    destruct (LiboqsWorker.running st) eqn:Hrun.
    { simpl. assert (LiboqsWorker.handler st ≠ LiboqsWorker.Idle) by by apply Hr.
      by destruct (LiboqsWorker.handler st). }
    assert (LiboqsWorker.handler st = LiboqsWorker.Idle) as ->.
    { destruct (LiboqsWorker.handler st) eqn:Hh; [done | |];
        (assert (false = true) by (apply Hr; done); done). }
    cbn [LiboqsWorker.pyodideReady LiboqsWorker.with_handler].
    destruct (LiboqsWorker.pyodideReady st) as [| | |e]; try done.
    cbn [fst snd LiboqsWorker.afterInit LiboqsWorker.statuses omap list_omap].
    fold (LiboqsWorker.statuses
            (snd (LiboqsWorker.finish
                    (LiboqsWorker.with_handler st true LiboqsWorker.Idle) (Some e)))).
    by rewrite worker_finish_statuses.
  - intros [= <-]. unfold LiboqsWorker.enqueueLog.
    destruct (Nat.leb _ _); [| done].
    by destruct (Hflush (LiboqsWorker.with_logBuffer st
                           (LiboqsWorker.logBuffer st ++ [entry]))) as [-> ->].
  - intros [= <-]. by destruct (Hflush st) as [-> ->].
  - intros [= <-]. unfold LiboqsWorker.intervalCallback.
    destruct (Nat.ltb _ _); [| done]. by destruct (Hflush st) as [-> ->].
  - destruct (LiboqsWorker.pyodideReady st) eqn:Hpy; try done.
    rewrite (Hp eq_refl). intros [= <-].
    destruct err as [e|]; [| done].
    cbn [LiboqsWorker.afterInit]. by rewrite worker_finish_statuses.
  - destruct (LiboqsWorker.handler st) eqn:Hh; try done.
    intros [= <-]. rewrite worker_finish_statuses. by destruct err.
Qed.

Lemma worker_run_protocol evs st :
  LiboqsWorker.consistent st →
  LiboqsWorker.protocolRun (LiboqsWorker.handler st)
    (LiboqsWorker.statuses (snd (LiboqsWorker.run st evs)))
  = Some (LiboqsWorker.handler (fst (LiboqsWorker.run st evs))).
Proof.
  revert st. induction evs as [|ev evs IH]; intros st Hc;
    cbn [LiboqsWorker.run]; [done |].
  destruct (LiboqsWorker.step st ev) as [[st' out]|] eqn:Hs; [| by apply IH].
  cbn [fst snd]. rewrite worker_statuses_app, worker_protocolRun_app.
  pose proof (worker_step_protocol _ _ _ Hc Hs) as Hp. cbn [fst snd] in Hp.
  rewrite Hp. simpl.
  apply IH. by apply (worker_step_consistent _ _ _ Hc Hs).
Qed.

(** X22: the status reports of the worker follow one protocol, whatever happens:
    [starting] opens a run and is only sent when no run is in progress;
    [running] follows at most once; [done] or [error] closes the run;
    [busy] is only sent while a run is in progress and changes nothing.  So
    runs never overlap and every run is closed before the next is opened. *)
Theorem liboqs_worker_status_protocol evs :
  LiboqsWorker.protocolRun LiboqsWorker.Idle
    (LiboqsWorker.statuses (snd (LiboqsWorker.run LiboqsWorker.initialState evs)))
  = Some (LiboqsWorker.handler
            (fst (LiboqsWorker.run LiboqsWorker.initialState evs)))
  ∧ (LiboqsWorker.running
       (fst (LiboqsWorker.run LiboqsWorker.initialState evs)) = true
     ↔ LiboqsWorker.handler
         (fst (LiboqsWorker.run LiboqsWorker.initialState evs))
       ≠ LiboqsWorker.Idle).
Proof.
  split.
  - apply (worker_run_protocol evs _ worker_initialState_consistent).
  - apply (worker_run_consistent evs _ worker_initialState_consistent).
Qed.

(** The end of the handler: the buffered entries in at most one batch, then
    the terminal status. *)
Lemma worker_finish_spec s err :
  ∃ pre,
    snd (LiboqsWorker.finish s err)
    = pre ++ [LiboqsWorker.PostStatus
                (match err with None => "done" | Some _ => "error" end) err]
    ∧ (∀ x, x ∈ pre → x = LiboqsWorker.PostLogBatch (LiboqsWorker.logBuffer s))
    ∧ LiboqsWorker.posted pre = LiboqsWorker.logBuffer s
    ∧ LiboqsWorker.logBuffer (fst (LiboqsWorker.finish s err)) = []
    ∧ LiboqsWorker.running (fst (LiboqsWorker.finish s err)) = false
    ∧ LiboqsWorker.handler (fst (LiboqsWorker.finish s err)) = LiboqsWorker.Idle
    ∧ LiboqsWorker.pyodideReady (fst (LiboqsWorker.finish s err))
      = LiboqsWorker.pyodideReady s.
Proof.
  exists (snd (LiboqsWorker.flushLogs s)).
  unfold LiboqsWorker.finish, LiboqsWorker.flushLogs, LiboqsWorker.posted.
  destruct (LiboqsWorker.logBuffer s) as [|e b] eqn:E; simpl.
  - rewrite E. repeat split; try done. intros x Hx. by apply elem_of_nil in Hx.
  - rewrite app_nil_r. repeat split; try done.
    intros x Hx. by apply list_elem_of_singleton in Hx.
Qed.

Lemma worker_flushLogs_effects s x :
  x ∈ snd (LiboqsWorker.flushLogs s) →
  x = LiboqsWorker.PostLogBatch (LiboqsWorker.logBuffer s).
Proof.
  unfold LiboqsWorker.flushLogs.
  destruct (LiboqsWorker.logBuffer s) as [|e b]; simpl; intros Hx.
  - by apply elem_of_nil in Hx.
  - by apply list_elem_of_singleton in Hx.
Qed.

Ltac worker_quiet Hquiet :=
  let Hin := fresh in
  intros Hin; exfalso; revert Hin; cbn [fst snd]; apply Hquiet;
  repeat (apply Forall_cons_2 || apply Forall_nil_2);
  let H := fresh in
  intros ? ? H; first [discriminate H | injection H as <- _; done].

Lemma worker_step_terminal st ev res s e :
  LiboqsWorker.step st ev = Some res →
  LiboqsWorker.PostStatus s e ∈ snd res →
  s = "done" ∨ s = "error" →
  last (snd res) = Some (LiboqsWorker.PostStatus s e)
  ∧ LiboqsWorker.posted (snd res) = LiboqsWorker.logBuffer st
  ∧ LiboqsWorker.logBuffer (fst res) = []
  ∧ LiboqsWorker.running (fst res) = false.
Proof.
  intros Hs Hin Hterm.
  assert (∀ s0 err pfx,
            (∀ x, x ∈ pfx → x = LiboqsWorker.PostStatus "starting" None) →
            LiboqsWorker.logBuffer s0 = LiboqsWorker.logBuffer st →
            LiboqsWorker.PostStatus s e
            ∈ pfx ++ snd (LiboqsWorker.finish s0 err) →
            last (pfx ++ snd (LiboqsWorker.finish s0 err))
            = Some (LiboqsWorker.PostStatus s e)
            ∧ LiboqsWorker.posted (pfx ++ snd (LiboqsWorker.finish s0 err))
              = LiboqsWorker.logBuffer st
            ∧ LiboqsWorker.logBuffer (fst (LiboqsWorker.finish s0 err)) = []
            ∧ LiboqsWorker.running (fst (LiboqsWorker.finish s0 err)) = false)
    as Hfin.
  { clear Hin Hs. intros s0 err pfx Hpfx Hbuf Hin.
    destruct (worker_finish_spec s0 err) as (pre & Eo & Hpre & Epost & Eb & Er & _).
    rewrite Eo, app_assoc in Hin |- *.
    split; [| split; [| done]].
    - rewrite last_snoc. f_equal.
      apply elem_of_app in Hin as [Hin | Hin].
      + apply elem_of_app in Hin as [Hin | Hin].
        * apply Hpfx in Hin. injection Hin as -> _. by destruct Hterm.
        * apply Hpre in Hin. done.
      + by apply list_elem_of_singleton in Hin.
    - rewrite !worker_posted_app, Epost, Hbuf.
      assert (LiboqsWorker.posted pfx = []) as ->.
      { clear -Hpfx. induction pfx as [|x pfx IH]; [done |].
        rewrite (Hpfx x) by left. unfold LiboqsWorker.posted in *. simpl.
        apply IH. intros y Hy. apply Hpfx. by right. }
      unfold LiboqsWorker.posted. simpl. by rewrite app_nil_r. }
  assert (∀ l : list LiboqsWorker.effect,
            Forall (fun x => ∀ s1 e1, x = LiboqsWorker.PostStatus s1 e1 →
                                      s1 ≠ "done" ∧ s1 ≠ "error") l →
            LiboqsWorker.PostStatus s e ∈ l → False) as Hquiet.
  { intros l Hl Hl'. rewrite Forall_forall in Hl.
    destruct (Hl _ Hl' s e eq_refl) as [H1 H2]. by destruct Hterm. }
  destruct ev as [data | entry | | | err | err];
    unfold LiboqsWorker.step in Hs.
  - injection Hs as <-. revert Hin. unfold LiboqsWorker.onmessage.
    match goal with |- context [negb ?b] => destruct (negb b) end.
    { intros Hin. by apply elem_of_nil in Hin. }
    destruct (LiboqsWorker.running st).
    { worker_quiet Hquiet. }
    cbn [LiboqsWorker.pyodideReady LiboqsWorker.with_handler].
    destruct (LiboqsWorker.pyodideReady st) as [| | |e0]; cbn [fst snd].
    + worker_quiet Hquiet.
    + worker_quiet Hquiet.
    + simpl. worker_quiet Hquiet.
    + cbn [LiboqsWorker.afterInit]. intros Hin.
      apply (Hfin (LiboqsWorker.with_handler st true (LiboqsWorker.handler st))
               (Some e0) [LiboqsWorker.PostStatus "starting" None]);
        try done.
      intros x Hx. by apply list_elem_of_singleton in Hx.
  - injection Hs as <-. revert Hin. unfold LiboqsWorker.enqueueLog.
    destruct (Nat.leb _ _); intros Hin.
    + by apply worker_flushLogs_effects in Hin.
    + by apply elem_of_nil in Hin.
  - injection Hs as <-. by apply worker_flushLogs_effects in Hin.
  - injection Hs as <-. revert Hin.
    unfold LiboqsWorker.intervalCallback. destruct (Nat.ltb _ _); intros Hin.
    + by apply worker_flushLogs_effects in Hin.
    + by apply elem_of_nil in Hin.
  - destruct (LiboqsWorker.pyodideReady st); try done.
    destruct (LiboqsWorker.handler st); injection Hs as <-;
      try (by apply elem_of_nil in Hin).
    destruct err as [e0|]; cbn [LiboqsWorker.afterInit] in *.
    + apply (Hfin (LiboqsWorker.with_pyodideReady st
                     (LiboqsWorker.settled (Some e0))) (Some e0) []);
        [intros x Hx; by apply elem_of_nil in Hx | done | done].
    + revert Hin. simpl. worker_quiet Hquiet.
  - destruct (LiboqsWorker.handler st); try done.
    injection Hs as <-.
    apply (Hfin st err []);
      [intros x Hx; by apply elem_of_nil in Hx | done | done].
Qed.

(** X23: a terminal status ([done] or [error]) is the last message of its turn;
    the log entries buffered before the turn are posted before it, in
    order, and after the turn the buffer is empty and the worker accepts a
    new run. *)
Theorem liboqs_worker_terminal_status_follows_logs st ev st' out s e :
  LiboqsWorker.step st ev = Some (st', out) →
  LiboqsWorker.PostStatus s e ∈ out →
  s = "done" ∨ s = "error" →
  last out = Some (LiboqsWorker.PostStatus s e)
  ∧ LiboqsWorker.posted out = LiboqsWorker.logBuffer st
  ∧ LiboqsWorker.logBuffer st' = []
  ∧ LiboqsWorker.running st' = false.
Proof. intros Hs. apply (worker_step_terminal st ev (st', out) s e Hs). Qed.

Lemma liboqs_worker_terminal_status_follows_logs_witness :
  let st := fst (LiboqsWorker.run LiboqsWorker.initialState
                   [LiboqsWorker.Message (VObj {[ "type" := VStr "run" ]});
                    LiboqsWorker.InitSettled None;
                    LiboqsWorker.Log (VStr "kem ok");
                    LiboqsWorker.Log (VStr "sig ok")]) in
  ∃ st',
    LiboqsWorker.step st (LiboqsWorker.RunSettled None)
    = Some (st', [LiboqsWorker.PostLogBatch [VStr "kem ok"; VStr "sig ok"];
                  LiboqsWorker.PostStatus "done" None])
    ∧ LiboqsWorker.logBuffer st' = [] ∧ LiboqsWorker.running st' = false.
Proof.
  intros st.
  eexists. split; [vm_compute; reflexivity |].
  refine (let H := liboqs_worker_terminal_status_follows_logs st
            (LiboqsWorker.RunSettled None) _ _ "done" None _ _ _ in
          conj (proj1 (proj2 (proj2 H))) (proj2 (proj2 (proj2 H)))).
  - vm_compute; reflexivity.
  - right. left.
  - by left.
Defined.

Lemma worker_initStarts_app o1 o2 :
  LiboqsWorker.initStarts (o1 ++ o2)
  = LiboqsWorker.initStarts o1 + LiboqsWorker.initStarts o2.
Proof.
  unfold LiboqsWorker.initStarts. by rewrite List.filter_app, length_app.
Qed.

Ltac worker_count :=
  cbn [fst snd]; unfold LiboqsWorker.initStarts, LiboqsWorker.initStarted;
  cbn [List.filter LiboqsWorker.isStartInit length LiboqsWorker.pyodideReady
       LiboqsWorker.with_logBuffer LiboqsWorker.with_handler
       LiboqsWorker.with_pyodideReady];
  lia.

Lemma worker_flushLogs_initStarts s :
  LiboqsWorker.initStarts (snd (LiboqsWorker.flushLogs s)) = 0
  ∧ LiboqsWorker.initStarted (fst (LiboqsWorker.flushLogs s))
    = LiboqsWorker.initStarted s.
Proof.
  unfold LiboqsWorker.flushLogs.
  by destruct (LiboqsWorker.logBuffer s).
Qed.

Lemma worker_finish_initStarts s err :
  LiboqsWorker.initStarts (snd (LiboqsWorker.finish s err)) = 0
  ∧ LiboqsWorker.initStarted (fst (LiboqsWorker.finish s err))
    = LiboqsWorker.initStarted s.
Proof.
  unfold LiboqsWorker.finish. cbn [fst snd].
  rewrite worker_initStarts_app.
  destruct (worker_flushLogs_initStarts s) as [-> <-]. done.
Qed.

(** One step starts the initialization exactly when it stores the promise. *)
Lemma worker_step_initStarts st ev res :
  LiboqsWorker.step st ev = Some res →
  LiboqsWorker.initStarted st + LiboqsWorker.initStarts (snd res)
  = LiboqsWorker.initStarted (fst res).
Proof.
  destruct ev as [data | entry | | | err | err]; unfold LiboqsWorker.step.
  - intros [= <-]. unfold LiboqsWorker.onmessage.
    match goal with |- context [negb ?b] => destruct (negb b) end;
      [worker_count |].
    destruct (LiboqsWorker.running st); [worker_count |].
    cbn [LiboqsWorker.pyodideReady LiboqsWorker.with_handler].
    unfold LiboqsWorker.initStarted at 1.
    destruct (LiboqsWorker.pyodideReady st) as [| | |e] eqn:E;
      try (unfold LiboqsWorker.initStarted, LiboqsWorker.initStarts; simpl;
           rewrite ?E; done).
    cbn [fst snd LiboqsWorker.afterInit].
    change (LiboqsWorker.initStarts (?x :: ?l))
      with (LiboqsWorker.initStarts ([x] ++ l)).
    rewrite worker_initStarts_app.
    destruct (worker_finish_initStarts
                (LiboqsWorker.with_handler st true (LiboqsWorker.handler st))
                (Some e)) as [-> ->].
    unfold LiboqsWorker.initStarted. simpl. by rewrite E.
  - intros [= <-]. unfold LiboqsWorker.enqueueLog.
    destruct (Nat.leb _ _); [| unfold LiboqsWorker.initStarted; worker_count].
    destruct (worker_flushLogs_initStarts
                (LiboqsWorker.with_logBuffer st
                   (LiboqsWorker.logBuffer st ++ [entry]))) as [-> ->].
    unfold LiboqsWorker.initStarted. simpl. lia.
  - intros [= <-]. destruct (worker_flushLogs_initStarts st) as [-> ->]. lia.
  - intros [= <-]. unfold LiboqsWorker.intervalCallback.
    destruct (Nat.ltb _ _); [| worker_count].
    destruct (worker_flushLogs_initStarts st) as [-> ->]. lia.
  - unfold LiboqsWorker.initStarted at 1.
    destruct (LiboqsWorker.pyodideReady st) eqn:E; try done.
    destruct (LiboqsWorker.handler st); intros [= <-];
      try (by destruct err).
    destruct err as [e|]; [| done].
    cbn [LiboqsWorker.afterInit].
    destruct (worker_finish_initStarts
                (LiboqsWorker.with_pyodideReady st
                   (LiboqsWorker.settled (Some e))) (Some e)) as [-> ->].
    done.
  - destruct (LiboqsWorker.handler st); try done.
    intros [= <-]. destruct (worker_finish_initStarts st err) as [-> ->]. lia.
Qed.

Lemma worker_run_initStarts evs st :
  LiboqsWorker.initStarted st
  + LiboqsWorker.initStarts (snd (LiboqsWorker.run st evs))
  = LiboqsWorker.initStarted (fst (LiboqsWorker.run st evs)).
Proof.
  revert st. induction evs as [|ev evs IH]; intros st; cbn [LiboqsWorker.run].
  - worker_count.
  - destruct (LiboqsWorker.step st ev) as [[st' out]|] eqn:Hs; [| apply IH].
    cbn [fst snd]. rewrite worker_initStarts_app.
    pose proof (worker_step_initStarts _ _ _ Hs) as H. cbn [fst snd] in H.
    rewrite <- IH. lia.
Qed.

(** X24: whatever messages arrive and however the promises settle, the
    initialization of Pyodide is started at most once: exactly once when
    [pyodideReady] holds a promise, never before. *)
Theorem liboqs_worker_initializes_once evs :
  LiboqsWorker.initStarts
    (snd (LiboqsWorker.run LiboqsWorker.initialState evs))
  = LiboqsWorker.initStarted
      (fst (LiboqsWorker.run LiboqsWorker.initialState evs))
  ∧ LiboqsWorker.initStarts
      (snd (LiboqsWorker.run LiboqsWorker.initialState evs)) ≤ 1.
Proof.
  pose proof (worker_run_initStarts evs LiboqsWorker.initialState) as H.
  change (LiboqsWorker.initStarted LiboqsWorker.initialState) with 0 in H.
  split; [lia |]. simpl in H. rewrite H. unfold LiboqsWorker.initStarted.
  destruct (LiboqsWorker.pyodideReady _); lia.
Qed.

(** A state whose initialization was rejected: no handler is suspended. *)
Lemma worker_rejected_idle st err :
  LiboqsWorker.consistent st →
  LiboqsWorker.pyodideReady st = LiboqsWorker.Rejected err →
  LiboqsWorker.handler st = LiboqsWorker.Idle
  ∧ LiboqsWorker.running st = false.
Proof.
  intros [Hr Hp Hi Hu Hb] E.
  assert (LiboqsWorker.handler st = LiboqsWorker.Idle) as Hh.
  { destruct (LiboqsWorker.handler st) eqn:Hh; [done | |].
    - rewrite (Hi eq_refl) in E. done.
    - rewrite (Hu eq_refl) in E. done. }
  split; [done |].
  destruct (LiboqsWorker.running st) eqn:Hrun; [| done].
  by apply Hr in Hh.
Qed.

Lemma worker_step_rejected st ev res err :
  LiboqsWorker.consistent st →
  LiboqsWorker.pyodideReady st = LiboqsWorker.Rejected err →
  LiboqsWorker.step st ev = Some res →
  LiboqsWorker.pyodideReady (fst res) = LiboqsWorker.Rejected err.
Proof.
  intros Hc E. destruct (worker_rejected_idle _ _ Hc E) as [Hh Hrun].
  destruct ev as [data | entry | | | e | e]; unfold LiboqsWorker.step.
  - intros [= <-]. unfold LiboqsWorker.onmessage.
    match goal with |- context [negb ?b] => destruct (negb b) end; [done |].
    rewrite Hrun.
    cbn [LiboqsWorker.pyodideReady LiboqsWorker.with_handler].
    rewrite E. cbn [fst LiboqsWorker.afterInit].
    by destruct (worker_finish_spec
                   (LiboqsWorker.with_handler st true (LiboqsWorker.handler st))
                   (Some err)) as (_ & _ & _ & _ & _ & _ & _ & ->).
  - intros [= <-]. unfold LiboqsWorker.enqueueLog.
    destruct (Nat.leb _ _); [| done].
    by destruct (worker_flushLogs_spec
                   (LiboqsWorker.with_logBuffer st
                      (LiboqsWorker.logBuffer st ++ [entry])))
      as (_ & _ & _ & -> & _).
  - intros [= <-]. by destruct (worker_flushLogs_spec st) as (_ & _ & _ & -> & _).
  - intros [= <-]. unfold LiboqsWorker.intervalCallback.
    destruct (Nat.ltb _ _); [| done].
    by destruct (worker_flushLogs_spec st) as (_ & _ & _ & -> & _).
  - by rewrite E.
  - by rewrite Hh.
Qed.

Lemma worker_run_rejected evs st err :
  LiboqsWorker.consistent st →
  LiboqsWorker.pyodideReady st = LiboqsWorker.Rejected err →
  LiboqsWorker.pyodideReady (fst (LiboqsWorker.run st evs))
  = LiboqsWorker.Rejected err.
Proof.
  revert st. induction evs as [|ev evs IH]; intros st Hc E;
    cbn [LiboqsWorker.run]; [done |].
  destruct (LiboqsWorker.step st ev) as [[st' out]|] eqn:Hs; [| by apply IH].
  cbn [fst]. apply IH.
  - by apply (worker_step_consistent _ _ _ Hc Hs).
  - by apply (worker_step_rejected _ _ _ _ Hc E Hs).
Qed.

(** X25: a failed initialization is final.  Once the promise in [pyodideReady]
    is rejected it stays so, whatever happens later, and every later [run]
    message is answered within its own turn: [starting], the buffered log
    entries, and [error] with the text of the first failure.  Nothing is
    started again, and the worker is idle afterwards. *)
Theorem liboqs_worker_failed_init_is_final evs later err m :
  LiboqsWorker.pyodideReady
    (fst (LiboqsWorker.run LiboqsWorker.initialState evs))
  = LiboqsWorker.Rejected err →
  prop m "type" = VStr "run" →
  let st := fst (LiboqsWorker.run LiboqsWorker.initialState evs) in
  LiboqsWorker.step st (LiboqsWorker.Message (VObj m))
  = Some (LiboqsWorker.with_logBuffer st [],
          LiboqsWorker.PostStatus "starting" None
          :: snd (LiboqsWorker.flushLogs st)
          ++ [LiboqsWorker.PostStatus "error" (Some err)])
  ∧ LiboqsWorker.running st = false
  ∧ LiboqsWorker.pyodideReady (fst (LiboqsWorker.run st later))
    = LiboqsWorker.Rejected err.
Proof.
  intros E Ht st.
  pose proof (worker_run_consistent evs _ worker_initialState_consistent) as Hc.
  fold st in Hc, E.
  destruct (worker_rejected_idle _ _ Hc E) as [Hh Hrun].
  split; [| split; [done | by apply worker_run_rejected]].
  clearbody st. unfold LiboqsWorker.step, LiboqsWorker.onmessage.
  cbn [jsor truthy]. rewrite Ht. cbn [is_str]. 
  rewrite String.eqb_refl. cbn [negb]. rewrite Hrun.
  cbn [LiboqsWorker.pyodideReady LiboqsWorker.with_handler]. rewrite E.
  cbn [fst snd LiboqsWorker.afterInit]. unfold LiboqsWorker.finish.
  cbn [fst snd]. unfold LiboqsWorker.flushLogs.
  destruct st as [py r h b]. simpl in *. subst.
  by destruct b.
Qed.

Lemma liboqs_worker_failed_init_is_final_witness :
  let evs := [LiboqsWorker.Message (VObj {[ "type" := VStr "run" ]});
              LiboqsWorker.Log (VStr "loading");
              LiboqsWorker.InitSettled (Some "Failed to fetch")] in
  let st := fst (LiboqsWorker.run LiboqsWorker.initialState evs) in
  LiboqsWorker.step st (LiboqsWorker.Message (VObj {[ "type" := VStr "run" ]}))
  = Some (st, [LiboqsWorker.PostStatus "starting" None;
               LiboqsWorker.PostStatus "error" (Some "Failed to fetch")])
  ∧ LiboqsWorker.pyodideReady
      (fst (LiboqsWorker.run st
              [LiboqsWorker.Message (VObj {[ "type" := VStr "run" ]});
               LiboqsWorker.Tick]))
    = LiboqsWorker.Rejected "Failed to fetch".
Proof.
  intros evs st.
  refine (let H := liboqs_worker_failed_init_is_final evs
                     [LiboqsWorker.Message (VObj {[ "type" := VStr "run" ]});
                      LiboqsWorker.Tick]
                     "Failed to fetch" {[ "type" := VStr "run" ]} _ _ in
          conj (proj1 H) (proj2 (proj2 H))).
  - vm_compute; reflexivity.
  - vm_compute; reflexivity.
Defined.

Lemma string_prefix_nil s : String.prefix "" s = true.
Proof. by destruct s. Qed.

Lemma string_prefix_app p a b :
  String.prefix p a = true → String.prefix p (a +:+ b) = true.
Proof.
  revert p. induction a as [|d a IH]; intros [|c p];
    rewrite ?string_prefix_nil; try done.
  rewrite string_app_cons. simpl.
  destruct (Ascii.ascii_dec c d); [apply IH | done].
Qed.

(** X26: [resolveUrl] gives an absolute URL, and leaves an absolute URL as it is,
    when the origin of the worker is an http or https origin; so resolving
    twice is resolving once. *)
Theorem liboqs_worker_resolveUrl_idempotent origin path :
  startsWith origin "http" = true →
  startsWith (LiboqsWorker.resolveUrl origin path) "http" = true
  ∧ LiboqsWorker.resolveUrl origin (LiboqsWorker.resolveUrl origin path)
    = LiboqsWorker.resolveUrl origin path.
Proof.
  intros Ho.
  assert (startsWith (LiboqsWorker.resolveUrl origin path) "http" = true) as H.
  { unfold LiboqsWorker.resolveUrl.
    destruct (startsWith path "http") eqn:Hp; [done |].
    by apply string_prefix_app. }
  split; [done |].
  unfold LiboqsWorker.resolveUrl at 1. by rewrite H.
Qed.

Lemma liboqs_worker_resolveUrl_idempotent_witness :
  startsWith
    (LiboqsWorker.resolveUrl "https://keri.example" "/python/test_kem.py")
    "http" = true
  ∧ LiboqsWorker.resolveUrl "https://keri.example"
      (LiboqsWorker.resolveUrl "https://keri.example" "/python/test_kem.py")
    = LiboqsWorker.resolveUrl "https://keri.example" "/python/test_kem.py".
Proof.
  apply (liboqs_worker_resolveUrl_idempotent "https://keri.example"
           "/python/test_kem.py").
  reflexivity.
Defined.
